(** * P2P file sharing: the directory registry and the peer

    A shallow embedding of
      - [Server/src/server.py]  ([PeerData], [P2PDirectoryServer]),
      - [Peer/src/PServer/pserver.py]  ([AuthManager], [FileManager] and the
        handlers of [PServer]),
      - [Peer/src/PClient/pclient.py]  ([PClient]) and
      - [Peer/src/peer.py]  ([P2PPeer.manual_login], [manual_logout]),
    followed by the properties of the registry, of indexing and search, of
    the upload and download handlers, of scanning, and of the client and
    the handlers that reach the directory.

    Conventions.  Python [str] is [string], a sequence of bytes; Python
    [int] is [Z]; [datetime] values are seconds, in [Z].  A Python [dict]
    that the code iterates ([peers], a peer's [files]) is an
    insertion-ordered association list (module [Dict]); the two secondary
    indexes, which are only looked up, are [gmap string string].  The value
    returned by [_generate_token] (an MD5 hex digest of a time stamp, a
    counter and random bits) and the clock are inputs of the operations
    that read them.  The file system is a tree with regular files, hard
    links and symbolic links, looked up as Linux does. *)

From Stdlib Require Import ZArith String Ascii List Bool Lia.
From Stdlib Require Import DecimalString.
From stdpp Require Import base option gmap strings list.

Import ListNotations.
Local Open Scope string_scope.
Local Open Scope Z_scope.

(** ** Python dictionaries with their iteration order *)

Module Dict.
Section Ops.
Context {V : Type}.

(** [d.get(k)] *)
Fixpoint get (d : list (string * V)) (k : string) : option V :=
  match d with
  | [] => None
  | (k', v) :: d' => if String.eqb k' k then Some v else get d' k
  end.

(** [k in d] *)
Definition mem (d : list (string * V)) (k : string) : bool :=
  match get d k with Some _ => true | None => false end.

(** [d[k] = v]: an existing key keeps its position, a new key goes last. *)
Fixpoint set (d : list (string * V)) (k : string) (v : V) : list (string * V) :=
  match d with
  | [] => [(k, v)]
  | (k', v') :: d' =>
      if String.eqb k' k then (k, v) :: d' else (k', v') :: set d' k v
  end.

(** [del d[k]] for a key that is present. *)
Definition del (d : list (string * V)) (k : string) : list (string * V) :=
  List.filter (fun kv => negb (String.eqb (fst kv) k)) d.

Definition keys (d : list (string * V)) : list string := List.map fst d.
Definition values (d : list (string * V)) : list V := List.map snd d.
End Ops.
End Dict.

(** ** Data model of the directory ([server.py]) *)

(** The per-file dictionary that [Index] stores under the file's name. *)
Record FileMetadata := {
  filename : string;
  file_path : string;
  file_size : Z;
  file_hash : string;
  last_modified : Z;
  mime_type : string;
  tags : list string
}.

(** [@dataclass PeerData] *)
Record PeerData := {
  peer_id : string;
  username : string;
  url : string;
  port : Z;
  token : string;
  is_online : bool;
  last_seen : Z;
  files : list (string * FileMetadata);
  login_attempts : Z;
  created_at : Z
}.

Definition set_is_online (b : bool) (p : PeerData) : PeerData :=
  {| peer_id := peer_id p; username := username p; url := url p; port := port p;
     token := token p; is_online := b; last_seen := last_seen p; files := files p;
     login_attempts := login_attempts p; created_at := created_at p |}.

Definition set_last_seen (t : Z) (p : PeerData) : PeerData :=
  {| peer_id := peer_id p; username := username p; url := url p; port := port p;
     token := token p; is_online := is_online p; last_seen := t; files := files p;
     login_attempts := login_attempts p; created_at := created_at p |}.

Definition set_port (n : Z) (p : PeerData) : PeerData :=
  {| peer_id := peer_id p; username := username p; url := url p; port := n;
     token := token p; is_online := is_online p; last_seen := last_seen p; files := files p;
     login_attempts := login_attempts p; created_at := created_at p |}.

Definition set_files (f : list (string * FileMetadata)) (p : PeerData) : PeerData :=
  {| peer_id := peer_id p; username := username p; url := url p; port := port p;
     token := token p; is_online := is_online p; last_seen := last_seen p; files := f;
     login_attempts := login_attempts p; created_at := created_at p |}.

Definition set_login_attempts (n : Z) (p : PeerData) : PeerData :=
  {| peer_id := peer_id p; username := username p; url := url p; port := port p;
     token := token p; is_online := is_online p; last_seen := last_seen p; files := files p;
     login_attempts := n; created_at := created_at p |}.

(** The in-memory database of [P2PDirectoryServer]. *)
Record State := {
  peers : list (string * PeerData);        (* token -> PeerData *)
  peer_index : gmap string string;         (* peer_id -> token *)
  username_index : gmap string string;     (* username -> token *)
  token_counter : Z
}.

Definition init_state : State :=
  {| peers := []; peer_index := ∅; username_index := ∅; token_counter := 0 |}.

Definition with_peers (ps : list (string * PeerData)) (s : State) : State :=
  {| peers := ps; peer_index := peer_index s; username_index := username_index s;
     token_counter := token_counter s |}.

(** [SecurityConfig] and [DatabaseConfig] of [config.py]. *)
Record SecurityConfig := {
  enable_auth : bool;
  token_expiry : Z;
  max_login_attempts : Z
}.

Record DatabaseConfig := {
  cleanup_interval : Z;
  peer_timeout : Z
}.

(** Defaults of [ConfigManager.get_security_config] and [get_database_config]. *)
Definition default_security : SecurityConfig :=
  {| enable_auth := true; token_expiry := 3600; max_login_attempts := 3 |}.
Definition default_database : DatabaseConfig :=
  {| cleanup_interval := 300; peer_timeout := 120 |}.

(** ** Messages of the RPC surface *)

Record LoginRequest := {
  lr_username : string;
  lr_password : string;
  lr_peer_id : string;
  lr_peer_url : string;
  lr_port : Z
}.

Record PeerInfo := {
  pi_peer_id : string;
  pi_username : string;
  pi_url : string;
  pi_port : Z;
  pi_is_online : bool;
  pi_last_seen : Z;
  pi_file_count : Z
}.

(** Exceptions the handlers can meet; every handler catches [Exception]. *)
Inductive PyExn := KeyError (key : string).

(** The [message] of a [LoginResponse], one constructor per literal of
    [Login]; [Error_interno e] is [f"Error interno del servidor: {str(e)}"]. *)
Inductive LoginMessage :=
| Reconexion_exitosa
| Demasiados_intentos_de_login_fallidos
| Login_exitoso
| Error_interno (e : PyExn).

Record LoginResponse := {
  lresp_success : bool;
  lresp_token : string;
  lresp_message : LoginMessage;
  lresp_connected_peers : list PeerInfo
}.

(** ** [P2PDirectoryServer.Login] *)

(** [service_pb2.PeerInfo(peer_id=p.peer_id, ..., file_count=len(p.files))] *)
Definition peer_info_of (p : PeerData) : PeerInfo :=
  {| pi_peer_id := peer_id p; pi_username := username p; pi_url := url p;
     pi_port := port p; pi_is_online := is_online p; pi_last_seen := last_seen p;
     pi_file_count := Z.of_nat (length (files p)) |}.

(** The loop [for p in self.peers.values(): if p.is_online and p.token != tok:
    connected_peers.append(PeerInfo(...))]. *)
Definition connected_peers_loop (ps : list (string * PeerData)) (tok : string) : list PeerInfo :=
  fold_left
    (fun acc p =>
       if is_online p && negb (String.eqb (token p) tok)
       then (acc ++ [peer_info_of p])%list else acc)
    (Dict.values ps) [].

(** Truth value of [self.username_index.get(username)]: [None] and the empty
    string are false. *)
Definition truthy (o : option string) : bool :=
  match o with
  | Some t => negb (String.eqb t "")
  | None => false
  end.

(** [PeerData(peer_id=..., username=..., url=..., port=..., token=token,
    is_online=True, last_seen=datetime.now())] *)
Definition new_peer (now : Z) (tok : string) (req : LoginRequest) : PeerData :=
  {| peer_id := lr_peer_id req; username := lr_username req; url := lr_peer_url req;
     port := lr_port req; token := tok; is_online := true; last_seen := now;
     files := []; login_attempts := 0; created_at := now |}.

(** From [# Crear nuevo peer] to the end of [Login].  [minted] is the value
    of [self._generate_token()], which also increments [token_counter]. *)
Definition login_create (now : Z) (minted : string) (req : LoginRequest) (s : State)
  : LoginResponse * State :=
  let s' :=
    {| peers := Dict.set (peers s) minted (new_peer now minted req);
       peer_index := <[lr_peer_id req := minted]> (peer_index s);
       username_index := <[lr_username req := minted]> (username_index s);
       token_counter := token_counter s + 1 |} in
  ({| lresp_success := true; lresp_token := minted; lresp_message := Login_exitoso;
      lresp_connected_peers := connected_peers_loop (peers s') minted |}, s').

(** From [# Verificar límites de intentos de login] on. *)
Definition login_attempt (cfg : SecurityConfig) (now : Z) (minted : string)
    (req : LoginRequest) (s : State) : LoginResponse * State :=
  let existing_token := username_index s !! lr_username req in
  if truthy existing_token then
    let et := default "" existing_token in
    match Dict.get (peers s) et with
    | None =>
        (* peer = self.peers[existing_token] raises, caught by the handler *)
        ({| lresp_success := false; lresp_token := "";
            lresp_message := Error_interno (KeyError et);
            lresp_connected_peers := [] |}, s)
    | Some peer =>
        let peer' := set_login_attempts (login_attempts peer + 1) peer in
        let s1 := with_peers (Dict.set (peers s) et peer') s in
        if login_attempts peer' >? max_login_attempts cfg then
          ({| lresp_success := false; lresp_token := "";
              lresp_message := Demasiados_intentos_de_login_fallidos;
              lresp_connected_peers := [] |}, s1)
        else login_create now minted req s1
    end
  else login_create now minted req s.

(** [Login], from its first line to the end of the re-login branch; the
    [if self.security_config.enable_auth: pass] that follows does nothing.
    [request.password] is not read. *)
Definition Login (cfg : SecurityConfig) (now : Z) (minted : string)
    (req : LoginRequest) (s : State) : LoginResponse * State :=
  let existing_token := username_index s !! lr_username req in
  let et := default "" existing_token in
  match (if truthy existing_token then Dict.get (peers s) et else None) with
  | Some peer =>
      if String.eqb (username peer) (lr_username req)
         && String.eqb (url peer) (lr_peer_url req)
      then
        let peer' := set_port (lr_port req) (set_last_seen now (set_is_online true peer)) in
        let s' := with_peers (Dict.set (peers s) et peer') s in
        ({| lresp_success := true; lresp_token := et;
            lresp_message := Reconexion_exitosa;
            lresp_connected_peers := connected_peers_loop (peers s') et |}, s')
      else login_attempt cfg now minted req s
  | None => login_attempt cfg now minted req s
  end.

(** ** Token validation and the authenticated operations *)

(** [_validate_token]: the record stored under [tok], if it is online, with
    its [last_seen] set to the current time (the record is updated in the
    registry, under its key). *)
Definition _validate_token (now : Z) (tok : string) (s : State) : option (PeerData * State) :=
  match Dict.get (peers s) tok with
  | Some peer =>
      if is_online peer then
        let peer' := set_last_seen now peer in
        Some (peer', with_peers (Dict.set (peers s) tok peer') s)
      else None
  | None => None
  end.

Inductive LogoutMessage := Logout_exitoso | Logout_token_invalido.

Record LogoutResponse := {
  loresp_success : bool;
  loresp_message : LogoutMessage
}.

(** [P2PDirectoryServer.Logout] *)
Definition Logout (now : Z) (tok : string) (s : State) : LogoutResponse * State :=
  match _validate_token now tok s with
  | None => ({| loresp_success := false; loresp_message := Logout_token_invalido |}, s)
  | Some (peer, s1) =>
      let peer' := set_is_online false peer in
      ({| loresp_success := true; loresp_message := Logout_exitoso |},
       with_peers (Dict.set (peers s1) tok peer') s1)
  end.

Inductive IndexMessage := Archivos_indexados_correctamente | Index_token_invalido.

Record IndexResponse := {
  iresp_success : bool;
  iresp_message : IndexMessage;
  iresp_files_indexed : Z
}.

(** The body of [Index]'s loop: [peer.files[file_metadata.filename] = {...};
    files_indexed += 1], on the pair (files dictionary, counter). *)
Definition index_step (acc : list (string * FileMetadata) * Z) (fm : FileMetadata)
  : list (string * FileMetadata) * Z :=
  (Dict.set (fst acc) (filename fm) fm, snd acc + 1).

(** [peer.files.clear(); files_indexed = 0; for file_metadata in request.files: ...] *)
Definition index_loop (fs : list FileMetadata) : list (string * FileMetadata) * Z :=
  fold_left index_step fs ([], 0).

(** [P2PDirectoryServer.Index] *)
Definition Index (now : Z) (tok : string) (fs : list FileMetadata) (s : State)
  : IndexResponse * State :=
  match _validate_token now tok s with
  | None =>
      ({| iresp_success := false; iresp_message := Index_token_invalido;
          iresp_files_indexed := 0 |}, s)
  | Some (peer, s1) =>
      let '(files', files_indexed) := index_loop fs in
      ({| iresp_success := true; iresp_message := Archivos_indexados_correctamente;
          iresp_files_indexed := files_indexed |},
       with_peers (Dict.set (peers s1) tok (set_files files' peer)) s1)
  end.

(** *** Search *)

(** [str.lower] on ASCII text: [A]..[Z] go to [a]..[z], every other byte is
    kept. *)
Definition lower_ascii (c : ascii) : ascii :=
  let n := nat_of_ascii c in
  if (Nat.leb 65 n && Nat.leb n 90)%bool then ascii_of_nat (n + 32) else c.

Fixpoint lower (s : string) : string :=
  match s with
  | EmptyString => EmptyString
  | String c s' => String (lower_ascii c) (lower s')
  end.

(** [needle in hay] for strings. *)
Fixpoint contains (needle hay : string) : bool :=
  String.prefix needle hay ||
  match hay with
  | EmptyString => false
  | String _ hay' => contains needle hay'
  end.

(** Truth value of a string: non-empty. *)
Definition nonempty (s : string) : bool := negb (String.eqb s "").

Record FileLocation := {
  file_info : FileMetadata;
  peer_info : PeerInfo;
  download_url : string;
  is_available : bool
}.

Record SearchRequest := {
  sr_token : string;
  sr_peer_id : string;
  sr_filename : string;
  sr_file_pattern : string
}.

Record SearchResponse := {
  sresp_success : bool;
  sresp_results : list FileLocation
}.

(** [str(port)] inside the f-string: decimal digits, with a sign if negative. *)
Definition str_of_Z (n : Z) : string := NilZero.string_of_int (Z.to_int n).

(** [f"http://{p.url}:{p.port}/download/{filename}"] *)
Definition make_download_url (p : PeerData) (fname : string) : string :=
  "http://" +:+ url p +:+ ":" +:+ str_of_Z (port p) +:+ "/download/" +:+ fname.

(** The two [if]s that set [match] for one file name. *)
Definition file_matches (search_term search_pattern fname : string) : bool :=
  let m := false in
  let m := if nonempty search_term && contains search_term (lower fname) then true else m in
  let m := if nonempty search_pattern && contains search_pattern (lower fname) then true else m in
  m.

(** The inner loop [for filename, file_data in p.files.items()]. *)
Definition search_files_loop (search_term search_pattern : string) (p : PeerData)
    (results : list FileLocation) : list FileLocation :=
  fold_left
    (fun results kv =>
       let '(fname, file_data) := kv in
       if file_matches search_term search_pattern fname then
         (results ++ [{| file_info := file_data; peer_info := peer_info_of p;
                         download_url := make_download_url p fname;
                         is_available := true |}])%list
       else results)
    (files p) results.

(** The outer loop [for token, p in self.peers.items()]. *)
Definition search_peers_loop (search_term search_pattern req_token : string)
    (ps : list (string * PeerData)) : list FileLocation :=
  fold_left
    (fun results kv =>
       let '(tok, p) := kv in
       if negb (is_online p) || String.eqb tok req_token then results
       else search_files_loop search_term search_pattern p results)
    ps [].

(** [P2PDirectoryServer.Search] *)
Definition Search (now : Z) (req : SearchRequest) (s : State) : SearchResponse * State :=
  match _validate_token now (sr_token req) s with
  | None => ({| sresp_success := false; sresp_results := [] |}, s)
  | Some (_, s1) =>
      let search_term := lower (sr_filename req) in
      let search_pattern :=
        if nonempty (sr_file_pattern req) then lower (sr_file_pattern req) else "" in
      ({| sresp_success := true;
          sresp_results :=
            search_peers_loop search_term search_pattern (sr_token req) (peers s1) |}, s1)
  end.

(** *** GetPeerInfo and Heartbeat *)

Record PeerInfoResponse := {
  presp_success : bool;
  presp_peers : list PeerInfo
}.

Definition GetPeerInfo (now : Z) (tok : string) (s : State) : PeerInfoResponse * State :=
  match _validate_token now tok s with
  | None => ({| presp_success := false; presp_peers := [] |}, s)
  | Some (_, s1) =>
      ({| presp_success := true;
          presp_peers :=
            fold_left (fun acc p => if is_online p then (acc ++ [peer_info_of p])%list else acc)
                      (Dict.values (peers s1)) [] |}, s1)
  end.

Record HeartbeatResponse := {
  hresp_success : bool;
  hresp_server_timestamp : Z;
  hresp_active_peers : Z
}.

Definition Heartbeat (now : Z) (tok : string) (s : State) : HeartbeatResponse * State :=
  match _validate_token now tok s with
  | None => ({| hresp_success := false; hresp_server_timestamp := now;
                hresp_active_peers := 0 |}, s)
  | Some (_, s1) =>
      ({| hresp_success := true; hresp_server_timestamp := now;
          hresp_active_peers :=
            fold_left (fun n p => if is_online p then n + 1 else n)
                      (Dict.values (peers s1)) 0 |}, s1)
  end.

(** *** The inactivity sweep *)

(** First loop of [_cleanup_inactive_peers]: the tokens whose record has
    [last_seen < cutoff_time]. *)
Definition inactive_tokens (cutoff_time : Z) (ps : list (string * PeerData)) : list string :=
  fold_left
    (fun acc kv => if last_seen (snd kv) <? cutoff_time then (acc ++ [fst kv])%list else acc)
    ps [].

(** One round of the second loop: drop the two index entries named by the
    record, then the record.  A token with no record raises [KeyError], which
    ends the loop. *)
Definition cleanup_one (s : State) (tok : string) : option State :=
  match Dict.get (peers s) tok with
  | None => None
  | Some peer =>
      let pidx := if bool_decide (is_Some (peer_index s !! peer_id peer))
                  then delete (peer_id peer) (peer_index s) else peer_index s in
      let uidx := if bool_decide (is_Some (username_index s !! username peer))
                  then delete (username peer) (username_index s) else username_index s in
      Some {| peers := Dict.del (peers s) tok; peer_index := pidx;
              username_index := uidx; token_counter := token_counter s |}
  end.

Fixpoint cleanup_loop (s : State) (toks : list string) : State :=
  match toks with
  | [] => s
  | tok :: toks' =>
      match cleanup_one s tok with
      | Some s' => cleanup_loop s' toks'
      | None => s
      end
  end.

(** [_cleanup_inactive_peers] at time [now]. *)
Definition _cleanup_inactive_peers (db : DatabaseConfig) (now : Z) (s : State) : State :=
  let cutoff_time := now - peer_timeout db in
  cleanup_loop s (inactive_tokens cutoff_time (peers s)).

(** ** Request sequences *)

Inductive Request :=
| ReqLogin (now : Z) (minted : string) (req : LoginRequest)
| ReqLogout (now : Z) (tok : string)
| ReqIndex (now : Z) (tok : string) (fs : list FileMetadata)
| ReqSearch (now : Z) (req : SearchRequest)
| ReqGetPeerInfo (now : Z) (tok : string)
| ReqHeartbeat (now : Z) (tok : string)
| ReqSweep (now : Z).

Definition step (sec : SecurityConfig) (db : DatabaseConfig) (s : State) (r : Request) : State :=
  match r with
  | ReqLogin now minted req => snd (Login sec now minted req s)
  | ReqLogout now tok => snd (Logout now tok s)
  | ReqIndex now tok fs => snd (Index now tok fs s)
  | ReqSearch now req => snd (Search now req s)
  | ReqGetPeerInfo now tok => snd (GetPeerInfo now tok s)
  | ReqHeartbeat now tok => snd (Heartbeat now tok s)
  | ReqSweep now => _cleanup_inactive_peers db now s
  end.

Definition run (sec : SecurityConfig) (db : DatabaseConfig) (s : State) (rs : list Request) : State :=
  fold_left (step sec db) rs s.


(** ** The peer's HTTP service ([pserver.py]) *)

(** *** Exceptions *)

Inductive Exn :=
| HTTPException (status_code : Z)
| OSError.

Inductive Result (A : Type) :=
| Return (a : A)
| Raise (e : Exn).
Arguments Return {A} a.
Arguments Raise {A} e.

Definition bind {A B} (m : Result A) (k : A -> Result B) : Result B :=
  match m with
  | Return a => k a
  | Raise e => Raise e
  end.

Notation "'perform' x <- m ;; k" := (bind m (fun x => k))
  (at level 10, x name, m at level 99, k at level 200).

(** [try: body  except Exception as e: handler(e)] *)
Definition try_except {A} (body : Result A) (handler : Exn -> Result A) : Result A :=
  match body with
  | Return a => Return a
  | Raise e => handler e
  end.

(** The status code the HTTP client sees. *)
Definition status_of {A} (r : Result A) : Z :=
  match r with
  | Return _ => 200
  | Raise (HTTPException c) => c
  | Raise OSError => 500
  end.

(** *** Paths and the file system

    [pathlib.Path] on a POSIX system: a path is a flag (absolute or not) and
    its components; parsing drops empty components and [.] and keeps [..].

    The file system is a tree of directories whose leaves are regular files
    and symbolic links.  A regular file is known by its inode number and its
    size: two entries with the same inode number are hard links of one
    file.  A location is the list of names from the root.  Resolution
    follows Linux: components are looked up from left to right, [..] leads
    to the parent directory, a symbolic link is replaced by its target (at
    most [MAXSYMLINKS] times, then [ELOOP]), a component longer than
    [NAME_MAX] bytes or a path of [PATH_MAX] bytes or more gives
    [ENAMETOOLONG].  Permissions, special files, mount points and changes
    made by other processes are not part of the model. *)

Record Path := {
  absolute : bool;
  parts : list string
}.

Fixpoint split_slash (s : string) : list string :=
  match s with
  | EmptyString => [EmptyString]
  | String c s' =>
      if Ascii.eqb c "/" then EmptyString :: split_slash s'
      else match split_slash s' with
           | [] => [String c EmptyString]
           | h :: t => String c h :: t
           end
  end.

Definition is_name (c : string) : bool :=
  negb (String.eqb c "") && negb (String.eqb c ".").

(** [Path(s)] *)
Definition parse_path (s : string) : Path :=
  {| absolute := String.prefix "/" s;
     parts := List.filter is_name (split_slash s) |}.

(** [p / s]: an absolute right operand replaces the left one. *)
Definition joinpath (p : Path) (s : string) : Path :=
  let q := parse_path s in
  if absolute q then q
  else {| absolute := absolute p; parts := (parts p ++ parts q)%list |}.

(** The path [iterdir] yields for the entry [name] of directory [p]. *)
Definition child (p : Path) (name : string) : Path :=
  {| absolute := absolute p; parts := (parts p ++ [name])%list |}.

(** [p.name] *)
Definition path_name (p : Path) : string := default "" (last (parts p)).

(** The length of [str(p)] in bytes. *)
Definition path_length (p : Path) : nat :=
  match parts p with
  | [] => 1%nat
  | c :: cs =>
      ((if absolute p then 1 else 0) + String.length c
       + fold_right (fun x n => 1 + String.length x + n) 0 cs)%nat
  end.

Fixpoint has_ascii (a : ascii) (s : string) : bool :=
  match s with
  | EmptyString => false
  | String c s' => Ascii.eqb c a || has_ascii a s'
  end.

(** A component holds a null byte. *)
Definition has_nul (p : Path) : bool := existsb (has_ascii Ascii.zero) (parts p).

Definition NAME_MAX : nat := 255.
Definition PATH_MAX : nat := 4096.
Definition MAXSYMLINKS : nat := 40.

#[warnings="-register-all"] Inductive node :=
| RegularFile (st_ino : nat) (st_size : Z)
| Directory (children : list (string * node))
| SymbolicLink (target : string).

Record OS := {
  root : node;
  cwd : list string
}.

(** The node at location [p] below [n]; links are not followed. *)
Fixpoint node_at (n : node) (p : list string) : option node :=
  match p with
  | [] => Some n
  | c :: p' =>
      match n with
      | Directory children =>
          match Dict.get children c with
          | Some n' => node_at n' p'
          | None => None
          end
      | _ => None
      end
  end.

Definition fs_node (os : OS) (p : list string) : option node := node_at (root os) p.

(** The tree with [new] stored at location [p], whose parent must be an
    existing directory. *)
Fixpoint put (n : node) (p : list string) (new : node) : option node :=
  match p with
  | [] => Some new
  | c :: p' =>
      match n with
      | Directory children =>
          match p' with
          | [] => Some (Directory (Dict.set children c new))
          | _ =>
              match Dict.get children c with
              | Some n' =>
                  match put n' p' new with
                  | Some n'' => Some (Directory (Dict.set children c n''))
                  | None => None
                  end
              | None => None
              end
          end
      | _ => None
      end
  end.

(** The tree after the file with inode number [ino] got [size] bytes: every
    entry that is a hard link of it shows the new size. *)
Fixpoint set_size (ino : nat) (size : Z) (n : node) : node :=
  match n with
  | RegularFile i sz => if Nat.eqb i ino then RegularFile i size else RegularFile i sz
  | Directory children =>
      Directory (List.map (fun kv => match kv with (k, v) => (k, set_size ino size v) end)
                          children)
  | SymbolicLink target => SymbolicLink target
  end.

(** The largest inode number in use; a new file gets the next one. *)
Fixpoint max_ino (n : node) : nat :=
  match n with
  | RegularFile i _ => i
  | Directory children =>
      fold_right (fun kv m => match kv with (_, v) => Nat.max (max_ino v) m end) 0%nat
                 children
  | SymbolicLink _ => 0%nat
  end.

(** [st_size] and [st_ino] of what [stat] found.  The handlers read them of
    regular files only; for the other kinds the model gives 0. *)
Definition node_size (n : node) : Z :=
  match n with RegularFile _ sz => sz | _ => 0 end.

Definition node_ino (n : node) : nat :=
  match n with RegularFile i _ => i | _ => 0%nat end.

(** The ways a lookup fails: four error numbers of the system call, and the
    [ValueError] that Python raises, before any system call, for a path
    with a null byte. *)
Inductive Failure := ENOENT | ENOTDIR | ELOOP | ENAMETOOLONG | EmbeddedNull.

(** The outcome of a lookup: the location of an existing entry, a last
    component that is missing from an existing directory, or a failure. *)
Inductive Lookup :=
| Found (loc : list string)
| Absent (dir : list string) (name : string)
| Failed (e : Failure).

(** A walk over components ends with an outcome or stops at a symbolic
    link, found in directory [dir], with the components still to go. *)
Inductive Walk :=
| Done (l : Lookup)
| AtLink (dir : list string) (target : string) (rest : list string).

Fixpoint walk (os : OS) (cur : list string) (comps : list string) : Walk :=
  match comps with
  | [] => Done (Found cur)
  | c :: rest =>
      match fs_node os cur with
      | Some (Directory _) =>
          if String.eqb c "." then walk os cur rest
          else if String.eqb c ".." then walk os (removelast cur) rest
          else if (NAME_MAX <? String.length c)%nat then Done (Failed ENAMETOOLONG)
          else match fs_node os (cur ++ [c])%list with
               | Some (SymbolicLink target) => AtLink cur target rest
               | Some _ => walk os (cur ++ [c])%list rest
               | None =>
                   match rest with
                   | [] => Done (Absent cur c)
                   | _ :: _ => Done (Failed ENOENT)
                   end
               end
      | Some _ => Done (Failed ENOTDIR)
      | None => Done (Failed ENOENT)
      end
  end.

(** The components of the target of a symbolic link, as the system reads
    them: empty components are dropped, [.] and [..] are kept, and a
    trailing slash stands for a last component [.]. *)
Definition target_parts (target : string) : list string :=
  let cs := split_slash target in
  (List.filter (fun c => negb (String.eqb c "")) cs
   ++ match cs, last cs with
      | _ :: _ :: _, Some EmptyString => ["."]
      | _, _ => []
      end)%list.

(** The walk with symbolic links followed: a relative target continues from
    the directory that holds the link, an absolute one from the root. *)
Fixpoint namei (fuel : nat) (os : OS) (cur : list string) (comps : list string) : Lookup :=
  match walk os cur comps with
  | Done l => l
  | AtLink dir target rest =>
      match fuel with
      | O => Failed ELOOP
      | S fuel' =>
          if String.eqb target "" then Failed ENOENT
          else namei fuel' os (if String.prefix "/" target then [] else dir)
                     (target_parts target ++ rest)%list
      end
  end.

(** What the path names, links followed, as [stat] and [open] look it up. *)
Definition resolve (os : OS) (p : Path) : Lookup :=
  if has_nul p then Failed EmbeddedNull
  else if (PATH_MAX <=? path_length p)%nat then Failed ENAMETOOLONG
  else namei MAXSYMLINKS os (if absolute p then [] else cwd os) (parts p).

(** The failures that [exists], [is_file] and [is_dir] turn into [False];
    they re-raise the others. *)
Definition ignored (e : Failure) : bool :=
  match e with
  | ENAMETOOLONG => false
  | _ => true
  end.

(** [p.stat()], which raises when the path names nothing. *)
Definition path_stat (os : OS) (p : Path) : Result node :=
  match resolve os p with
  | Found loc =>
      match fs_node os loc with
      | Some n => Return n
      | None => Raise OSError
      end
  | _ => Raise OSError
  end.

(** What [exists], [is_file] and [is_dir] learn from [stat]: the entry, or
    nothing when [stat] failed in a way they ignore. *)
Definition probe (os : OS) (p : Path) : Result (option node) :=
  match resolve os p with
  | Found loc => Return (fs_node os loc)
  | Absent _ _ => Return None
  | Failed e => if ignored e then Return None else Raise OSError
  end.

(** [p.exists()] *)
Definition path_exists (os : OS) (p : Path) : Result bool :=
  perform st <- probe os p ;;
  Return match st with Some _ => true | None => false end.

(** [p.is_file()] *)
Definition path_is_file (os : OS) (p : Path) : Result bool :=
  perform st <- probe os p ;;
  Return match st with Some (RegularFile _ _) => true | _ => false end.

(** [p.is_dir()] *)
Definition path_is_dir (os : OS) (p : Path) : Result bool :=
  perform st <- probe os p ;;
  Return match st with Some (Directory _) => true | _ => false end.

(** [p.stat().st_size] *)
Definition path_size (os : OS) (p : Path) : Result Z :=
  perform st <- path_stat os p ;; Return (node_size st).

(** [p.iterdir()]: one path for each entry.  Every failure of the listing
    is an exception; the one caller catches them all alike. *)
Definition iterdir (os : OS) (p : Path) : Result (list Path) :=
  match resolve os p with
  | Found loc =>
      match fs_node os loc with
      | Some (Directory children) => Return (List.map (child p) (Dict.keys children))
      | _ => Raise OSError
      end
  | _ => Raise OSError
  end.

(** [open(p, 'wb')] followed by a write of [size] bytes.  An existing
    regular file is truncated and rewritten, through whatever links lead to
    it; a missing last component of an existing directory is created; a
    directory, or a path that cannot be looked up, is an error. *)
Definition write_file (os : OS) (p : Path) (size : Z) : option OS :=
  match resolve os p with
  | Found loc =>
      match fs_node os loc with
      | Some (RegularFile ino _) =>
          Some {| root := set_size ino size (root os); cwd := cwd os |}
      | _ => None
      end
  | Absent dir name =>
      match put (root os) (dir ++ [name])%list
                (RegularFile (S (max_ino (root os))) size) with
      | Some root' => Some {| root := root'; cwd := cwd os |}
      | None => None
      end
  | Failed _ => None
  end.

(** *** Configuration and server objects *)

(** [FilesConfig] of [config.py] *)
Record FilesConfig := {
  shared_directory_cfg : string;
  max_file_size : Z;
  allowed_extensions : list string;
  scan_interval : Z
}.

(** Defaults of [ConfigManager.get_files_config]. *)
Definition default_files_config : FilesConfig :=
  {| shared_directory_cfg := "../shared_files"; max_file_size := 104857600;
     allowed_extensions := [".txt"; ".pdf"; ".jpg"]; scan_interval := 60 |}.

(** [PeerConfig] of [config.py] *)
Record PeerConfig := {
  cfg_peer_id : string;
  cfg_username : string;
  cfg_password : string
}.

(** [FileManager]: the shared directory. *)
Record FileManager := {
  shared_directory : Path
}.

(** [PServer]: the fields the two handlers read. *)
Record PServer := {
  peer_config : PeerConfig;
  files_config : FilesConfig;
  file_manager : FileManager
}.

(** [PServer.__init__]: [FileManager(self.files_config.shared_directory)] *)
Definition make_PServer (pc : PeerConfig) (fc : FilesConfig) : PServer :=
  {| peer_config := pc; files_config := fc;
     file_manager := {| shared_directory := parse_path (shared_directory_cfg fc) |} |}.

(** *** [POST /create] *)

(** The upload as the handler sees it: its name and [file.size], the number
    of bytes received for it. *)
Record UploadFile := {
  uf_filename : string;
  uf_size : Z
}.

Record CreateResponse := {
  cr_filename : string;
  cr_size : Z;
  cr_peer_id : string
}.

(** The [try] block of [create_files].  The test [file_path.exists()] only
    decides a log line, but it may raise.  The rescan and the republish
    that follow the write each swallow every exception of their own, so
    they do not change the outcome; they are left out. *)
Definition create_files_try (srv : PServer) (os : OS) (file : UploadFile)
  : Result (CreateResponse * OS) :=
  perform _ <- (if uf_size file =? 0 then Raise (HTTPException 400) else Return tt) ;;
  let max_size := 50 * 1024 * 1024 in
  perform _ <- (if uf_size file >? max_size then Raise (HTTPException 413) else Return tt) ;;
  let file_path := joinpath (shared_directory (file_manager srv)) (uf_filename file) in
  perform _ <- path_exists os file_path ;;
  perform os' <- (match write_file os file_path (uf_size file) with
          | Some os' => Return os'
          | None => Raise OSError
          end) ;;
  Return ({| cr_filename := uf_filename file; cr_size := uf_size file;
             cr_peer_id := cfg_peer_id (peer_config srv) |}, os').

(** [create_files], for a request that passed [_verify_auth]. *)
Definition create_files (srv : PServer) (os : OS) (file : UploadFile)
  : Result (CreateResponse * OS) :=
  try_except (create_files_try srv os file)
             (fun e => Raise (HTTPException 500)).

(** The file system after the request. *)
Definition os_after {A} (os : OS) (r : Result (A * OS)) : OS :=
  match r with
  | Return (_, os') => os'
  | Raise _ => os
  end.

(** *** [GET /download/{filename}] *)

(** [FileManager.get_file_path]: [exists() and is_file()], each of which may
    raise. *)
Definition get_file_path (fm : FileManager) (os : OS) (fname : string)
  : Result (option Path) :=
  let file_path := joinpath (shared_directory fm) fname in
  perform e <- path_exists os file_path ;;
  if e then
    perform f <- path_is_file os file_path ;;
    Return (if f then Some file_path else None)
  else Return None.

Record FileResponse := {
  fr_path : Path;
  fr_filename : string;
  fr_content_disposition : string;
  fr_x_peer_id : string;
  fr_x_peer_username : string;
  fr_x_file_size : Z
}.

(** [download_file], for a request that passed [_verify_auth].  Nothing
    catches an exception of the three probes: the caller then sees 500. *)
Definition download_file (srv : PServer) (os : OS) (fname : string) : Result FileResponse :=
  perform found <- get_file_path (file_manager srv) os fname ;;
  match found with
  | None => Raise (HTTPException 404)
  | Some file_path =>
      perform e <- path_exists os file_path ;;
      if negb e then Raise (HTTPException 404)
      else
        perform size <- path_size os file_path ;;
        Return {| fr_path := file_path; fr_filename := fname;
                  fr_content_disposition := "attachment; filename=" +:+ fname;
                  fr_x_peer_id := cfg_peer_id (peer_config srv);
                  fr_x_peer_username := cfg_username (peer_config srv);
                  fr_x_file_size := size |}
  end.


(** ** Statements and scenario data *)

(** A request with another password and everything else the same. *)
Definition with_password (pw : string) (req : LoginRequest) : LoginRequest :=
  {| lr_username := lr_username req; lr_password := pw; lr_peer_id := lr_peer_id req;
     lr_peer_url := lr_peer_url req; lr_port := lr_port req |}.

(** Two MD5 hex digests, as [_generate_token] returns them. *)
Definition tokA : string := "5eb63bbbe01eeed093cb22bb8f5acdc3".
Definition tokB : string := "7d793037a0760186574b0282f2f435e7".
Definition tokC : string := "0cc175b9c0f1b6a831c399e269772661".

Definition alice_h1 : LoginRequest :=
  {| lr_username := "alice"; lr_password := "secret"; lr_peer_id := "peer-001";
     lr_peer_url := "10.0.0.1"; lr_port := 8081 |}.

Definition alice_h2 : LoginRequest :=
  {| lr_username := "alice"; lr_password := "secret"; lr_peer_id := "peer-002";
     lr_peer_url := "10.0.0.2"; lr_port := 8082 |}.

Definition bob_h2 : LoginRequest :=
  {| lr_username := "bob"; lr_password := "hunter2"; lr_peer_id := "peer-002";
     lr_peer_url := "10.0.0.2"; lr_port := 8082 |}.

(** A configuration that tolerates no failed attempt. *)
Definition strict_security : SecurityConfig :=
  {| enable_auth := true; token_expiry := 3600; max_login_attempts := 0 |}.

(** The registry after alice's first login from host 10.0.0.1. *)
Definition alice_registered (cfg : SecurityConfig) : State :=
  snd (Login cfg 0 tokA alice_h1 init_state).

(** The dictionary part of [index_step]. *)
Definition store_file (d : list (string * FileMetadata)) (fm : FileMetadata)
  : list (string * FileMetadata) :=
  Dict.set d (filename fm) fm.

(** The entry a publish leaves under [name], in the words of the
    specification (last write wins): the last element of the supplied list
    that carries this file name. *)
Definition last_write_wins (fs : list FileMetadata) (name : string) : option FileMetadata :=
  List.find (fun fm => String.eqb (filename fm) name) (rev fs).

(** The result emitted for file [fname] of peer [p]. *)
Definition location_of (p : PeerData) (kv : string * FileMetadata) : FileLocation :=
  {| file_info := snd kv; peer_info := peer_info_of p;
     download_url := make_download_url p (fst kv); is_available := true |}.

(** The match condition, in the words of the specification. *)
Definition spec_match (q_name q_pat fname : string) : bool :=
  (nonempty q_name && contains q_name (lower fname))
  || (nonempty q_pat && contains q_pat (lower fname)).

(** The results of a search, in the words of the specification: for each
    online peer other than the caller, for each file that matches, one
    result. *)
Definition search_spec (q_name q_pat caller : string) (ps : list (string * PeerData))
  : list FileLocation :=
  flat_map
    (fun kv =>
       if is_online (snd kv) && negb (String.eqb (fst kv) caller)
       then List.map (location_of (snd kv))
                     (List.filter (fun f => spec_match q_name q_pat (fst f)) (files (snd kv)))
       else [])
    ps.

Definition hello_txt : FileMetadata :=
  {| filename := "hello.txt"; file_path := "hello.txt"; file_size := 7;
     file_hash := "5eb63bbbe01eeed093cb22bb8f5acdc3"; last_modified := 1700000000;
     mime_type := "text/plain"; tags := [] |}.

(** The same name published again, with other contents. *)
Definition hello_txt_v2 : FileMetadata :=
  {| filename := "hello.txt"; file_path := "hello.txt"; file_size := 12;
     file_hash := "0cc175b9c0f1b6a831c399e269772661"; last_modified := 1700000300;
     mime_type := "text/plain"; tags := [] |}.

Definition notes_md : FileMetadata :=
  {| filename := "Notes.md"; file_path := "Notes.md"; file_size := 40;
     file_hash := "92eb5ffee6ae2fec3ad71c777531578f"; last_modified := 1700000100;
     mime_type := "application/octet-stream"; tags := [] |}.

(** The registry after alice published two files and bob logged in. *)
Definition two_peers : State :=
  snd (Login default_security 2 tokB bob_h2
         (snd (Index 1 tokA [hello_txt; notes_md] (alice_registered default_security)))).

Definition bob_searches_hello : SearchRequest :=
  {| sr_token := tokB; sr_peer_id := "peer-002"; sr_filename := "HELLO";
     sr_file_pattern := "" |}.

(** *** Agreement of the indexes with the records *)

(** Every record is stored under its own token. *)
Definition keyed_by_token (s : State) : Prop :=
  forall t r, In (t, r) (peers s) -> token r = t.

(** For every stored record, [peer_index] maps its [peer_id] and
    [username_index] maps its [username] to its token. *)
Definition indexes_agree (s : State) : Prop :=
  forall t r, In (t, r) (peers s) ->
    peer_index s !! peer_id r = Some (token r) /\
    username_index s !! username r = Some (token r).

Definition consistent (s : State) : Prop := keyed_by_token s /\ indexes_agree s.

(** The request's user name is indexed to a record with the request's host:
    [Login] takes its re-login branch. *)
Definition is_relogin (s : State) (req : LoginRequest) : bool :=
  match username_index s !! lr_username req with
  | Some t =>
      nonempty t &&
      match Dict.get (peers s) t with
      | Some r => String.eqb (username r) (lr_username req)
                  && String.eqb (url r) (lr_peer_url req)
      | None => false
      end
  | None => false
  end.

(** No stored record carries the request's user name or its peer id. *)
Definition brings_new_identity (s : State) (req : LoginRequest) : bool :=
  forallb (fun kv => negb (String.eqb (username (snd kv)) (lr_username req))
                     && negb (String.eqb (peer_id (snd kv)) (lr_peer_id req)))
          (peers s).

Definition admissible_request (s : State) (r : Request) : bool :=
  match r with
  | ReqLogin _ _ req => is_relogin s req || brings_new_identity s req
  | _ => true
  end.

(** Every [Login] of the sequence is a re-login or brings a new identity, in
    the state in which it arrives. *)
Fixpoint admissible (sec : SecurityConfig) (db : DatabaseConfig) (s : State)
    (rs : list Request) : bool :=
  match rs with
  | [] => true
  | r :: rs' => admissible_request s r && admissible sec db (step sec db s r) rs'
  end.

(** A session that logs in, publishes, searches, logs out, logs in again and
    is swept. *)
Definition calm_session : list Request :=
  [ ReqLogin 0 tokA alice_h1;
    ReqIndex 1 tokA [hello_txt; notes_md];
    ReqLogin 2 tokB bob_h2;
    ReqSearch 3 bob_searches_hello;
    ReqHeartbeat 4 tokB;
    ReqLogout 5 tokA;
    ReqLogin 6 tokC alice_h1;
    ReqGetPeerInfo 7 tokA;
    ReqSweep 200 ].

(** Alice logs in from one host and then from another. *)
Definition two_hosts_session : list Request :=
  [ ReqLogin 0 tokA alice_h1; ReqLogin 1 tokB alice_h2 ].

(** *** The peer's side *)

(** The name contains the path separator. *)
Fixpoint has_slash (s : string) : bool :=
  match s with
  | EmptyString => false
  | String c s' => Ascii.eqb c "/" || has_slash s'
  end.

Definition demo_server : PServer :=
  make_PServer {| cfg_peer_id := "peer-001"; cfg_username := "alice";
                  cfg_password := "secret" |}
               default_files_config.

(** [/srv/peer] is the working directory, [/srv/shared_files] the shared
    directory with one file, and [/srv/secret.txt] lies beside it. *)
Definition demo_os : OS :=
  {| root :=
       Directory
         [("srv",
           Directory
             [("peer", Directory []);
              ("shared_files", Directory [("hello.txt", RegularFile 1 7)]);
              ("secret.txt", RegularFile 2 99)])];
     cwd := ["srv"; "peer"] |}.

(** The same, with two more entries in the shared directory: a symbolic link
    [link.txt -> ../secret.txt], and [copy.txt], a hard link of
    [hello.txt]. *)
Definition linked_os : OS :=
  {| root :=
       Directory
         [("srv",
           Directory
             [("peer", Directory []);
              ("shared_files",
               Directory [("hello.txt", RegularFile 1 7);
                          ("link.txt", SymbolicLink "../secret.txt");
                          ("copy.txt", RegularFile 1 7)]);
              ("secret.txt", RegularFile 2 99)])];
     cwd := ["srv"; "peer"] |}.

(** A file name of [n] bytes. *)
Fixpoint long_name (n : nat) : string :=
  match n with
  | O => EmptyString
  | S n' => String "a" (long_name n')
  end.

(** The same server with another configured [max_file_size]. *)
Definition with_max_file_size (n : Z) (srv : PServer) : PServer :=
  {| peer_config := peer_config srv;
     files_config :=
       {| shared_directory_cfg := shared_directory_cfg (files_config srv);
          max_file_size := n;
          allowed_extensions := allowed_extensions (files_config srv);
          scan_interval := scan_interval (files_config srv) |};
     file_manager := file_manager srv |}.

Definition upload (name : string) (size : Z) : UploadFile :=
  {| uf_filename := name; uf_size := size |}.

(** ** Further parts of the directory *)

(** [get_stats], without its [uptime] entry (a difference of two readings of
    the float clock). *)
Record Stats := {
  total_peers : Z;
  active_peers : Z;
  total_files : Z
}.

Definition get_stats (s : State) : Stats :=
  {| total_peers := Z.of_nat (length (peers s));
     active_peers :=
       fold_left (fun n p => if is_online p then n + 1 else n) (Dict.values (peers s)) 0;
     total_files :=
       fold_left (fun n p => n + Z.of_nat (length (files p))) (Dict.values (peers s)) 0 |}.

(** The record is older than the cut-off of a sweep at time [now]. *)
Definition stale (db : DatabaseConfig) (now : Z) (p : PeerData) : bool :=
  last_seen p <? now - peer_timeout db.

(** The token a request authenticates with, if it is one of the five
    operations that validate a token. *)
Definition request_token (r : Request) : option string :=
  match r with
  | ReqLogout _ tok | ReqIndex _ tok _ | ReqGetPeerInfo _ tok | ReqHeartbeat _ tok => Some tok
  | ReqSearch _ req => Some (sr_token req)
  | ReqLogin _ _ _ | ReqSweep _ => None
  end.

Definition is_sweep (r : Request) : bool :=
  match r with ReqSweep _ => true | _ => false end.

(** A search for a file name alone. *)
Definition search_by_name (tok name : string) : SearchRequest :=
  {| sr_token := tok; sr_peer_id := ""; sr_filename := name; sr_file_pattern := "" |}.

(** A run of [Login] attempts, each with its time and minted token. *)
Fixpoint login_run (cfg : SecurityConfig) (s : State)
    (attempts : list (Z * string * LoginRequest)) : list LoginResponse * State :=
  match attempts with
  | [] => ([], s)
  | (now, minted, req) :: rest =>
      let '(resp, s1) := Login cfg now minted req s in
      let '(resps, s2) := login_run cfg s1 rest in
      (resp :: resps, s2)
  end.

(** From [s] to [s'] nothing changed but, at most, the record stored under
    [tok]: the same tokens in the same order, the same records under every
    other token, the same indexes and token counter. *)
Definition touches_only (tok : string) (s s' : State) : Prop :=
  Dict.keys (peers s') = Dict.keys (peers s) /\
  (forall t, t <> tok -> Dict.get (peers s') t = Dict.get (peers s) t) /\
  peer_index s' = peer_index s /\
  username_index s' = username_index s /\
  token_counter s' = token_counter s.

(** Bob sends a heartbeat at time 100; alice has been silent since time 1. *)
Definition bob_alive : State := snd (Heartbeat 100 tokB two_peers).

(** ** Further parts of the peer's HTTP service *)

(** *** [AuthManager] and the bearer header *)

Record AuthManager := {
  am_peer_config : PeerConfig;
  logged_in : bool;
  session_token : option string;
  login_time : option Z
}.

(** [AuthManager.__init__] *)
Definition new_AuthManager (pc : PeerConfig) : AuthManager :=
  {| am_peer_config := pc; logged_in := false; session_token := None; login_time := None |}.

Inductive AuthMessage := Auth_login_exitoso | Credenciales_invalidas.

(** [authenticate]; [uuid] is the value of [str(uuid.uuid4())] and [now] the
    clock.  The result is the returned triple and the manager afterwards. *)
Definition authenticate (am : AuthManager) (uuid : string) (now : Z)
    (peer_id_ username_ password_ : string)
  : (bool * AuthMessage * option string) * AuthManager :=
  if String.eqb peer_id_ (cfg_peer_id (am_peer_config am))
     && String.eqb username_ (cfg_username (am_peer_config am))
     && String.eqb password_ (cfg_password (am_peer_config am))
  then ((true, Auth_login_exitoso, Some uuid),
        {| am_peer_config := am_peer_config am; logged_in := true;
           session_token := Some uuid; login_time := Some now |})
  else ((false, Credenciales_invalidas, None), am).

(** [verify_token]: [self.logged_in and self.session_token == token] *)
Definition verify_token (am : AuthManager) (tok : string) : bool :=
  logged_in am &&
  match session_token am with
  | Some t => String.eqb t tok
  | None => false
  end.

(** [AuthManager.logout] *)
Definition auth_logout (am : AuthManager) : AuthManager :=
  {| am_peer_config := am_peer_config am; logged_in := false;
     session_token := None; login_time := None |}.

(** [s.replace(old, new)] for a non-empty [old]: occurrences are replaced
    from left to right and do not overlap.  [skip] counts the characters of
    the occurrence just found that are still to be passed over. *)
Fixpoint replace_skip (old new : string) (skip : nat) (s : string) : string :=
  match s with
  | EmptyString => EmptyString
  | String c s' =>
      match skip with
      | S k => replace_skip old new k s'
      | O =>
          if String.prefix old s
          then new +:+ replace_skip old new (String.length old - 1) s'
          else String c (replace_skip old new 0 s')
      end
  end.

Definition str_replace (old new s : string) : string := replace_skip old new 0 s.

(** [_verify_auth]; [authorization] is the header, [None] when absent. *)
Definition _verify_auth (am : AuthManager) (authorization : option string) : Result bool :=
  match authorization with
  | None => Raise (HTTPException 401)
  | Some a =>
      if negb (nonempty a) then Raise (HTTPException 401)
      else if negb (String.prefix "Bearer " a) then Raise (HTTPException 401)
      else
        let tok := str_replace "Bearer " "" a in
        if negb (verify_token am tok) then Raise (HTTPException 401)
        else Return true
  end.

(** A manager for alice's peer, and a session token as [uuid4] prints one. *)
Definition demo_auth : AuthManager := new_AuthManager (peer_config demo_server).
Definition demo_uuid : string := "3f2b8c1e-5d4a-4e6f-9b7a-0c1d2e3f4a5b".
Definition demo_uuid2 : string := "9a8b7c6d-1e2f-4a3b-8c4d-5e6f7a8b9c0d".

(** *** Scanning the shared directory *)

(** The attributes of a file that the tree does not hold: the MD5 hex digest
    of its content and [int(stat.st_mtime)], by inode number, and what
    [mimetypes.guess_type] answers for a path. *)
Record Attributes := {
  md5_of : nat -> string;
  mtime_of : nat -> Z;
  guess_type : Path -> option string
}.

(** [_get_file_metadata]: it raises when [stat] does; a failure to read the
    content is caught inside. *)
Definition _get_file_metadata (attrs : Attributes) (os : OS) (fp : Path)
  : Result FileMetadata :=
  perform st <- path_stat os fp ;;
  let mime :=
    match guess_type attrs fp with
    | Some m => if nonempty m then m else "application/octet-stream"
    | None => "application/octet-stream"
    end in
  Return {| filename := path_name fp; file_path := path_name fp;
            file_size := node_size st;
            file_hash := md5_of attrs (node_ino st);
            last_modified := mtime_of attrs (node_ino st);
            mime_type := mime; tags := [] |}.

(** The loop of [scan_files], on the pair ([files_index], [files_list]).  An
    exception leaves the loop: it is caught and logged by [scan_files], and
    what was collected so far stays. *)
Fixpoint scan_loop (attrs : Attributes) (os : OS) (paths : list Path)
    (acc : list (string * FileMetadata) * list FileMetadata)
  : list (string * FileMetadata) * list FileMetadata :=
  match paths with
  | [] => acc
  | fp :: rest =>
      match path_is_file os fp with
      | Raise _ => acc
      | Return false => scan_loop attrs os rest acc
      | Return true =>
          match _get_file_metadata attrs os fp with
          | Raise _ => acc
          | Return file_info =>
              scan_loop attrs os rest
                (Dict.set (fst acc) (filename file_info) file_info,
                 (snd acc ++ [file_info])%list)
          end
      end
  end.

(** [FileManager.scan_files]: the new [files_index] and the returned list.
    When the shared directory cannot be listed, [iterdir] raises, the
    exception is logged and both are empty. *)
Definition scan_files (attrs : Attributes) (fm : FileManager) (os : OS)
  : list (string * FileMetadata) * list FileMetadata :=
  match iterdir os (shared_directory fm) with
  | Return paths => scan_loop attrs os paths ([], [])
  | Raise _ => ([], [])
  end.

(** Attributes for the examples: a fixed digest and time, no known type. *)
Definition demo_attrs : Attributes :=
  {| md5_of := fun _ => "d41d8cd98f00b204e9800998ecf8427e";
     mtime_of := fun _ => 1700000000;
     guess_type := fun _ => None |}.

(** A name as a directory listing can hold it. *)
Definition valid_name (s : string) : bool :=
  negb (String.eqb s "") && negb (String.eqb s ".") && negb (String.eqb s "..")
  && negb (has_ascii "/"%char s) && negb (has_ascii Ascii.zero s)
  && (String.length s <=? NAME_MAX)%nat.

Definition is_link (n : node) : bool :=
  match n with SymbolicLink _ => true | _ => false end.

(** The metadata recorded for the regular file [name], with inode number
    [ino] and [size] bytes, of the directory [dir]. *)
Definition metadata_of (attrs : Attributes) (dir : Path) (name : string)
    (ino : nat) (size : Z) : FileMetadata :=
  {| filename := name; file_path := name; file_size := size;
     file_hash := md5_of attrs ino; last_modified := mtime_of attrs ino;
     mime_type :=
       match guess_type attrs (child dir name) with
       | Some m => if nonempty m then m else "application/octet-stream"
       | None => "application/octet-stream"
       end;
     tags := [] |}.

(** The metadata of the entries of a directory that are regular files, in
    the order of the listing. *)
Definition regular_metadata (attrs : Attributes) (dir : Path)
    (children : list (string * node)) : list FileMetadata :=
  flat_map
    (fun entry =>
       match snd entry with
       | RegularFile ino size => [metadata_of attrs dir (fst entry) ino size]
       | _ => []
       end)
    children.

(** The entries of the directory [p] are as a listing can hold them, none
    of them is a symbolic link, and the path of each fits [PATH_MAX]. *)
Definition plain_directory (p : Path) (children : list (string * node)) : Prop :=
  List.NoDup (Dict.keys children) /\
  forallb valid_name (Dict.keys children) = true /\
  forallb (fun kv => negb (is_link (snd kv))) children = true /\
  (path_length p + NAME_MAX + 1 < PATH_MAX)%nat.

(** *** What a write changes *)

(** What a location holds: nothing, a regular file with its inode number
    and size, a directory, or a symbolic link with its target. *)
Inductive Kind :=
| KNone
| KFile (ino : nat) (size : Z)
| KDir
| KLink (target : string).

Definition kind (o : option node) : Kind :=
  match o with
  | None => KNone
  | Some (RegularFile i sz) => KFile i sz
  | Some (Directory _) => KDir
  | Some (SymbolicLink t) => KLink t
  end.

(** The same, as far as a lookup can tell: it does not read inode numbers
    or sizes. *)
Definition shape (k : Kind) : Kind :=
  match k with
  | KFile _ _ => KFile 0 0
  | _ => k
  end.

(** The location a path leads to, or the one [open] would create. *)
Definition target_of (os : OS) (p : Path) : option (list string) :=
  match resolve os p with
  | Found loc => Some loc
  | Absent dir name => Some (dir ++ [name])%list
  | Failed _ => None
  end.

(** The two paths name one file: they lead to the same location, or to
    regular files with the same inode number (hard links of one file,
    reached directly or through symbolic links). *)
Definition same_file (os : OS) (p q : Path) : bool :=
  match target_of os p, target_of os q with
  | Some l1, Some l2 =>
      bool_decide (l1 = l2)
      || match fs_node os l1, fs_node os l2 with
         | Some (RegularFile i _), Some (RegularFile j _) => Nat.eqb i j
         | _, _ => false
         end
  | _, _ => false
  end.

(** What [download_file] reads of a probe: that it raised, the size of the
    regular file found, or that there is none. *)
Definition served (r : Result (option node)) : Result (option Z) :=
  match r with
  | Raise e => Raise e
  | Return (Some (RegularFile _ size)) => Return (Some size)
  | Return _ => Return None
  end.

(** How the outcome [l] of a lookup changes into [l'] when a regular file
    is created at location [L], which held nothing: a found entry is found
    as before; the missing entry [L] itself is now found; a lookup that
    failed for a missing directory may now fail because [L] is no
    directory. *)
Definition after_create (L : list string) (l l' : Lookup) : Prop :=
  match l with
  | Found loc => l' = Found loc
  | Absent d n =>
      ((d ++ [n])%list = L -> l' = Found L) /\ ((d ++ [n])%list <> L -> l' = Absent d n)
  | Failed ENOENT => l' = Failed ENOENT \/ l' = Failed ENOTDIR
  | Failed e => l' = Failed e
  end.

(** ** The peer's client ([pclient.py]) *)

(** [@dataclass PeerInfo] of the client: a directory [PeerInfo] without its
    [last_seen]. *)
Record KnownPeer := {
  kp_peer_id : string;
  kp_username : string;
  kp_url : string;
  kp_port : Z;
  kp_is_online : bool;
  kp_file_count : Z
}.

Definition known_peer_of (pi : PeerInfo) : KnownPeer :=
  {| kp_peer_id := pi_peer_id pi; kp_username := pi_username pi; kp_url := pi_url pi;
     kp_port := pi_port pi; kp_is_online := pi_is_online pi;
     kp_file_count := pi_file_count pi |}.

(** [@dataclass FileLocation] of the client *)
Record ClientFileLocation := {
  cfl_filename : string;
  cfl_file_size : Z;
  cfl_file_hash : string;
  cfl_peer_info : KnownPeer;
  cfl_download_url : string
}.

(** [PClient]: its configuration ([network_config.host] and [rest_port] are
    what it announces to the directory) and its state. *)
Record PClient := {
  pc_peer_config : PeerConfig;
  pc_host : string;
  pc_rest_port : Z;
  pc_token : option string;
  is_connected : bool;
  known_peers : list (string * KnownPeer)
}.

(** [PClient.__init__] *)
Definition new_PClient (pc : PeerConfig) (host : string) (rest_port : Z) : PClient :=
  {| pc_peer_config := pc; pc_host := host; pc_rest_port := rest_port;
     pc_token := None; is_connected := false; known_peers := [] |}.

Definition with_session (tok : option string) (conn : bool)
    (kp : list (string * KnownPeer)) (c : PClient) : PClient :=
  {| pc_peer_config := pc_peer_config c; pc_host := pc_host c;
     pc_rest_port := pc_rest_port c; pc_token := tok; is_connected := conn;
     known_peers := kp |}.

(** The directory as the client reaches it: the security configuration and
    the registry on the far side, and, for one call, whether the channel
    delivered it ([link], false when the stub raises), the directory's clock
    and the token it would mint. *)
Record Call := {
  link : bool;
  clock : Z;
  mint : string
}.

(** The request [PClient.login] builds. *)
Definition client_login_request (c : PClient) : LoginRequest :=
  {| lr_username := cfg_username (pc_peer_config c);
     lr_password := cfg_password (pc_peer_config c);
     lr_peer_id := cfg_peer_id (pc_peer_config c);
     lr_peer_url := pc_host c;
     lr_port := pc_rest_port c |}.

(** [for peer_proto in ...: self.known_peers[peer_info.peer_id] = peer_info] *)
Definition cache_peers (kp : list (string * KnownPeer)) (ps : list PeerInfo)
  : list (string * KnownPeer) :=
  fold_left (fun kp pi => Dict.set kp (pi_peer_id pi) (known_peer_of pi)) ps kp.

(** [PClient.login] *)
Definition client_login (sec : SecurityConfig) (k : Call) (c : PClient) (dir : State)
  : bool * PClient * State :=
  if link k then
    let '(resp, dir') := Login sec (clock k) (mint k) (client_login_request c) dir in
    if lresp_success resp then
      (true,
       with_session (Some (lresp_token resp)) (is_connected c)
                    (cache_peers (known_peers c) (lresp_connected_peers resp)) c,
       dir')
    else (false, c, dir')
  else (false, c, dir).

(** [PClient.connect_to_server] *)
Definition connect_to_server (sec : SecurityConfig) (k : Call) (c : PClient) (dir : State)
  : bool * PClient * State :=
  let '(success, c', dir') := client_login sec k c dir in
  if success then (true, with_session (pc_token c') true (known_peers c') c', dir')
  else (false, c', dir').

(** [PClient.logout] *)
Definition client_logout (k : Call) (c : PClient) (dir : State) : bool * PClient * State :=
  if negb (truthy (pc_token c)) then (true, c, dir)
  else if link k then
    let '(resp, dir') := Logout (clock k) (default "" (pc_token c)) dir in
    if loresp_success resp then (true, with_session None false (known_peers c) c, dir')
    else (false, c, dir')
  else (false, c, dir).

(** [PClient.disconnect] *)
Definition disconnect (k : Call) (c : PClient) (dir : State) : PClient * State :=
  let '(c1, dir1) :=
    if is_connected c then
      let '(_, c1, dir1) := client_logout k c dir in (c1, dir1)
    else (c, dir) in
  (with_session (pc_token c1) (is_connected c1) [] c1, dir1).

(** [PClient.index_files] *)
Definition client_index_files (k : Call) (files_metadata : list FileMetadata)
    (c : PClient) (dir : State) : bool * State :=
  if negb (truthy (pc_token c)) then (false, dir)
  else if link k then
    let '(resp, dir') := Index (clock k) (default "" (pc_token c)) files_metadata dir in
    (iresp_success resp, dir')
  else (false, dir).

(** The client's view of one search result. *)
Definition client_location (r : FileLocation) : ClientFileLocation :=
  {| cfl_filename := filename (file_info r); cfl_file_size := file_size (file_info r);
     cfl_file_hash := file_hash (file_info r);
     cfl_peer_info := known_peer_of (peer_info r);
     cfl_download_url := download_url r |}.

(** [PClient.search_files] *)
Definition client_search_files (k : Call) (name pattern : string) (c : PClient) (dir : State)
  : list ClientFileLocation * State :=
  if negb (truthy (pc_token c)) then ([], dir)
  else if link k then
    let req := {| sr_token := default "" (pc_token c);
                  sr_peer_id := cfg_peer_id (pc_peer_config c);
                  sr_filename := name; sr_file_pattern := pattern |} in
    let '(resp, dir') := Search (clock k) req dir in
    if sresp_success resp then (List.map client_location (sresp_results resp), dir')
    else ([], dir')
  else ([], dir).

(** [PClient.get_peer_info]: the peers listed, and the client with its cache
    updated. *)
Definition client_get_peer_info (k : Call) (c : PClient) (dir : State)
  : list KnownPeer * PClient * State :=
  if negb (truthy (pc_token c)) then ([], c, dir)
  else if link k then
    let '(resp, dir') := GetPeerInfo (clock k) (default "" (pc_token c)) dir in
    if presp_success resp then
      (List.map known_peer_of (presp_peers resp),
       with_session (pc_token c) (is_connected c)
                    (cache_peers (known_peers c) (presp_peers resp)) c,
       dir')
    else ([], c, dir')
  else ([], c, dir).

(** [PClient.send_heartbeat] *)
Definition send_heartbeat (k : Call) (c : PClient) (dir : State) : bool * State :=
  if negb (truthy (pc_token c)) then (false, dir)
  else if link k then
    let '(resp, dir') := Heartbeat (clock k) (default "" (pc_token c)) dir in
    (hresp_success resp, dir')
  else (false, dir).

(** The end of a call of [P2PPeer.manual_login]: a returned flag, or the
    [AttributeError] of [self.heartbeat_task.done()]. *)
Inductive LoginOutcome := Returns (success : bool) | RaisesAttributeError.

(** [P2PPeer.manual_login] of [peer.py], on the client and the directory.
    [self.heartbeat_task] is [None] from [__init__] on and is assigned only
    behind the test [not hasattr(self, 'heartbeat_task') or
    self.heartbeat_task.done()]; the attribute exists, so the test calls
    [done] on [None] and raises.  The heartbeat task is therefore never
    created, and nothing in [manual_login] catches the exception. *)
Definition manual_login (sec : SecurityConfig) (k : Call) (c : PClient) (dir : State)
  : LoginOutcome * PClient * State :=
  if is_connected c then (Returns true, c, dir)
  else
    let '(connected, c', dir') := connect_to_server sec k c dir in
    if connected then (RaisesAttributeError, c', dir')
    else (Returns false, c', dir').

(** [P2PPeer.manual_logout] *)
Definition manual_logout (k : Call) (c : PClient) (dir : State) : PClient * State :=
  if negb (is_connected c) then (c, dir)
  else disconnect k c dir.

(** [P2PPeer.list_network_files]: the listed peers other than this one. *)
Definition list_network_files (k : Call) (c : PClient) (dir : State)
  : list KnownPeer * PClient * State :=
  let '(listed, c', dir') := client_get_peer_info k c dir in
  (List.filter (fun p => negb (String.eqb (kp_peer_id p) (cfg_peer_id (pc_peer_config c))))
               listed,
   c', dir').

(** Alice's client, announcing host 10.0.0.1 and port 8081, and a call that
    is delivered at time [t]. *)
Definition alice_client : PClient :=
  new_PClient (peer_config demo_server) "10.0.0.1" 8081.

Definition delivered (t : Z) (tok : string) : Call :=
  {| link := true; clock := t; mint := tok |}.

(** ** The handlers of the peer's HTTP service that reach the directory *)

(** The state of a running [PServer]: its configuration (with the host and
    port of [network_config] that its client announces), the session
    manager, [file_manager.files_index], and the persistent client. *)
Record PeerNode := {
  pn_server : PServer;
  pn_host : string;
  pn_rest_port : Z;
  auth_manager : AuthManager;
  files_index : list (string * FileMetadata);
  pclient : option PClient
}.

Definition new_PeerNode (srv : PServer) (host : string) (rest_port : Z) : PeerNode :=
  {| pn_server := srv; pn_host := host; pn_rest_port := rest_port;
     auth_manager := new_AuthManager (peer_config srv);
     files_index := []; pclient := None |}.

(** The three values of [index_message]. *)
Inductive IndexNote :=
| archivos_indexados (n : nat)
| sin_archivos_para_indexar
| sin_conexion_a_servidor.

(** The body of the answer of [POST /login]. *)
Record LoginReply := {
  lrep_success : bool;
  lrep_note : IndexNote;
  lrep_token : option string;
  lrep_login_time : option Z;
  lrep_files_available : nat
}.

(** [POST /login].  [uuid] and [now] are what [authenticate] draws; [k_login]
    and [k_index] are the two calls the new client may make.  The import
    and the construction of the client are taken to succeed, so that the
    [except] around them is not entered ([connect_to_server] and
    [index_files] catch their own exceptions). *)
Definition login_handler (attrs : Attributes) (sec : SecurityConfig)
    (k_login k_index : Call) (uuid : string) (now : Z)
    (peer_id_ username_ password_ : string)
    (n : PeerNode) (os : OS) (dir : State)
  : Result LoginReply * PeerNode * State :=
  let '((success, _, tok), am) :=
    authenticate (auth_manager n) uuid now peer_id_ username_ password_ in
  if success then
    let index := fst (scan_files attrs (file_manager (pn_server n)) os) in
    let c0 := new_PClient (peer_config (pn_server n)) (pn_host n) (pn_rest_port n) in
    let '(connected, c1, dir1) := connect_to_server sec k_login c0 dir in
    let '(note, client, dir2) :=
      if connected then
        let files := Dict.values index in
        match files with
        | [] => (sin_archivos_para_indexar, Some c1, dir1)
        | _ :: _ =>
            (archivos_indexados (length files), Some c1,
             snd (client_index_files k_index files c1 dir1))
        end
      else (sin_conexion_a_servidor, None, dir1) in
    (Return {| lrep_success := true; lrep_note := note; lrep_token := tok;
               lrep_login_time := login_time am;
               lrep_files_available := length index |},
     {| pn_server := pn_server n; pn_host := pn_host n; pn_rest_port := pn_rest_port n;
        auth_manager := am; files_index := index; pclient := client |},
     dir2)
  else (Raise (HTTPException 401), n, dir).

(** One entry of the answer of [POST /search]. *)
Record SearchHit := {
  hit_filename : string;
  hit_file_size : Z;
  hit_file_hash : string;
  hit_peer_id : string;
  hit_username : string;
  hit_url : string;
  hit_port : Z;
  hit_download_url : string
}.

(** The loop body of [search_files]: the download address is rebuilt from
    the peer's [peer_id] and port. *)
Definition search_hit (r : ClientFileLocation) : SearchHit :=
  {| hit_filename := cfl_filename r; hit_file_size := cfl_file_size r;
     hit_file_hash := cfl_file_hash r;
     hit_peer_id := kp_peer_id (cfl_peer_info r);
     hit_username := kp_username (cfl_peer_info r);
     hit_url := kp_url (cfl_peer_info r);
     hit_port := kp_port (cfl_peer_info r);
     hit_download_url :=
       "http://" +:+ kp_peer_id (cfl_peer_info r) +:+ ":"
       +:+ str_of_Z (kp_port (cfl_peer_info r)) +:+ "/download/" +:+ cfl_filename r |}.

Record SearchReply := {
  srep_success : bool;
  srep_query : string;
  srep_results_count : nat;
  srep_results : list SearchHit;
  srep_peer_id : string
}.

(** [POST /search], after its dependency [_verify_auth].  The 503 is raised
    inside the [try] and leaves it as a 500. *)
Definition search_handler (k : Call) (authorization : option string) (query : string)
    (n : PeerNode) (dir : State) : Result SearchReply * State :=
  match _verify_auth (auth_manager n) authorization with
  | Raise e => (Raise e, dir)
  | Return _ =>
      let '(body, dir') :=
        match pclient n with
        | None => (Raise (HTTPException 503), dir)
        | Some c =>
            let '(results, dir') := client_search_files k query "" c dir in
            let search_results := List.map search_hit results in
            (Return {| srep_success := true; srep_query := query;
                       srep_results_count := length search_results;
                       srep_results := search_results;
                       srep_peer_id := cfg_peer_id (peer_config (pn_server n)) |}, dir')
        end in
      (try_except body (fun _ => Raise (HTTPException 500)), dir')
  end.

(** [POST /logout], after [_verify_auth]: the client is disconnected and
    dropped, the session closed. *)
Definition logout_handler (k : Call) (authorization : option string)
    (n : PeerNode) (dir : State) : Result bool * PeerNode * State :=
  match _verify_auth (auth_manager n) authorization with
  | Raise e => (Raise e, n, dir)
  | Return _ =>
      let dir' :=
        match pclient n with
        | Some c => snd (disconnect k c dir)
        | None => dir
        end in
      (Return true,
       {| pn_server := pn_server n; pn_host := pn_host n; pn_rest_port := pn_rest_port n;
          auth_manager := auth_logout (auth_manager n);
          files_index := files_index n; pclient := None |},
       dir')
  end.

(** Alice's node before any login. *)
Definition alice_node : PeerNode := new_PeerNode demo_server "10.0.0.1" 8081.

(** ** Requests between a logout and a later call *)

(** A request that can bring the record [rec], stored under [tok], back
    online: a [Login] that mints [tok] again, or one that carries the
    record's user name and host. *)
Definition revives (tok : string) (rec : PeerData) (r : Request) : bool :=
  match r with
  | ReqLogin _ minted req =>
      String.eqb minted tok
      || (String.eqb (lr_username req) (username rec)
          && String.eqb (lr_peer_url req) (url rec))
  | _ => false
  end.

(** The sweep run at each of the times [ts], in order. *)
Definition sweeps (db : DatabaseConfig) (ts : list Z) (s : State) : State :=
  fold_left (fun st t => _cleanup_inactive_peers db t st) ts s.

(** The record under [tok], if there is one, is offline and carries user
    name [u] and host [h]. *)
Definition retired (tok u h : string) (s : State) : Prop :=
  match Dict.get (peers s) tok with
  | Some r => is_online r = false /\ username r = u /\ url r = h
  | None => True
  end.

(** Alice, registered from host 10.0.0.1 at time 0, logs in from host
    10.0.0.2 at time 100; the sweep runs at time 130; she logs out at time
    140. *)
Definition second_host_login : LoginResponse * State :=
  Login default_security 100 tokB alice_h2 (alice_registered default_security).

Definition second_host_logged_out : State :=
  snd (Logout 140 (lresp_token (fst second_host_login))
              (sweeps default_database [130] (snd second_host_login))).

(** ** Facts about dictionaries *)

Module DictFacts.
Import Dict.
Section Facts.
Context {V : Type}.
Implicit Types (d : list (string * V)) (k : string) (v : V).

Lemma get_set_eq d k v : get (set d k v) k = Some v.
Proof.
  induction d as [|[k' v'] d IH]; simpl.
  - now rewrite String.eqb_refl.
  - destruct (String.eqb k' k) eqn:E; simpl.
    + now rewrite String.eqb_refl.
    + now rewrite E.
Qed.

Lemma get_set_ne d k k' v : k <> k' -> get (set d k v) k' = get d k'.
Proof.
  intros Hne. induction d as [|[k0 v0] d IH]; simpl.
  - destruct (String.eqb_spec k k'); [contradiction | reflexivity].
  - destruct (String.eqb_spec k0 k) as [->|Hk]; simpl.
    + destruct (String.eqb_spec k k'); [contradiction | reflexivity].
    + destruct (String.eqb_spec k0 k'); [reflexivity | exact IH].
Qed.

Lemma get_set d k k' v :
  get (set d k v) k' = if String.eqb k k' then Some v else get d k'.
Proof.
  destruct (String.eqb_spec k k') as [->|Hne].
  - apply get_set_eq.
  - now apply get_set_ne.
Qed.

Lemma get_del_eq d k : get (del d k) k = None.
Proof.
  induction d as [|[k0 v0] d IH]; simpl; [reflexivity|].
  destruct (String.eqb_spec k0 k) as [->|Hk]; simpl; [exact IH|].
  destruct (String.eqb_spec k0 k); [contradiction | exact IH].
Qed.

Lemma get_del_ne d k k' : k <> k' -> get (del d k) k' = get d k'.
Proof.
  intros Hne. induction d as [|[k0 v0] d IH]; simpl; [reflexivity|].
  destruct (String.eqb_spec k0 k) as [->|Hk]; simpl.
  - destruct (String.eqb_spec k k'); [contradiction | exact IH].
  - destruct (String.eqb_spec k0 k'); [reflexivity | exact IH].
Qed.

Lemma get_del_Some d k k' v : get (del d k) k' = Some v -> k <> k' /\ get d k' = Some v.
Proof.
  intros H. destruct (String.eqb_spec k k') as [->|Hne].
  - rewrite get_del_eq in H. discriminate.
  - split; [exact Hne|]. now rewrite get_del_ne in H.
Qed.

(** Replacing the value of a present key keeps the keys and their order. *)
Lemma keys_set_present d k v v0 : get d k = Some v0 -> keys (set d k v) = keys d.
Proof.
  induction d as [|[k' v'] d IH]; simpl; [discriminate|].
  destruct (String.eqb_spec k' k) as [->|Hk]; simpl; intros H.
  - reflexivity.
  - f_equal. now apply IH.
Qed.

Lemma keys_set_absent d k v : get d k = None -> keys (set d k v) = (keys d ++ [k])%list.
Proof.
  induction d as [|[k' v'] d IH]; simpl; [reflexivity|].
  destruct (String.eqb_spec k' k) as [->|Hk]; simpl; intros H.
  - discriminate.
  - f_equal. now apply IH.
Qed.

Lemma get_None_keys d k : get d k = None <-> ~ In k (keys d).
Proof.
  induction d as [|[k' v'] d IH]; simpl.
  - tauto.
  - destruct (String.eqb_spec k' k) as [->|Hk].
    + split; [discriminate | intros H; exfalso; apply H; now left].
    + rewrite IH. tauto.
Qed.

Lemma get_Some_In d k v : get d k = Some v -> In (k, v) d.
Proof.
  induction d as [|[k' v'] d IH]; simpl; [discriminate|].
  destruct (String.eqb_spec k' k) as [->|Hk].
  - intros [= ->]. now left.
  - intros H. right. now apply IH.
Qed.

Lemma NoDup_keys_set d k v : List.NoDup (keys d) -> List.NoDup (keys (set d k v)).
Proof.
  intros Hnd. destruct (get d k) as [v0|] eqn:E.
  - now rewrite (keys_set_present _ _ _ _ E).
  - rewrite (keys_set_absent _ _ _ E). apply List.NoDup_app; [exact Hnd | |].
    + apply List.NoDup_cons; [intros [] | constructor].
    + intros a Ha [<-|[]]. now apply get_None_keys in E.
Qed.

Lemma set_set d k v v' : set (set d k v) k v' = set d k v'.
Proof.
  induction d as [|[k0 v0] d IH]; simpl.
  - now rewrite String.eqb_refl.
  - destruct (String.eqb k0 k) eqn:E; simpl.
    + now rewrite String.eqb_refl.
    + rewrite E. now f_equal.
Qed.

Lemma In_set d k v k' v' : In (k', v') (set d k v) -> (k', v') = (k, v) \/ In (k', v') d.
Proof.
  induction d as [|[k0 v0] d IH]; simpl.
  - intros [H|[]]. now left.
  - destruct (String.eqb k0 k); simpl; intros [H|H]; auto.
    destruct (IH H); auto.
Qed.

Lemma In_del d k k' v' : In (k', v') (del d k) -> In (k', v') d /\ k' <> k.
Proof.
  unfold del. rewrite filter_In. simpl. intros [Hin Hk]. split; [exact Hin|].
  destruct (String.eqb_spec k' k); [discriminate | assumption].
Qed.
End Facts.
End DictFacts.

(** ** Properties of [Login] *)

Section LoginFacts.
Variables (cfg : SecurityConfig) (now : Z) (minted : string).

Lemma truthy_Some t : t <> "" -> truthy (Some t) = true.
Proof. intros H. simpl. now destruct (String.eqb_spec t ""). Qed.

Lemma truthy_inv o : truthy o = true -> exists t, o = Some t /\ t <> "".
Proof.
  destruct o as [t|]; simpl; [|discriminate].
  destruct (String.eqb_spec t ""); [discriminate|]. intros _. now exists t.
Qed.

(** The re-login branch, as an equation. *)
Lemma Login_relogin req s t r :
  username_index s !! lr_username req = Some t ->
  t <> "" ->
  Dict.get (peers s) t = Some r ->
  username r = lr_username req ->
  url r = lr_peer_url req ->
  Login cfg now minted req s =
    let r' := set_port (lr_port req) (set_last_seen now (set_is_online true r)) in
    let s' := with_peers (Dict.set (peers s) t r') s in
    ({| lresp_success := true; lresp_token := t; lresp_message := Reconexion_exitosa;
        lresp_connected_peers := connected_peers_loop (peers s') t |}, s').
Proof.
  intros Hidx Ht Hget Hu Hh. unfold Login. rewrite Hidx.
  rewrite (truthy_Some _ Ht). simpl default. rewrite Hget, Hu, Hh.
  now rewrite !String.eqb_refl.
Qed.

(** The branch taken when the user name is indexed to a record of another
    host, as an equation. *)
Lemma Login_other_host req s t r :
  username_index s !! lr_username req = Some t ->
  t <> "" ->
  Dict.get (peers s) t = Some r ->
  url r <> lr_peer_url req ->
  Login cfg now minted req s =
    let r' := set_login_attempts (login_attempts r + 1) r in
    let s1 := with_peers (Dict.set (peers s) t r') s in
    if login_attempts r + 1 >? max_login_attempts cfg then
      ({| lresp_success := false; lresp_token := "";
          lresp_message := Demasiados_intentos_de_login_fallidos;
          lresp_connected_peers := [] |}, s1)
    else login_create now minted req s1.
Proof.
  intros Hidx Ht Hget Hh. unfold Login, login_attempt. rewrite Hidx.
  rewrite (truthy_Some _ Ht). simpl default. rewrite Hget.
  destruct (String.eqb_spec (url r) (lr_peer_url req)) as [E|_]; [contradiction|].
  now rewrite andb_false_r.
Qed.

(** What a successful [Login] leaves behind for the returned token. *)
Lemma Login_success_post req s :
  minted <> "" ->
  lresp_success (fst (Login cfg now minted req s)) = true ->
  let T := lresp_token (fst (Login cfg now minted req s)) in
  let s1 := snd (Login cfg now minted req s) in
  T <> "" /\
  username_index s1 !! lr_username req = Some T /\
  exists r, Dict.get (peers s1) T = Some r /\
            username r = lr_username req /\ url r = lr_peer_url req /\
            is_online r = true.
Proof.
  intros Hm.
  assert (Hcreate : forall s0,
    let T := lresp_token (fst (login_create now minted req s0)) in
    let s1 := snd (login_create now minted req s0) in
    T <> "" /\ username_index s1 !! lr_username req = Some T /\
    exists r, Dict.get (peers s1) T = Some r /\
              username r = lr_username req /\ url r = lr_peer_url req /\
              is_online r = true).
  { intros s0. simpl. split; [exact Hm|]. split; [apply lookup_insert_eq|].
    eexists. split; [apply DictFacts.get_set_eq|]. simpl. auto. }
  assert (Hattempt :
    lresp_success (fst (login_attempt cfg now minted req s)) = true ->
    let T := lresp_token (fst (login_attempt cfg now minted req s)) in
    let s1 := snd (login_attempt cfg now minted req s) in
    T <> "" /\ username_index s1 !! lr_username req = Some T /\
    exists r, Dict.get (peers s1) T = Some r /\
              username r = lr_username req /\ url r = lr_peer_url req /\
              is_online r = true).
  { unfold login_attempt.
    destruct (truthy (username_index s !! lr_username req)); [|intros _; apply Hcreate].
    destruct (Dict.get (peers s) _) as [peer|]; [|simpl; discriminate].
    simpl login_attempts.
    destruct (login_attempts peer + 1 >? max_login_attempts cfg); [simpl; discriminate|].
    intros _. apply Hcreate. }
  unfold Login.
  destruct (truthy (username_index s !! lr_username req)) eqn:Etr; [|exact Hattempt].
  destruct (truthy_inv _ Etr) as (t & Ht & Hne). rewrite Ht in *. simpl default in *.
  destruct (Dict.get (peers s) t) as [peer|] eqn:Eget; [|exact Hattempt].
  destruct (String.eqb_spec (username peer) (lr_username req)) as [Eu|_]; [|exact Hattempt].
  destruct (String.eqb_spec (url peer) (lr_peer_url req)) as [Eh|_]; [|exact Hattempt].
  simpl. intros _. split; [exact Hne|]. split; [exact Ht|].
  eexists. split; [apply DictFacts.get_set_eq|]. simpl. auto.
Qed.
End LoginFacts.

Lemma Login_outcome_any_token (cfg : SecurityConfig) (now : Z) (m1 m2 : string)
    (req : LoginRequest) (s : State) :
  lresp_success (fst (Login cfg now m1 req s)) = lresp_success (fst (Login cfg now m2 req s)) /\
  lresp_message (fst (Login cfg now m1 req s)) = lresp_message (fst (Login cfg now m2 req s)).
Proof.
  assert (Hattempt :
    lresp_success (fst (login_attempt cfg now m1 req s)) =
      lresp_success (fst (login_attempt cfg now m2 req s)) /\
    lresp_message (fst (login_attempt cfg now m1 req s)) =
      lresp_message (fst (login_attempt cfg now m2 req s))).
  { unfold login_attempt.
    destruct (truthy (username_index s !! lr_username req)); [|now simpl].
    destruct (Dict.get (peers s) _) as [peer|]; [|now simpl].
    destruct (_ >? _); now simpl. }
  unfold Login.
  destruct (truthy (username_index s !! lr_username req)); [|exact Hattempt].
  destruct (Dict.get (peers s) _) as [peer|]; [|exact Hattempt].
  destruct (_ && _); [now simpl | exact Hattempt].
Qed.

(** ** The claims about [Login] and [Logout] *)

(** C10.  [Login] never reads the password.  Two requests that differ only
    in the password, on the same registry: with the same minted token the
    response and the resulting registry are equal; whatever tokens are
    minted, the success flag and the message are equal; and a re-login
    (user name indexed to a record with the same host) succeeds with the
    stored token for any password. *)
Theorem Login_password_blind (cfg : SecurityConfig) (now : Z) (req1 req2 : LoginRequest)
    (s : State) :
  lr_username req1 = lr_username req2 ->
  lr_peer_id req1 = lr_peer_id req2 ->
  lr_peer_url req1 = lr_peer_url req2 ->
  lr_port req1 = lr_port req2 ->
  (forall minted, Login cfg now minted req1 s = Login cfg now minted req2 s) /\
  (forall m1 m2,
     lresp_success (fst (Login cfg now m1 req1 s)) =
       lresp_success (fst (Login cfg now m2 req2 s)) /\
     lresp_message (fst (Login cfg now m1 req1 s)) =
       lresp_message (fst (Login cfg now m2 req2 s))) /\
  (forall minted t r,
     username_index s !! lr_username req1 = Some t -> t <> "" ->
     Dict.get (peers s) t = Some r ->
     username r = lr_username req1 -> url r = lr_peer_url req1 ->
     lresp_success (fst (Login cfg now minted req2 s)) = true /\
     lresp_token (fst (Login cfg now minted req2 s)) = t).
Proof.
  intros Hu Hp Hh Hport.
  assert (Heq : forall minted, Login cfg now minted req1 s = Login cfg now minted req2 s).
  { intros minted. unfold Login, login_attempt, login_create, new_peer.
    now rewrite Hu, Hp, Hh, Hport. }
  split; [exact Heq|]. split.
  - intros m1 m2. rewrite (Heq m1). apply Login_outcome_any_token.
  - intros minted t r Hidx Ht Hget Hur Hhr. rewrite <- Heq.
    rewrite (Login_relogin cfg now minted req1 s t r Hidx Ht Hget Hur Hhr).
    now simpl.
Qed.

Lemma Login_password_blind_witness :
  Login default_security 5 tokB (with_password "wrong" alice_h1)
        (alice_registered default_security)
  = Login default_security 5 tokB alice_h1 (alice_registered default_security).
Proof.
  apply (Login_password_blind default_security 5 (with_password "wrong" alice_h1) alice_h1
           (alice_registered default_security)); reflexivity.
Defined.

(** C3 (as amended).  When the user name is indexed to a record whose stored
    host equals the request's host, [Login] succeeds and returns the stored
    token; the record becomes online, takes the request's port and the
    current time as [last_seen], and keeps every other field, its
    [login_attempts] included; no record is added, and the indexes and the
    token counter are unchanged. *)
Theorem Login_relogin_post (cfg : SecurityConfig) (now : Z) (minted : string)
    (req : LoginRequest) (s : State) (t : string) (r : PeerData) :
  username_index s !! lr_username req = Some t ->
  t <> "" ->
  Dict.get (peers s) t = Some r ->
  username r = lr_username req ->
  url r = lr_peer_url req ->
  let resp := fst (Login cfg now minted req s) in
  let s' := snd (Login cfg now minted req s) in
  lresp_success resp = true /\ lresp_token resp = t /\
  lresp_message resp = Reconexion_exitosa /\
  (exists r', Dict.get (peers s') t = Some r' /\
     is_online r' = true /\ port r' = lr_port req /\ last_seen r' = now /\
     login_attempts r' = login_attempts r /\
     peer_id r' = peer_id r /\ username r' = username r /\ url r' = url r /\
     token r' = token r /\ files r' = files r /\ created_at r' = created_at r) /\
  Dict.keys (peers s') = Dict.keys (peers s) /\
  (forall t', t' <> t -> Dict.get (peers s') t' = Dict.get (peers s) t') /\
  peer_index s' = peer_index s /\ username_index s' = username_index s /\
  token_counter s' = token_counter s.
Proof.
  intros Hidx Ht Hget Hu Hh.
  rewrite (Login_relogin cfg now minted req s t r Hidx Ht Hget Hu Hh). simpl.
  repeat split.
  - eexists. split; [apply DictFacts.get_set_eq|]. simpl. repeat split; reflexivity.
  - now apply DictFacts.keys_set_present with (v0 := r).
  - intros t' Hne. apply DictFacts.get_set_ne. congruence.
Qed.

Lemma Login_relogin_post_witness :
  lresp_success (fst (Login default_security 5 tokB alice_h1 (alice_registered default_security)))
  = true.
Proof.
  refine (proj1 (Login_relogin_post default_security 5 tokB alice_h1
                   (alice_registered default_security) tokA
                   (new_peer 0 tokA alice_h1) _ _ _ _ _)).
  - reflexivity.
  - discriminate.
  - reflexivity.
  - reflexivity.
  - reflexivity.
Defined.

(** C3, the claim as stated fails: with [max_login_attempts = 0], alice logs
    in from 10.0.0.1, an attempt from 10.0.0.2 is refused and counted, and
    her re-login from 10.0.0.1 succeeds with the same token while the counter
    stays at 1. *)
Lemma Login_relogin_keeps_attempts :
  let s1 := alice_registered strict_security in
  let s2 := snd (Login strict_security 1 tokB alice_h2 s1) in
  let res := Login strict_security 2 tokC alice_h1 s2 in
  lresp_success (fst (Login strict_security 1 tokB alice_h2 s1)) = false /\
  lresp_success (fst res) = true /\ lresp_token (fst res) = tokA /\
  login_attempts <$> Dict.get (peers (snd res)) tokA = Some 1 /\
  login_attempts <$> Dict.get (peers (snd res)) tokA <> Some 0.
Proof. vm_compute. repeat split; congruence. Qed.

(** C2 (as amended).  [Login] rejects no collision.  When the user name is
    indexed to a record of a different host, [Login] adds one to that
    record's [login_attempts]; if the new count exceeds [max_login_attempts]
    the call fails with the message "Demasiados intentos de login fallidos"
    and changes nothing else; otherwise it succeeds with the minted token: a
    record for the request is stored under that token and the [peer_id] and
    [username] index entries are overwritten with it.  When the user name is
    not indexed, [Login] succeeds in the same way, whatever is already stored
    under the minted token or indexed under the request's [peer_id]. *)
Theorem Login_never_conflicts (cfg : SecurityConfig) (now : Z) (minted : string)
    (req : LoginRequest) (s : State) :
  let resp := fst (Login cfg now minted req s) in
  let s' := snd (Login cfg now minted req s) in
  (forall t r,
     username_index s !! lr_username req = Some t ->
     t <> "" ->
     Dict.get (peers s) t = Some r ->
     url r <> lr_peer_url req ->
     let counted :=
       with_peers (Dict.set (peers s) t (set_login_attempts (login_attempts r + 1) r)) s in
     (login_attempts r + 1 > max_login_attempts cfg ->
        lresp_success resp = false /\
        lresp_message resp = Demasiados_intentos_de_login_fallidos /\
        s' = counted) /\
     (login_attempts r + 1 <= max_login_attempts cfg ->
        lresp_success resp = true /\ lresp_token resp = minted /\
        lresp_message resp = Login_exitoso /\
        Dict.get (peers s') minted = Some (new_peer now minted req) /\
        peer_index s' !! lr_peer_id req = Some minted /\
        username_index s' !! lr_username req = Some minted /\
        (forall t', t' <> minted -> Dict.get (peers s') t' = Dict.get (peers counted) t') /\
        token_counter s' = token_counter s + 1)) /\
  (username_index s !! lr_username req = None ->
     lresp_success resp = true /\ lresp_token resp = minted /\
     lresp_message resp = Login_exitoso /\
     Dict.get (peers s') minted = Some (new_peer now minted req) /\
     peer_index s' !! lr_peer_id req = Some minted /\
     username_index s' !! lr_username req = Some minted /\
     (forall t', t' <> minted -> Dict.get (peers s') t' = Dict.get (peers s) t') /\
     token_counter s' = token_counter s + 1).
Proof.
  cbv zeta. split.
  - intros t r Hidx Ht Hget Hh.
    rewrite (Login_other_host cfg now minted req s t r Hidx Ht Hget Hh).
    cbv zeta. split; intros Hcmp.
    + assert (E : (login_attempts r + 1 >? max_login_attempts cfg) = true) by lia.
      rewrite E. simpl. auto.
    + assert (E : (login_attempts r + 1 >? max_login_attempts cfg) = false) by lia.
      rewrite E. simpl. repeat split.
      * apply DictFacts.get_set_eq.
      * apply lookup_insert_eq.
      * apply lookup_insert_eq.
      * intros t' Hne. apply DictFacts.get_set_ne. congruence.
  - intros Hidx. unfold Login, login_attempt. rewrite Hidx. simpl. repeat split.
    + apply DictFacts.get_set_eq.
    + apply lookup_insert_eq.
    + apply lookup_insert_eq.
    + intros t' Hne. apply DictFacts.get_set_ne. congruence.
Qed.

Lemma Login_never_conflicts_witness :
  lresp_success (fst (Login default_security 1 tokB alice_h2 (alice_registered default_security)))
  = true.
Proof.
  refine (proj1 (proj2 (proj1 (Login_never_conflicts default_security 1 tokB alice_h2
                   (alice_registered default_security)) tokA
                   (new_peer 0 tokA alice_h1) _ _ _ _) _)).
  - reflexivity.
  - discriminate.
  - reflexivity.
  - discriminate.
  - simpl. lia.
Defined.

(** C2, the claim as stated fails: under the default configuration alice is
    registered from 10.0.0.1; a [Login] for alice from 10.0.0.2 succeeds,
    stores a second record and redirects the index entry of "alice". *)
Lemma Login_other_host_accepted :
  let res := Login default_security 1 tokB alice_h2 (alice_registered default_security) in
  lresp_success (fst res) = true /\
  lresp_message (fst res) = Login_exitoso /\
  Dict.keys (peers (snd res)) = [tokA; tokB] /\
  username <$> Dict.get (peers (snd res)) tokB = Some "alice" /\
  username_index (snd res) !! "alice" = Some tokB.
Proof. vm_compute. repeat split; reflexivity. Qed.

(** ** Properties of [Index] *)

Section IndexFacts.

Lemma index_loop_from (fs : list FileMetadata) d n :
  fold_left index_step fs (d, n) = (fold_left store_file fs d, n + Z.of_nat (length fs)).
Proof.
  revert d n. induction fs as [|fm fs IH]; intros d n; simpl fold_left.
  - simpl. f_equal. lia.
  - unfold index_step at 2. simpl fst. simpl snd. rewrite IH.
    unfold store_file at 2. f_equal. simpl length. lia.
Qed.

Lemma find_snoc {A} (f : A -> bool) (l : list A) (a : A) :
  List.find f (l ++ [a]) =
    match List.find f l with Some x => Some x | None => if f a then Some a else None end.
Proof.
  induction l as [|x l IH]; simpl; [reflexivity|].
  destruct (f x); [reflexivity | exact IH].
Qed.

Lemma get_stored (fs : list FileMetadata) d name :
  Dict.get (fold_left store_file fs d) name =
    match last_write_wins fs name with
    | Some fm => Some fm
    | None => Dict.get d name
    end.
Proof.
  revert d. induction fs as [|fm fs IH]; intros d; [reflexivity|].
  simpl fold_left. rewrite IH. unfold last_write_wins. simpl rev. rewrite find_snoc.
  destruct (List.find _ (rev fs)); [reflexivity|].
  unfold store_file. rewrite DictFacts.get_set.
  destruct (String.eqb (filename fm) name); reflexivity.
Qed.

Lemma NoDup_stored (fs : list FileMetadata) d :
  List.NoDup (Dict.keys d) -> List.NoDup (Dict.keys (fold_left store_file fs d)).
Proof.
  revert d. induction fs as [|fm fs IH]; intros d Hd; [exact Hd|].
  simpl. apply IH. now apply DictFacts.NoDup_keys_set.
Qed.

Lemma keys_In_get {V} (d : list (string * V)) k : In k (Dict.keys d) <-> Dict.get d k <> None.
Proof.
  pose proof (DictFacts.get_None_keys d k) as H.
  destruct (Dict.get d k); split; intros H'.
  - discriminate.
  - destruct (in_dec string_dec k (Dict.keys d)) as [Hin|Hn]; [exact Hin|].
    apply H in Hn. discriminate.
  - exfalso. apply (proj1 H); auto.
  - congruence.
Qed.

Lemma last_write_wins_None (fs : list FileMetadata) name :
  last_write_wins fs name = None <-> ~ In name (List.map filename fs).
Proof.
  unfold last_write_wins. split.
  - intros Hnone Hin. apply in_map_iff in Hin. destruct Hin as (fm & Hn & Hin).
    apply in_rev in Hin. pose proof (find_none _ _ Hnone fm Hin) as Hf.
    apply String.eqb_eq in Hn. simpl in Hf. congruence.
  - intros Hn. destruct (List.find _ (rev fs)) as [fm|] eqn:E; [|reflexivity].
    apply find_some in E. destruct E as [Hin Heq]. exfalso. apply Hn.
    apply in_map_iff. exists fm. split; [now apply String.eqb_eq|now apply in_rev].
Qed.

Lemma length_set {V} (d : list (string * V)) k v :
  length (Dict.set d k v) = match Dict.get d k with Some _ => length d | None => S (length d) end.
Proof.
  induction d as [|[k0 v0] d IH]; simpl; [reflexivity|].
  destruct (String.eqb k0 k); simpl; [reflexivity|].
  rewrite IH. now destruct (Dict.get d k).
Qed.

Lemma length_store_file d fm :
  length (store_file d fm) =
    match Dict.get d (filename fm) with Some _ => length d | None => S (length d) end.
Proof. apply length_set. Qed.

Lemma length_stored_le (fs : list FileMetadata) d :
  (length (fold_left store_file fs d) <= length d + length fs)%nat.
Proof.
  revert d. induction fs as [|fm fs IH]; intros d; simpl; [lia|].
  specialize (IH (store_file d fm)).
  rewrite length_store_file in IH. destruct (Dict.get d (filename fm)); lia.
Qed.

Lemma length_stored_eq (fs : list FileMetadata) d :
  length (fold_left store_file fs d) = (length d + length fs)%nat <->
  List.NoDup (List.map filename fs) /\
  (forall k, In k (List.map filename fs) -> Dict.get d k = None).
Proof.
  revert d. induction fs as [|fm fs IH]; intros d; simpl.
  - split; [intros _; split; [constructor | intros k []] | intros _; lia].
  - pose proof (length_stored_le fs (store_file d fm)) as Hle.
    specialize (IH (store_file d fm)).
    rewrite length_store_file in IH, Hle.
    destruct (Dict.get d (filename fm)) as [v0|] eqn:Eget.
    + split; [lia|]. intros [_ Hk]. specialize (Hk (filename fm) (or_introl eq_refl)).
      congruence.
    + split.
      * intros Hlen. assert (Hlen' : length (fold_left store_file fs (store_file d fm))
                                     = (S (length d) + length fs)%nat) by lia.
        apply IH in Hlen'. destruct Hlen' as [Hnd Hk]. split.
        -- constructor; [|exact Hnd]. intros Hin. specialize (Hk _ Hin).
           unfold store_file in Hk. rewrite DictFacts.get_set_eq in Hk. discriminate.
        -- intros k [<-|Hin]; [exact Eget|]. specialize (Hk _ Hin).
           unfold store_file in Hk. rewrite DictFacts.get_set in Hk.
           now destruct (String.eqb (filename fm) k).
      * intros [Hnd Hk]. inversion Hnd as [|x l Hnotin Hnd' Heq]; subst.
        assert (Hlen' : length (fold_left store_file fs (store_file d fm))
                        = (S (length d) + length fs)%nat); [|lia].
        apply IH. split; [exact Hnd'|]. intros k Hin. unfold store_file.
        rewrite DictFacts.get_set.
        destruct (String.eqb_spec (filename fm) k) as [E|Hne].
        -- rewrite E in Hnotin. contradiction.
        -- apply Hk. now right.
Qed.
End IndexFacts.

(** C4 (as amended).  After an authenticated [Index(token, files)] the
    peer's [files] dictionary is exactly the one built from the supplied
    list with last write wins: under each name it holds the last supplied
    entry with that name, and nothing from an earlier publish; its keys are
    the distinct supplied file names.  The returned [files_indexed] is the
    length of the supplied list; it is at least the size of the new
    dictionary and equals it exactly when the supplied file names are
    pairwise distinct. *)
Theorem Index_post (now : Z) (tok : string) (fs : list FileMetadata) (s : State)
    (peer : PeerData) (s1 : State) :
  _validate_token now tok s = Some (peer, s1) ->
  let resp := fst (Index now tok fs s) in
  let s' := snd (Index now tok fs s) in
  iresp_success resp = true /\
  iresp_files_indexed resp = Z.of_nat (length fs) /\
  exists files',
    Dict.get (peers s') tok = Some (set_files files' peer) /\
    (forall name, Dict.get files' name = last_write_wins fs name) /\
    List.NoDup (Dict.keys files') /\
    (forall name, In name (Dict.keys files') <-> In name (List.map filename fs)) /\
    Z.of_nat (length files') <= iresp_files_indexed resp /\
    (iresp_files_indexed resp = Z.of_nat (length files') <->
       List.NoDup (List.map filename fs)).
Proof.
  intros Hval. unfold Index. rewrite Hval. unfold index_loop.
  rewrite index_loop_from. cbv zeta. simpl fst. simpl snd.
  simpl iresp_success. simpl iresp_files_indexed.
  split; [reflexivity|]. split; [lia|].
  exists (fold_left store_file fs []).
  split; [apply DictFacts.get_set_eq|].
  assert (Hget : forall name,
            Dict.get (fold_left store_file fs []) name = last_write_wins fs name).
  { intros name. rewrite get_stored. now destruct (last_write_wins fs name). }
  split; [exact Hget|]. split; [apply NoDup_stored; constructor|].
  split; [|split].
  - intros name. rewrite keys_In_get, Hget.
    pose proof (last_write_wins_None fs name) as H.
    destruct (in_dec string_dec name (List.map filename fs)) as [Hin|Hn]; tauto.
  - pose proof (length_stored_le fs []) as Hle. simpl length in Hle. lia.
  - pose proof (length_stored_eq fs []) as H. simpl length in H. simpl Nat.add in H.
    split.
    + intros Hlen. apply H. lia.
    + intros Hnd. assert (Hl : length (fold_left store_file fs []) = length fs).
      { apply H. split; [exact Hnd | reflexivity]. }
      lia.
Qed.

Lemma Index_post_witness :
  iresp_files_indexed
    (fst (Index 3 tokA [hello_txt; notes_md] (alice_registered default_security))) = 2.
Proof.
  refine (proj1 (proj2 (Index_post 3 tokA [hello_txt; notes_md]
                          (alice_registered default_security)
                          (set_last_seen 3 (new_peer 0 tokA alice_h1))
                          (with_peers [(tokA, set_last_seen 3 (new_peer 0 tokA alice_h1))]
                                      (alice_registered default_security)) _))).
  reflexivity.
Defined.

(** C4, the claim as stated fails: publishing the same file name twice in
    one list stores one entry (the later one) and still returns
    [files_indexed = 2], not the number of distinct file names. *)
Lemma Index_counts_duplicates :
  let res := Index 3 tokA [hello_txt; hello_txt_v2] (alice_registered default_security) in
  iresp_files_indexed (fst res) = 2 /\
  files <$> Dict.get (peers (snd res)) tokA = Some [("hello.txt", hello_txt_v2)] /\
  iresp_files_indexed (fst res)
    <> Z.of_nat (length (default [] (files <$> Dict.get (peers (snd res)) tokA))).
Proof. vm_compute. repeat split; congruence. Qed.

(** ** Properties of [Search] *)

Section SearchFacts.
Variables (q_name q_pat caller : string).

Lemma lower_empty : lower "" = "".
Proof. reflexivity. Qed.

Lemma file_matches_spec fname :
  file_matches q_name q_pat fname = spec_match q_name q_pat fname.
Proof.
  unfold file_matches, spec_match.
  destruct (nonempty q_name && contains q_name (lower fname));
    destruct (nonempty q_pat && contains q_pat (lower fname)); reflexivity.
Qed.

(** The inner loop appends one result per matching file, in order. *)
Lemma search_files_loop_spec (p : PeerData) (results : list FileLocation) :
  search_files_loop q_name q_pat p results =
    (results ++ List.map (location_of p)
                  (List.filter (fun f => spec_match q_name q_pat (fst f)) (files p)))%list.
Proof.
  unfold search_files_loop. set (l := files p). clearbody l.
  revert results. induction l as [|[fname fd] l IH]; intros results; simpl.
  - now rewrite app_nil_r.
  - rewrite IH, file_matches_spec.
    destruct (spec_match q_name q_pat fname); simpl; [|reflexivity].
    now rewrite <- app_assoc.
Qed.

Lemma search_peers_fold (ps : list (string * PeerData)) (acc : list FileLocation) :
  fold_left
    (fun results kv =>
       let '(tok, p) := kv in
       if negb (is_online p) || String.eqb tok caller then results
       else search_files_loop q_name q_pat p results)
    ps acc
  = (acc ++ search_spec q_name q_pat caller ps)%list.
Proof.
  revert acc. induction ps as [|[tok p] ps IH]; intros acc; simpl.
  - now rewrite app_nil_r.
  - rewrite IH. destruct (is_online p); destruct (String.eqb tok caller); simpl;
      try reflexivity.
    rewrite search_files_loop_spec. now rewrite <- app_assoc.
Qed.

(** The loops of [Search] compute the specification's list. *)
Lemma search_peers_loop_spec (ps : list (string * PeerData)) :
  search_peers_loop q_name q_pat caller ps = search_spec q_name q_pat caller ps.
Proof. unfold search_peers_loop. now rewrite search_peers_fold. Qed.

(** Refreshing the caller's own record does not change what is found. *)
Lemma search_spec_set_caller (ps : list (string * PeerData)) (v : PeerData) :
  search_spec q_name q_pat caller (Dict.set ps caller v) = search_spec q_name q_pat caller ps.
Proof.
  induction ps as [|[tok p] ps IH]; simpl.
  - now rewrite String.eqb_refl, andb_false_r.
  - destruct (String.eqb_spec tok caller) as [->|Hne]; simpl.
    + now rewrite String.eqb_refl, !andb_false_r.
    + destruct (String.eqb_spec tok caller); [contradiction|]. now rewrite IH.
Qed.

Lemma in_search_spec (ps : list (string * PeerData)) (r : FileLocation) :
  In r (search_spec q_name q_pat caller ps) <->
  exists tok p fname fd,
    In (tok, p) ps /\ is_online p = true /\ tok <> caller /\
    In (fname, fd) (files p) /\ spec_match q_name q_pat fname = true /\
    r = location_of p (fname, fd).
Proof.
  unfold search_spec. rewrite in_flat_map. split.
  - intros ([tok p] & Hin & Hr). simpl in Hr.
    destruct (is_online p) eqn:Eon; [|destruct Hr].
    destruct (String.eqb_spec tok caller) as [|Hne]; [destruct Hr|]. simpl in Hr.
    apply in_map_iff in Hr. destruct Hr as ([fname fd] & <- & Hf).
    apply filter_In in Hf. destruct Hf as [Hf Hm]. simpl in Hm.
    exists tok, p, fname, fd. repeat split; auto.
  - intros (tok & p & fname & fd & Hin & Hon & Hne & Hf & Hm & ->).
    exists (tok, p). split; [exact Hin|]. simpl. rewrite Hon.
    destruct (String.eqb_spec tok caller); [contradiction|]. simpl.
    apply in_map_iff. exists (fname, fd). split; [reflexivity|].
    apply filter_In. auto.
Qed.

Lemma search_spec_nothing_asked (ps : list (string * PeerData)) :
  q_name = "" -> q_pat = "" -> search_spec q_name q_pat caller ps = [].
Proof.
  intros -> ->. induction ps as [|[tok p] ps IH]; simpl; [reflexivity|].
  rewrite IH, app_nil_r.
  destruct (is_online p && negb (String.eqb tok caller)); [|reflexivity].
  induction (files p) as [|f l IHl]; simpl; [reflexivity | exact IHl].
Qed.
End SearchFacts.

Lemma Search_authenticated (now : Z) (req : SearchRequest) (s : State)
    (peer : PeerData) (s1 : State) :
  _validate_token now (sr_token req) s = Some (peer, s1) ->
  Search now req s =
    ({| sresp_success := true;
        sresp_results :=
          search_spec (lower (sr_filename req)) (lower (sr_file_pattern req))
                      (sr_token req) (peers s) |}, s1).
Proof.
  intros Hval. unfold Search. rewrite Hval. rewrite search_peers_loop_spec.
  assert (Hpat : (if nonempty (sr_file_pattern req) then lower (sr_file_pattern req) else "")
                 = lower (sr_file_pattern req)).
  { destruct (sr_file_pattern req); reflexivity. }
  rewrite Hpat. unfold _validate_token in Hval.
  destruct (Dict.get (peers s) (sr_token req)) as [p0|]; [|discriminate].
  destruct (is_online p0); [|discriminate].
  injection Hval as _ <-. simpl peers. now rewrite search_spec_set_caller.
Qed.

(** C5.  A [Search] whose name and pattern are both empty returns no result,
    whatever the registry holds; for a valid token it is a successful
    response with an empty list. *)
Theorem Search_empty_terms (now : Z) (req : SearchRequest) (s : State) :
  sr_filename req = "" ->
  sr_file_pattern req = "" ->
  sresp_results (fst (Search now req s)) = [] /\
  (forall peer s1, _validate_token now (sr_token req) s = Some (peer, s1) ->
     sresp_success (fst (Search now req s)) = true).
Proof.
  intros Hn Hp. destruct (_validate_token now (sr_token req) s) as [[peer s1]|] eqn:Hval.
  - rewrite (Search_authenticated now req s peer s1 Hval). simpl. split; [|reflexivity].
    apply search_spec_nothing_asked; [now rewrite Hn | now rewrite Hp].
  - unfold Search. rewrite Hval. simpl. split; [reflexivity | discriminate].
Qed.

(** C9.  For a [Search] with a valid token, the results are, in order:
    for each registry entry whose record is online and whose token is not
    the caller's, for each of its files whose lower-cased name contains the
    non-empty lower-cased [name] or the non-empty lower-cased [pattern], one
    result; and nothing else.  Every result has [is_available = true], the
    URL [http://{url}:{port}/download/{filename}] of its peer and file, and
    a [peer_info] that is online. *)
Theorem Search_results_exact (now : Z) (req : SearchRequest) (s : State)
    (peer : PeerData) (s1 : State) :
  _validate_token now (sr_token req) s = Some (peer, s1) ->
  let q_name := lower (sr_filename req) in
  let q_pat := lower (sr_file_pattern req) in
  let results := sresp_results (fst (Search now req s)) in
  sresp_success (fst (Search now req s)) = true /\
  results = search_spec q_name q_pat (sr_token req) (peers s) /\
  (forall r, In r results <->
     exists tok p fname fd,
       In (tok, p) (peers s) /\ is_online p = true /\ tok <> sr_token req /\
       In (fname, fd) (files p) /\
       (nonempty q_name && contains q_name (lower fname)
        || nonempty q_pat && contains q_pat (lower fname)) = true /\
       r = {| file_info := fd; peer_info := peer_info_of p;
              download_url := "http://" +:+ url p +:+ ":" +:+ str_of_Z (port p)
                              +:+ "/download/" +:+ fname;
              is_available := true |}) /\
  (forall r, In r results ->
     is_available r = true /\ pi_is_online (peer_info r) = true).
Proof.
  intros Hval. cbv zeta.
  rewrite (Search_authenticated now req s peer s1 Hval). simpl.
  split; [reflexivity|]. split; [reflexivity|].
  assert (Hmem : forall r,
    In r (search_spec (lower (sr_filename req)) (lower (sr_file_pattern req))
                      (sr_token req) (peers s)) <->
    exists tok p fname fd,
       In (tok, p) (peers s) /\ is_online p = true /\ tok <> sr_token req /\
       In (fname, fd) (files p) /\
       (nonempty (lower (sr_filename req)) && contains (lower (sr_filename req)) (lower fname)
        || nonempty (lower (sr_file_pattern req))
           && contains (lower (sr_file_pattern req)) (lower fname)) = true /\
       r = {| file_info := fd; peer_info := peer_info_of p;
              download_url := "http://" +:+ url p +:+ ":" +:+ str_of_Z (port p)
                              +:+ "/download/" +:+ fname;
              is_available := true |}).
  { intros r. apply in_search_spec. }
  split; [exact Hmem|].
  intros r Hr. apply Hmem in Hr.
  destruct Hr as (tok & p & fname & fd & _ & Hon & _ & _ & _ & ->).
  simpl. auto.
Qed.

Lemma Search_results_exact_witness :
  sresp_results (fst (Search 7 bob_searches_hello two_peers))
  = search_spec (lower "HELLO") (lower "") tokB (peers two_peers).
Proof.
  refine (proj1 (proj2 (Search_results_exact 7 bob_searches_hello two_peers _ _ _))).
  reflexivity.
Defined.

Lemma Search_empty_terms_witness :
  sresp_results
    (fst (Search 7 {| sr_token := tokB; sr_peer_id := "peer-002";
                      sr_filename := ""; sr_file_pattern := "" |} two_peers)) = [].
Proof.
  refine (proj1 (Search_empty_terms 7 _ two_peers _ _)); reflexivity.
Defined.

(** Bob's search for "HELLO" finds alice's [hello.txt], and only it. *)
Example bob_finds_hello :
  List.map download_url (sresp_results (fst (Search 7 bob_searches_hello two_peers)))
  = ["http://10.0.0.1:8081/download/hello.txt"].
Proof. vm_compute. reflexivity. Qed.

(** ** The indexes and the records *)

Section Agreement.
Variables (sec : SecurityConfig) (db : DatabaseConfig).

Lemma consistent_init : consistent init_state.
Proof. split; intros t r []. Qed.

(** Replacing a stored record by one with the same token, peer id and user
    name keeps the agreement. *)
Lemma consistent_update s k r r' :
  consistent s ->
  Dict.get (peers s) k = Some r ->
  token r' = token r -> peer_id r' = peer_id r -> username r' = username r ->
  consistent (with_peers (Dict.set (peers s) k r') s).
Proof.
  intros [Hk Hi] Hget Ht Hp Hu. apply DictFacts.get_Some_In in Hget.
  split; intros t x Hin; simpl in *; apply DictFacts.In_set in Hin;
    destruct Hin as [[= -> ->]|Hin].
  - rewrite Ht. now apply (Hk k).
  - now apply Hk.
  - rewrite Ht, Hp, Hu. now apply (Hi k).
  - now apply (Hi t).
Qed.

Lemma validate_Some now tok s p s1 :
  _validate_token now tok s = Some (p, s1) ->
  exists r, Dict.get (peers s) tok = Some r /\ is_online r = true /\
            p = set_last_seen now r /\
            s1 = with_peers (Dict.set (peers s) tok p) s.
Proof.
  unfold _validate_token. destruct (Dict.get (peers s) tok) as [r|]; [|discriminate].
  destruct (is_online r) eqn:E; [|discriminate]. intros [= <- <-]. now exists r.
Qed.

Lemma consistent_validate now tok s p s1 :
  consistent s -> _validate_token now tok s = Some (p, s1) ->
  consistent s1 /\ Dict.get (peers s1) tok = Some p.
Proof.
  intros Hc Hval. destruct (validate_Some _ _ _ _ _ Hval) as (r & Hget & _ & -> & ->).
  split; [now apply consistent_update with (r := r)|]. apply DictFacts.get_set_eq.
Qed.

Lemma consistent_Logout now tok s : consistent s -> consistent (snd (Logout now tok s)).
Proof.
  intros Hc. unfold Logout.
  destruct (_validate_token now tok s) as [[p s1]|] eqn:Hval; [|exact Hc].
  destruct (consistent_validate _ _ _ _ _ Hc Hval) as [Hc1 Hget]. simpl.
  now apply consistent_update with (r := p).
Qed.

Lemma consistent_Index now tok fs s : consistent s -> consistent (snd (Index now tok fs s)).
Proof.
  intros Hc. unfold Index.
  destruct (_validate_token now tok s) as [[p s1]|] eqn:Hval; [|exact Hc].
  destruct (consistent_validate _ _ _ _ _ Hc Hval) as [Hc1 Hget].
  destruct (index_loop fs) as [files' n]. simpl.
  now apply consistent_update with (r := p).
Qed.

Lemma consistent_Search now req s : consistent s -> consistent (snd (Search now req s)).
Proof.
  intros Hc. unfold Search.
  destruct (_validate_token now (sr_token req) s) as [[p s1]|] eqn:Hval; [|exact Hc].
  now destruct (consistent_validate _ _ _ _ _ Hc Hval).
Qed.

Lemma consistent_GetPeerInfo now tok s :
  consistent s -> consistent (snd (GetPeerInfo now tok s)).
Proof.
  intros Hc. unfold GetPeerInfo.
  destruct (_validate_token now tok s) as [[p s1]|] eqn:Hval; [|exact Hc].
  now destruct (consistent_validate _ _ _ _ _ Hc Hval).
Qed.

Lemma consistent_Heartbeat now tok s :
  consistent s -> consistent (snd (Heartbeat now tok s)).
Proof.
  intros Hc. unfold Heartbeat.
  destruct (_validate_token now tok s) as [[p s1]|] eqn:Hval; [|exact Hc].
  now destruct (consistent_validate _ _ _ _ _ Hc Hval).
Qed.

(** *** The sweep *)

Lemma consistent_cleanup_one s tok s' :
  consistent s -> cleanup_one s tok = Some s' -> consistent s'.
Proof.
  intros [Hk Hi]. unfold cleanup_one.
  destruct (Dict.get (peers s) tok) as [peer|] eqn:Hget; [|discriminate].
  intros [= <-]. apply DictFacts.get_Some_In in Hget.
  pose proof (Hk _ _ Hget) as Htok. destruct (Hi _ _ Hget) as [Hpi Hui].
  split; intros t x Hin; simpl in *; apply DictFacts.In_del in Hin;
    destruct Hin as [Hin Hne]; [now apply Hk|].
  pose proof (Hk _ _ Hin) as Htx. destruct (Hi _ _ Hin) as [Hpx Hux].
  assert (Hp : peer_id peer <> peer_id x).
  { intros E. rewrite E in Hpi. congruence. }
  assert (Hu : username peer <> username x).
  { intros E. rewrite E in Hui. congruence. }
  split.
  - destruct (bool_decide _); [|exact Hpx]. now rewrite lookup_delete_ne.
  - destruct (bool_decide _); [|exact Hux]. now rewrite lookup_delete_ne.
Qed.

Lemma consistent_cleanup_loop toks s : consistent s -> consistent (cleanup_loop s toks).
Proof.
  revert s. induction toks as [|tok toks IH]; intros s Hc; simpl; [exact Hc|].
  destruct (cleanup_one s tok) as [s'|] eqn:E; [|exact Hc].
  apply IH. now apply consistent_cleanup_one with (s := s) (tok := tok).
Qed.

(** *** Login *)

Lemma new_identity_spec s req :
  brings_new_identity s req = true <->
  forall t r, In (t, r) (peers s) ->
    username r <> lr_username req /\ peer_id r <> lr_peer_id req.
Proof.
  unfold brings_new_identity. rewrite forallb_forall. split.
  - intros H t r Hin. specialize (H _ Hin). simpl in H.
    apply andb_true_iff in H. destruct H as [Hu Hp].
    split.
    + destruct (String.eqb_spec (username r) (lr_username req)); [discriminate|assumption].
    + destruct (String.eqb_spec (peer_id r) (lr_peer_id req)); [discriminate|assumption].
  - intros H [t r] Hin. destruct (H _ _ Hin) as [Hu Hp]. simpl.
    destruct (String.eqb_spec (username r) (lr_username req)); [contradiction|].
    destruct (String.eqb_spec (peer_id r) (lr_peer_id req)); [contradiction|reflexivity].
Qed.

Lemma consistent_create now minted req s :
  consistent s -> brings_new_identity s req = true ->
  consistent (snd (login_create now minted req s)).
Proof.
  intros [Hk Hi] Hnew. rewrite new_identity_spec in Hnew.
  split; intros t x Hin; simpl in *; apply DictFacts.In_set in Hin;
    destruct Hin as [[= -> ->]|Hin]; simpl.
  - reflexivity.
  - now apply Hk.
  - now rewrite !lookup_insert_eq.
  - destruct (Hnew _ _ Hin) as [Hu Hp]. destruct (Hi _ _ Hin) as [Hpx Hux].
    rewrite !lookup_insert_ne by congruence. auto.
Qed.

Lemma new_identity_update s k r r' req :
  brings_new_identity s req = true ->
  Dict.get (peers s) k = Some r ->
  peer_id r' = peer_id r -> username r' = username r ->
  brings_new_identity (with_peers (Dict.set (peers s) k r') s) req = true.
Proof.
  rewrite !new_identity_spec. intros H Hget Hp Hu t x Hin. simpl in Hin.
  apply DictFacts.In_set in Hin. destruct Hin as [[= -> ->]|Hin]; [|now apply (H t)].
  rewrite Hp, Hu. apply (H k). now apply DictFacts.get_Some_In.
Qed.

Lemma consistent_login_attempt now minted req s :
  consistent s -> brings_new_identity s req = true ->
  consistent (snd (login_attempt sec now minted req s)).
Proof.
  intros Hc Hnew. unfold login_attempt.
  destruct (truthy (username_index s !! lr_username req)); [|now apply consistent_create].
  destruct (Dict.get (peers s) _) as [peer|] eqn:Hget; [|exact Hc].
  assert (Hc1 : consistent (with_peers (Dict.set (peers s)
                   (default "" (username_index s !! lr_username req))
                   (set_login_attempts (login_attempts peer + 1) peer)) s)).
  { now apply consistent_update with (r := peer). }
  destruct (_ >? _); [exact Hc1|].
  apply consistent_create; [exact Hc1|].
  now apply new_identity_update with (r := peer).
Qed.

Lemma consistent_Login now minted req s :
  consistent s ->
  is_relogin s req || brings_new_identity s req = true ->
  consistent (snd (Login sec now minted req s)).
Proof.
  intros Hc Hadm. unfold Login.
  destruct (truthy (username_index s !! lr_username req)) eqn:Etr.
  - destruct (truthy_inv _ Etr) as (t & Hidx & Hne).
    unfold is_relogin in Hadm. rewrite Hidx in *. simpl default.
    assert (Hnz : nonempty t = true).
    { unfold nonempty. now destruct (String.eqb_spec t ""). }
    rewrite Hnz in Hadm. simpl in Hadm.
    destruct (Dict.get (peers s) t) as [peer|] eqn:Hget.
    + destruct (String.eqb (username peer) (lr_username req)
                && String.eqb (url peer) (lr_peer_url req)).
      * simpl. now apply consistent_update with (r := peer).
      * now apply consistent_login_attempt.
    + now apply consistent_login_attempt.
  - apply consistent_login_attempt; [exact Hc|]. unfold is_relogin in Hadm.
    destruct (username_index s !! lr_username req) as [t|]; [|exact Hadm].
    simpl in Etr. unfold nonempty in Hadm. rewrite Etr in Hadm. exact Hadm.
Qed.

Lemma consistent_step s r :
  consistent s -> admissible_request s r = true -> consistent (step sec db s r).
Proof.
  intros Hc Hadm. destruct r; simpl.
  - now apply consistent_Login.
  - now apply consistent_Logout.
  - now apply consistent_Index.
  - now apply consistent_Search.
  - now apply consistent_GetPeerInfo.
  - now apply consistent_Heartbeat.
  - unfold _cleanup_inactive_peers. now apply consistent_cleanup_loop.
Qed.

Lemma consistent_run rs s :
  consistent s -> admissible sec db s rs = true -> consistent (run sec db s rs).
Proof.
  revert s. induction rs as [|r rs IH]; intros s Hc Hadm; simpl; [exact Hc|].
  simpl in Hadm. apply andb_true_iff in Hadm. destruct Hadm as [Hr Hrs].
  apply IH; [now apply consistent_step | exact Hrs].
Qed.
End Agreement.

(** C1 (as amended).  In the empty registry every stored record is indexed
    by [peer_index] and [username_index] under its token.  Every operation
    (Login, Logout, Index, Search, GetPeerInfo, Heartbeat, the sweep) keeps
    this, together with the fact that records are stored under their own
    token, provided a [Login] is a re-login or brings a user name and a peer
    id that no stored record carries; hence it holds after every sequence of
    requests whose logins are of these two kinds. *)
Theorem indexes_agree_preserved (sec : SecurityConfig) (db : DatabaseConfig) :
  indexes_agree init_state /\
  (forall s r, consistent s -> admissible_request s r = true ->
               consistent (step sec db s r)) /\
  (forall rs, admissible sec db init_state rs = true ->
              indexes_agree (run sec db init_state rs)).
Proof.
  split; [apply consistent_init|]. split.
  - intros s r. apply consistent_step.
  - intros rs Hadm. apply (consistent_run sec db rs init_state consistent_init Hadm).
Qed.

Lemma indexes_agree_preserved_witness :
  indexes_agree (run default_security default_database init_state calm_session).
Proof.
  apply (proj2 (proj2 (indexes_agree_preserved default_security default_database))).
  vm_compute. reflexivity.
Defined.

(** C1, the claim as stated fails: after alice logs in from 10.0.0.1 and
    then from 10.0.0.2, her first record is still stored under its token but
    [username_index] maps "alice" to the second token. *)
Lemma indexes_disagree_after_second_host :
  ~ indexes_agree (run default_security default_database init_state two_hosts_session).
Proof.
  intros H.
  destruct (H tokA (set_login_attempts 1 (new_peer 0 tokA alice_h1))) as [_ Hu].
  - vm_compute. left. reflexivity.
  - vm_compute in Hu. discriminate.
Qed.

(** ** Paths and the file system *)

Section FileSystemFacts.

Lemma split_slash_plain s : has_slash s = false -> split_slash s = [s].
Proof.
  induction s as [|c s IH]; simpl; [reflexivity|].
  destruct (Ascii.eqb c "/"); simpl; [discriminate|].
  intros H. now rewrite (IH H).
Qed.

Lemma not_absolute_plain s : has_slash s = false -> String.prefix "/" s = false.
Proof.
  destruct s as [|c s]; [reflexivity|]. intros H.
  change (String.prefix "/" (String c s))
    with (if ascii_dec "/" c then String.prefix "" s else false).
  destruct (ascii_dec "/" c) as [E|_]; [|reflexivity].
  subst c. simpl in H. discriminate.
Qed.

(** Joining a name without separator adds at most that one component. *)
Lemma joinpath_plain p fname :
  has_slash fname = false ->
  joinpath p fname =
    {| absolute := absolute p;
       parts := (parts p ++ (if is_name fname then [fname] else []))%list |}.
Proof.
  intros H. unfold joinpath, parse_path.
  rewrite (not_absolute_plain _ H), (split_slash_plain _ H). simpl.
  now destruct (is_name fname).
Qed.

Lemma node_at_app n p q :
  node_at n (p ++ q) = match node_at n p with Some m => node_at m q | None => None end.
Proof.
  revert n. induction p as [|c p IH]; intros n; simpl; [reflexivity|].
  destruct n as [i sz|children|t]; try reflexivity.
  destruct (Dict.get children c); [apply IH | reflexivity].
Qed.

Lemma fs_node_snoc os d c :
  fs_node os (d ++ [c]) =
    match fs_node os d with
    | Some (Directory children) => Dict.get children c
    | _ => None
    end.
Proof.
  unfold fs_node. rewrite node_at_app.
  destruct (node_at (root os) d) as [[i sz|children|t]|]; try reflexivity.
  simpl. now destruct (Dict.get children c).
Qed.

(** The directory above a directory is a directory. *)
Lemma parent_is_directory os d ch :
  fs_node os d = Some (Directory ch) ->
  exists ch', fs_node os (removelast d) = Some (Directory ch').
Proof.
  induction d as [|c d' _] using rev_ind.
  - intros H. now exists ch.
  - rewrite removelast_last, fs_node_snoc.
    destruct (fs_node os d') as [[i sz|children|t]|]; try discriminate.
    intros _. now exists children.
Qed.

(** A walk over [a ++ b] is the walk over [a], continued over [b]. *)
Lemma walk_app os a b :
  forall cur,
    walk os cur (a ++ b) =
      match walk os cur a with
      | Done (Found loc) => walk os loc b
      | Done (Absent d n) =>
          match b with [] => Done (Absent d n) | _ :: _ => Done (Failed ENOENT) end
      | Done (Failed e) => Done (Failed e)
      | AtLink d t rest => AtLink d t (rest ++ b)
      end.
Proof.
  induction a as [|c a IH]; intros cur; [reflexivity|].
  cbn [app walk].
  destruct (fs_node os cur) as [[i sz|children|t]|]; try reflexivity.
  destruct (String.eqb c "."); [apply IH|].
  destruct (String.eqb c ".."); [apply IH|].
  destruct (NAME_MAX <? String.length c)%nat; [reflexivity|].
  destruct (fs_node os (cur ++ [c])) as [[i sz|children'|t]|]; try apply IH; try reflexivity.
  destruct a as [|c' a]; [|reflexivity]. now destruct b.
Qed.

Lemma namei_unfold fuel os cur comps :
  namei fuel os cur comps =
    match walk os cur comps with
    | Done l => l
    | AtLink dir target rest =>
        match fuel with
        | O => Failed ELOOP
        | S fuel' =>
            if String.eqb target "" then Failed ENOENT
            else namei fuel' os (if String.prefix "/" target then [] else dir)
                       (target_parts target ++ rest)
        end
    end.
Proof. destruct fuel; reflexivity. Qed.

(** Once a prefix of the components has led to [loc], the lookup goes on
    from there. *)
Lemma namei_app_found os b loc :
  forall fuel cur a,
    namei fuel os cur a = Found loc ->
    exists fuel', namei fuel os cur (a ++ b) = namei fuel' os loc b.
Proof.
  induction fuel as [|fuel IH]; intros cur a; rewrite !namei_unfold, walk_app;
    destruct (walk os cur a) as [[loc'|d n|e]|d t rest]; try discriminate.
  - intros [= ->]. exists O. now rewrite namei_unfold.
  - intros [= ->]. exists (S fuel). now rewrite (namei_unfold (S fuel)).
  - destruct (String.eqb t ""); [discriminate|]. intros H.
    destruct (IH _ _ H) as [fuel' E]. exists fuel'. now rewrite <- app_assoc in E.
Qed.

(** The lookup of one plain name in a directory needs no link to follow
    unless the entry is one. *)
Lemma namei_entry fuel os loc children name :
  fs_node os loc = Some (Directory children) ->
  name <> "." -> name <> ".." ->
  (is_link <$> Dict.get children name) <> Some true ->
  namei fuel os loc [name] =
    if (NAME_MAX <? String.length name)%nat then Failed ENAMETOOLONG
    else match Dict.get children name with
         | Some _ => Found (loc ++ [name])
         | None => Absent loc name
         end.
Proof.
  intros Hdir Hd Hdd Hlink. rewrite namei_unfold. cbn [walk]. rewrite Hdir.
  destruct (String.eqb_spec name "."); [contradiction|].
  destruct (String.eqb_spec name ".."); [contradiction|].
  destruct (NAME_MAX <? String.length name)%nat; [reflexivity|].
  rewrite fs_node_snoc, Hdir.
  destruct (Dict.get children name) as [[i sz|ch|t]|]; try reflexivity.
  exfalso. now apply Hlink.
Qed.

Lemma resolve_Found os p loc :
  resolve os p = Found loc ->
  has_nul p = false /\ (PATH_MAX <=? path_length p)%nat = false /\
  namei MAXSYMLINKS os (if absolute p then [] else cwd os) (parts p) = Found loc.
Proof.
  unfold resolve. destruct (has_nul p); [discriminate|].
  destruct (PATH_MAX <=? path_length p)%nat; [discriminate|]. auto.
Qed.

Lemma resolve_namei os p :
  has_nul p = false -> (PATH_MAX <=? path_length p)%nat = false ->
  resolve os p = namei MAXSYMLINKS os (if absolute p then [] else cwd os) (parts p).
Proof. intros H1 H2. unfold resolve. now rewrite H1, H2. Qed.

(** What the three tests and [stat] say, by what [probe] found. *)
Lemma probe_stat os p n :
  probe os p = Return (Some n) -> path_stat os p = Return n.
Proof.
  unfold probe, path_stat. destruct (resolve os p) as [loc|d nm|e].
  - destruct (fs_node os loc); [now intros [= ->] | discriminate].
  - discriminate.
  - destruct (ignored e); discriminate.
Qed.


Lemma path_is_file_true os p :
  path_is_file os p = Return true <->
  exists ino size, probe os p = Return (Some (RegularFile ino size)).
Proof.
  unfold path_is_file. destruct (probe os p) as [[[i sz|ch|t]|]|e]; simpl; split;
    try discriminate; try (intros (i' & sz' & H); discriminate H).
  - intros _. now exists i, sz.
  - reflexivity.
Qed.
End FileSystemFacts.

(** ** The upload and download handlers *)

Lemma write_file_probed os p size os' :
  write_file os p size = Some os' -> exists b, path_exists os p = Return b.
Proof.
  unfold write_file, path_exists, probe.
  destruct (resolve os p) as [loc|d nm|e]; simpl; try discriminate; intros _; eauto.
Qed.

Lemma create_files_try_cases (srv : PServer) (os : OS) (file : UploadFile) :
  create_files_try srv os file =
    if uf_size file =? 0 then Raise (HTTPException 400)
    else if uf_size file >? 52428800 then Raise (HTTPException 413)
    else
      let file_path := joinpath (shared_directory (file_manager srv)) (uf_filename file) in
      match path_exists os file_path with
      | Raise e => Raise e
      | Return _ =>
          match write_file os file_path (uf_size file) with
          | Some os' =>
              Return ({| cr_filename := uf_filename file; cr_size := uf_size file;
                         cr_peer_id := cfg_peer_id (peer_config srv) |}, os')
          | None => Raise OSError
          end
      end.
Proof.
  unfold create_files_try. change (50 * 1024 * 1024) with 52428800.
  destruct (uf_size file =? 0); [reflexivity|]. simpl bind.
  destruct (uf_size file >? 52428800); [reflexivity|]. simpl bind. cbv zeta.
  destruct (path_exists os _); [|reflexivity]. simpl bind.
  now destruct (write_file os _ (uf_size file)).
Qed.

(** C6 (as amended).  [POST /create] refuses an empty upload and an upload
    of more than 52428800 bytes (50 MiB, a constant of the handler): the
    caller gets an error response and nothing is written.  An upload of 1 to
    52428800 bytes whose write succeeds is accepted.  The configured
    [max_file_size] is not consulted: changing it changes nothing. *)
Theorem create_files_size_window (srv : PServer) (os : OS) (file : UploadFile) :
  (uf_size file = 0 \/ uf_size file > 52428800 ->
     (exists c, create_files srv os file = Raise (HTTPException c)) /\
     status_of (create_files srv os file) <> 200 /\
     os_after os (create_files srv os file) = os) /\
  (0 < uf_size file <= 52428800 ->
     forall os',
       write_file os (joinpath (shared_directory (file_manager srv)) (uf_filename file))
                  (uf_size file) = Some os' ->
       create_files srv os file =
         Return ({| cr_filename := uf_filename file; cr_size := uf_size file;
                    cr_peer_id := cfg_peer_id (peer_config srv) |}, os')) /\
  (status_of (create_files srv os file) = 200 ->
     uf_size file <> 0 /\ uf_size file <= 52428800) /\
  (forall n, create_files (with_max_file_size n srv) os file = create_files srv os file).
Proof.
  unfold create_files. rewrite create_files_try_cases.
  split; [|split; [|split]].
  - intros Hsz. destruct (Z.eqb_spec (uf_size file) 0) as [E|E]; simpl.
    + split; [now eexists|]. split; [discriminate | reflexivity].
    + assert (Hgt : (uf_size file >? 52428800) = true) by lia. rewrite Hgt. simpl.
      split; [now eexists|]. split; [discriminate | reflexivity].
  - intros Hsz os' Hw.
    assert (H0 : (uf_size file =? 0) = false) by lia.
    assert (H1 : (uf_size file >? 52428800) = false) by lia.
    destruct (write_file_probed _ _ _ _ Hw) as [b Hb].
    rewrite H0, H1. cbv zeta. now rewrite Hb, Hw.
  - destruct (Z.eqb_spec (uf_size file) 0) as [E|E]; simpl; [discriminate|].
    destruct (uf_size file >? 52428800) eqn:Hgt; simpl; [discriminate|].
    intros _. split; [exact E | lia].
  - intros n. now rewrite create_files_try_cases.
Qed.

Lemma create_files_size_window_witness :
  exists os', create_files demo_server demo_os (upload "big.bin" 52428800)
              = Return ({| cr_filename := "big.bin"; cr_size := 52428800;
                           cr_peer_id := "peer-001" |}, os').
Proof.
  eexists.
  apply (proj1 (proj2 (create_files_size_window demo_server demo_os
                         (upload "big.bin" 52428800)))).
  - simpl. lia.
  - vm_compute. reflexivity.
Defined.

(** C6, the claim as stated fails: the configured [max_file_size] is
    104857600, and uploads of exactly that size, and of 52428801 bytes, are
    refused. *)
Lemma create_files_ignores_max_file_size :
  max_file_size (files_config demo_server) = 104857600 /\
  status_of (create_files demo_server demo_os (upload "big.bin" 104857600)) <> 200 /\
  status_of (create_files demo_server demo_os (upload "big.bin" 52428801)) <> 200.
Proof. vm_compute. repeat split; congruence. Qed.

(** What the caller sees for an empty and for an oversized upload: the
    handler's own [except Exception] turns both exceptions into status 500. *)
Example create_files_observed_status :
  status_of (create_files demo_server demo_os (upload "empty.txt" 0)) = 500 /\
  status_of (create_files demo_server demo_os (upload "big.bin" 52428801)) = 500.
Proof. vm_compute. split; reflexivity. Qed.

(** [download_file] by what the probe of [shared_directory / filename]
    finds. *)
Lemma download_file_cases (srv : PServer) (os : OS) (fname : string) :
  let file_path := joinpath (shared_directory (file_manager srv)) fname in
  download_file srv os fname =
    match probe os file_path with
    | Raise e => Raise e
    | Return (Some (RegularFile _ size)) =>
        Return {| fr_path := file_path; fr_filename := fname;
                  fr_content_disposition := "attachment; filename=" +:+ fname;
                  fr_x_peer_id := cfg_peer_id (peer_config srv);
                  fr_x_peer_username := cfg_username (peer_config srv);
                  fr_x_file_size := size |}
    | Return _ => Raise (HTTPException 404)
    end.
Proof.
  cbv zeta. unfold download_file, get_file_path.
  set (p := joinpath (shared_directory (file_manager srv)) fname).
  unfold path_exists, path_is_file, path_size.
  destruct (probe os p) as [[n|]|e] eqn:Ep; simpl; try reflexivity.
  destruct n as [i sz|ch|t]; simpl; try reflexivity.
  rewrite Ep. simpl. now rewrite (probe_stat _ _ _ Ep).
Qed.



(** A missing name of up to [NAME_MAX] bytes is answered 404.  For a longer
    one [exists()] raises and nothing catches it: the caller sees 500. *)
Example download_file_long_name :
  status_of (download_file demo_server demo_os (long_name 255)) = 404 /\
  status_of (download_file demo_server demo_os (long_name 256)) = 500.
Proof. vm_compute. split; reflexivity. Qed.



(** * Further properties of the directory *)

Section LoopFacts.
Context {A B : Type}.

Lemma fold_append_filter (f : A -> bool) (g : A -> B) (l : list A) (acc : list B) :
  fold_left (fun acc x => if f x then (acc ++ [g x])%list else acc) l acc
  = (acc ++ List.map g (List.filter f l))%list.
Proof.
  revert acc. induction l as [|x l IH]; intros acc; simpl.
  - now rewrite app_nil_r.
  - rewrite IH. destruct (f x); simpl; [|reflexivity]. now rewrite <- app_assoc.
Qed.

Lemma fold_count_filter (f : A -> bool) (l : list A) (n : Z) :
  fold_left (fun n x => if f x then n + 1 else n) l n
  = n + Z.of_nat (length (List.filter f l)).
Proof.
  revert n. induction l as [|x l IH]; intros n; simpl; [lia|].
  rewrite IH. destruct (f x); simpl length; lia.
Qed.

Lemma filter_filter (f g : A -> bool) (l : list A) :
  List.filter f (List.filter g l) = List.filter (fun x => g x && f x) l.
Proof.
  induction l as [|x l IH]; simpl; [reflexivity|].
  destruct (g x); simpl; [|exact IH]. destruct (f x); now rewrite IH.
Qed.

Lemma filter_length_le (f : A -> bool) (l : list A) :
  (length (List.filter f l) <= length l)%nat.
Proof. induction l as [|x l IH]; simpl; [lia|]. destruct (f x); simpl; lia. Qed.
End LoopFacts.

(** X1.  Two heartbeats in a row leave the registry as the second one alone
    would, and the second answers as it would have alone: back-to-back
    heartbeats differ from one only in [last_seen]. *)
Theorem Heartbeat_absorbs (t1 t2 : Z) (tok : string) (s : State) :
  Heartbeat t2 tok (snd (Heartbeat t1 tok s)) = Heartbeat t2 tok s.
Proof.
  unfold Heartbeat, _validate_token.
  destruct (Dict.get (peers s) tok) as [r|] eqn:Hget; simpl; [|now rewrite Hget].
  destruct (is_online r) eqn:Hon; simpl; [|now rewrite Hget, Hon].
  rewrite DictFacts.get_set_eq. simpl. rewrite Hon, DictFacts.set_set. reflexivity.
Qed.

(** X2.  Publishing twice in a row leaves the registry as the second publish
    alone would: nothing of the first list survives, whatever the two lists
    are. *)
Theorem Index_absorbs (t1 t2 : Z) (tok : string) (fs1 fs2 : list FileMetadata) (s : State) :
  Index t2 tok fs2 (snd (Index t1 tok fs1 s)) = Index t2 tok fs2 s.
Proof.
  unfold Index, _validate_token.
  destruct (Dict.get (peers s) tok) as [r|] eqn:Hget; simpl; [|now rewrite Hget].
  destruct (is_online r) eqn:Hon; simpl; [|now rewrite Hget, Hon].
  destruct (index_loop fs1) as [f1 n1]. simpl.
  rewrite DictFacts.get_set_eq. simpl. rewrite Hon.
  destruct (index_loop fs2) as [f2 n2]. simpl.
  now rewrite !DictFacts.set_set.
Qed.

Lemma touches_only_refl tok s : touches_only tok s s.
Proof. unfold touches_only. auto. Qed.

Lemma touches_only_trans tok s1 s2 s3 :
  touches_only tok s1 s2 -> touches_only tok s2 s3 -> touches_only tok s1 s3.
Proof.
  intros (K1 & G1 & P1 & U1 & C1) (K2 & G2 & P2 & U2 & C2).
  unfold touches_only. repeat split; try congruence.
  intros t Ht. rewrite G2, G1 by exact Ht. reflexivity.
Qed.

Lemma touches_only_update tok s r r' :
  Dict.get (peers s) tok = Some r ->
  touches_only tok s (with_peers (Dict.set (peers s) tok r') s).
Proof.
  intros Hget. unfold touches_only. simpl. repeat split.
  - now apply DictFacts.keys_set_present with (v0 := r).
  - intros t Ht. apply DictFacts.get_set_ne. congruence.
Qed.

Lemma touches_only_validate now tok s p s1 :
  _validate_token now tok s = Some (p, s1) ->
  touches_only tok s s1 /\ Dict.get (peers s1) tok = Some p.
Proof.
  intros Hval. destruct (validate_Some _ _ _ _ _ Hval) as (r & Hget & _ & -> & ->).
  split; [now apply touches_only_update with (r := r)|]. apply DictFacts.get_set_eq.
Qed.

(** A request that carries a token changes the caller's record only. *)
Lemma touches_only_step (sec : SecurityConfig) (db : DatabaseConfig)
    (s : State) (r : Request) (tok : string) :
  request_token r = Some tok ->
  touches_only tok s (step sec db s r).
Proof.
  assert (Hgen : forall now (k : PeerData -> PeerData),
    touches_only tok s
      match _validate_token now tok s with
      | Some (p, s1) => with_peers (Dict.set (peers s1) tok (k p)) s1
      | None => s
      end).
  { intros now k. destruct (_validate_token now tok s) as [[p s1]|] eqn:Hval.
    - destruct (touches_only_validate _ _ _ _ _ Hval) as [H1 Hget].
      eapply touches_only_trans; [exact H1|].
      now apply touches_only_update with (r := p).
    - apply touches_only_refl. }
  assert (Hread : forall now,
    touches_only tok s
      match _validate_token now tok s with Some (_, s1) => s1 | None => s end).
  { intros now. destruct (_validate_token now tok s) as [[p s1]|] eqn:Hval.
    - now destruct (touches_only_validate _ _ _ _ _ Hval).
    - apply touches_only_refl. }
  destruct r; simpl; intros [= <-].
  - specialize (Hgen now (set_is_online false)). unfold Logout.
    now destruct (_validate_token now tok0 s) as [[p s1]|].
  - unfold Index. destruct (index_loop fs) as [files' n].
    specialize (Hgen now (set_files files')).
    now destruct (_validate_token now tok0 s) as [[p s1]|].
  - specialize (Hread now). unfold Search.
    now destruct (_validate_token now (sr_token req) s) as [[p s1]|].
  - specialize (Hread now). unfold GetPeerInfo.
    now destruct (_validate_token now tok0 s) as [[p s1]|].
  - specialize (Hread now). unfold Heartbeat.
    now destruct (_validate_token now tok0 s) as [[p s1]|].
Qed.

(** X3.  The five operations that validate a token change nothing but the
    caller's own record: the stored tokens and their order, every other
    record, both indexes and the token counter are as before. *)
Theorem authenticated_request_frame (sec : SecurityConfig) (db : DatabaseConfig)
    (s : State) (r : Request) (tok : string) :
  request_token r = Some tok ->
  touches_only tok s (step sec db s r).
Proof. exact (touches_only_step sec db s r tok). Qed.

Lemma authenticated_request_frame_witness :
  touches_only tokB two_peers
    (step default_security default_database two_peers (ReqSearch 7 bob_searches_hello)).
Proof.
  apply (authenticated_request_frame default_security default_database two_peers
           (ReqSearch 7 bob_searches_hello) tokB).
  reflexivity.
Defined.

Lemma keys_set_either {V} (d : list (string * V)) k v :
  Dict.keys (Dict.set d k v) =
    (Dict.keys d ++ match Dict.get d k with Some _ => [] | None => [k] end)%list.
Proof.
  destruct (Dict.get d k) as [v0|] eqn:E.
  - rewrite (DictFacts.keys_set_present _ _ _ _ E). now rewrite app_nil_r.
  - now rewrite (DictFacts.keys_set_absent _ _ _ E).
Qed.

(** X5.  Only the sweep removes records.  After any other request every
    token stored before is still stored, in the same place, and at most one
    new token was added, at the end. *)
Theorem only_sweep_removes (sec : SecurityConfig) (db : DatabaseConfig)
    (s : State) (r : Request) :
  is_sweep r = false ->
  exists added,
    Dict.keys (peers (step sec db s r)) = (Dict.keys (peers s) ++ added)%list /\
    (length added <= 1)%nat.
Proof.
  intros Hr.
  assert (Hsame : forall tok, touches_only tok s (step sec db s r) ->
            exists added,
              Dict.keys (peers (step sec db s r)) = (Dict.keys (peers s) ++ added)%list /\
              (length added <= 1)%nat).
  { intros tok (K & _). exists []. rewrite K, app_nil_r. split; [reflexivity | simpl; lia]. }
  destruct (request_token r) as [tok|] eqn:Hrt.
  { apply (Hsame tok). now apply touches_only_step. }
  destruct r; try discriminate. clear Hr Hrt Hsame. simpl.
  assert (Hcreate : forall s0,
    Dict.keys (peers s0) = Dict.keys (peers s) ->
    exists added,
      Dict.keys (peers (snd (login_create now minted req s0)))
        = (Dict.keys (peers s) ++ added)%list /\ (length added <= 1)%nat).
  { intros s0 K. simpl. rewrite keys_set_either, K. eexists. split; [reflexivity|].
    destruct (Dict.get (peers s0) minted); simpl; lia. }
  assert (Hnone : exists added,
    Dict.keys (peers s) = (Dict.keys (peers s) ++ added)%list /\ (length added <= 1)%nat).
  { exists []. rewrite app_nil_r. split; [reflexivity | simpl; lia]. }
  assert (Hattempt : exists added,
    Dict.keys (peers (snd (login_attempt sec now minted req s)))
      = (Dict.keys (peers s) ++ added)%list /\ (length added <= 1)%nat).
  { unfold login_attempt.
    destruct (truthy (username_index s !! lr_username req)); [|now apply Hcreate].
    destruct (Dict.get (peers s) _) as [peer|] eqn:Hget; [|exact Hnone].
    assert (K : Dict.keys (Dict.set (peers s)
                  (default "" (username_index s !! lr_username req))
                  (set_login_attempts (login_attempts peer + 1) peer)) = Dict.keys (peers s)).
    { now apply DictFacts.keys_set_present with (v0 := peer). }
    destruct (_ >? _).
    - simpl. rewrite K. exact Hnone.
    - apply Hcreate. exact K. }
  unfold Login.
  destruct (truthy (username_index s !! lr_username req)); [|exact Hattempt].
  destruct (Dict.get (peers s) _) as [peer|] eqn:Hget; [|exact Hattempt].
  destruct (_ && _); [|exact Hattempt].
  simpl. rewrite (DictFacts.keys_set_present _ _ _ _ Hget). exact Hnone.
Qed.

Lemma only_sweep_removes_witness :
  exists added,
    Dict.keys (peers (step default_security default_database two_peers
                           (ReqLogin 9 tokC alice_h2)))
      = (Dict.keys (peers two_peers) ++ added)%list /\ (length added <= 1)%nat.
Proof.
  apply (only_sweep_removes default_security default_database two_peers
           (ReqLogin 9 tokC alice_h2)).
  reflexivity.
Defined.

(** ** The sweep *)

Lemma inactive_tokens_spec (cutoff : Z) (ps : list (string * PeerData)) :
  inactive_tokens cutoff ps
  = List.map fst (List.filter (fun kv => last_seen (snd kv) <? cutoff) ps).
Proof.
  unfold inactive_tokens.
  now rewrite (fold_append_filter (fun kv => last_seen (snd kv) <? cutoff) fst).
Qed.

Lemma guarded_delete (m : gmap string string) (k : string) :
  (if bool_decide (is_Some (m !! k)) then delete k m else m) = delete k m.
Proof.
  destruct (bool_decide (is_Some (m !! k))) eqn:E; [reflexivity|].
  apply bool_decide_eq_false in E. symmetry. apply delete_id.
  destruct (m !! k) eqn:El; [|reflexivity]. exfalso. apply E. now eexists.
Qed.

Lemma cleanup_one_present (s : State) (tok : string) (r : PeerData) :
  Dict.get (peers s) tok = Some r ->
  cleanup_one s tok =
    Some {| peers := Dict.del (peers s) tok;
            peer_index := delete (peer_id r) (peer_index s);
            username_index := delete (username r) (username_index s);
            token_counter := token_counter s |}.
Proof. intros Hget. unfold cleanup_one. rewrite Hget. now rewrite !guarded_delete. Qed.

Lemma In_get_NoDup {V} (d : list (string * V)) k v :
  List.NoDup (Dict.keys d) -> In (k, v) d -> Dict.get d k = Some v.
Proof.
  induction d as [|[k0 v0] d IH]; simpl; [intros _ []|].
  intros Hnd [Heq|Hin].
  - injection Heq as -> ->. now rewrite String.eqb_refl.
  - inversion Hnd as [|x l Hnotin Hnd']; subst.
    destruct (String.eqb_spec k0 k) as [->|Hne]; [|now apply IH].
    exfalso. apply Hnotin. apply in_map_iff. now exists (k, v).
Qed.

Lemma NoDup_keys_filter {V} (f : string * V -> bool) (d : list (string * V)) :
  List.NoDup (Dict.keys d) -> List.NoDup (Dict.keys (List.filter f d)).
Proof.
  induction d as [|kv d IH]; simpl; [auto|]. intros Hnd.
  inversion Hnd as [|x l Hnotin Hnd']; subst.
  destruct (f kv); simpl; [|now apply IH].
  constructor; [|now apply IH]. intros Hin. apply Hnotin.
  unfold Dict.keys in *. apply in_map_iff in Hin. destruct Hin as (kv' & E & Hin).
  apply filter_In in Hin. apply in_map_iff. exists kv'. tauto.
Qed.

(** The second loop of the sweep, for distinct tokens that are all stored. *)
Lemma cleanup_loop_spec (toks : list string) (s : State) :
  List.NoDup toks ->
  (forall t, In t toks -> Dict.get (peers s) t <> None) ->
  let s' := cleanup_loop s toks in
  peers s' = List.filter (fun kv => negb (existsb (String.eqb (fst kv)) toks)) (peers s) /\
  token_counter s' = token_counter s /\
  (forall t r, In t toks -> Dict.get (peers s) t = Some r ->
     peer_index s' !! peer_id r = None /\ username_index s' !! username r = None) /\
  (forall k, peer_index s !! k = None -> peer_index s' !! k = None) /\
  (forall k, username_index s !! k = None -> username_index s' !! k = None) /\
  (forall k, (forall t r, In t toks -> Dict.get (peers s) t = Some r -> peer_id r <> k) ->
     peer_index s' !! k = peer_index s !! k) /\
  (forall k, (forall t r, In t toks -> Dict.get (peers s) t = Some r -> username r <> k) ->
     username_index s' !! k = username_index s !! k).
Proof.
  revert s. induction toks as [|tok toks IH]; intros s Hnd Hpres; cbv zeta.
  - simpl. split; [|split; [|split; [|split; [|split; [|split]]]]]; auto.
    + symmetry. induction (peers s) as [|kv l IHl]; [reflexivity|].
      simpl. now rewrite IHl.
    + intros t r [].
  - inversion Hnd as [|x l Hnotin Hnd']; subst.
    destruct (Dict.get (peers s) tok) as [r0|] eqn:Hget;
      [|exfalso; apply (Hpres tok); [now left | exact Hget]].
    simpl cleanup_loop. rewrite (cleanup_one_present s tok r0 Hget).
    set (s1 := {| peers := Dict.del (peers s) tok;
                  peer_index := delete (peer_id r0) (peer_index s);
                  username_index := delete (username r0) (username_index s);
                  token_counter := token_counter s |}).
    assert (Hother : forall t, In t toks -> Dict.get (peers s1) t = Dict.get (peers s) t).
    { intros t Hin. simpl. apply DictFacts.get_del_ne. intros ->. contradiction. }
    assert (Hpres1 : forall t, In t toks -> Dict.get (peers s1) t <> None).
    { intros t Hin. rewrite (Hother t Hin). apply Hpres. now right. }
    destruct (IH s1 Hnd' Hpres1) as (Hp & Hc & Hgone & Hpn & Hun & Hpk & Huk).
    split; [|split; [|split; [|split; [|split; [|split]]]]].
    + rewrite Hp. simpl peers. unfold Dict.del. rewrite filter_filter.
      apply filter_ext. intros kv. simpl. now rewrite negb_orb.
    + rewrite Hc. reflexivity.
    + intros t r [<-|Hin] Hr.
      * rewrite Hget in Hr. injection Hr as <-. split.
        -- apply Hpn. simpl. apply lookup_delete_eq.
        -- apply Hun. simpl. apply lookup_delete_eq.
      * apply (Hgone t r Hin). now rewrite (Hother t Hin).
    + intros k Hk. apply Hpn. simpl. rewrite lookup_delete. now destruct (decide _).
    + intros k Hk. apply Hun. simpl. rewrite lookup_delete. now destruct (decide _).
    + intros k Hk. rewrite Hpk.
      * simpl. apply lookup_delete_ne. apply (Hk tok r0); [now left | exact Hget].
      * intros t r Hin Hr. apply (Hk t r); [now right|]. now rewrite <- (Hother t Hin).
    + intros k Hk. rewrite Huk.
      * simpl. apply lookup_delete_ne. apply (Hk tok r0); [now left | exact Hget].
      * intros t r Hin Hr. apply (Hk t r); [now right|]. now rewrite <- (Hother t Hin).
Qed.

Lemma stale_tokens (db : DatabaseConfig) (now : Z) (ps : list (string * PeerData)) :
  List.NoDup (Dict.keys ps) ->
  forall kv, In kv ps ->
    existsb (String.eqb (fst kv)) (inactive_tokens (now - peer_timeout db) ps)
    = stale db now (snd kv).
Proof.
  intros Hnd [k v] Hin. rewrite inactive_tokens_spec. simpl. unfold stale.
  destruct (last_seen v <? now - peer_timeout db) eqn:E.
  - apply existsb_exists. exists k. split; [|apply String.eqb_refl].
    apply in_map_iff. exists (k, v). split; [reflexivity|]. apply filter_In. auto.
  - apply not_true_is_false. intros H. apply existsb_exists in H.
    destruct H as (k' & Hk' & Heq). apply String.eqb_eq in Heq. subst k'.
    apply in_map_iff in Hk'. destruct Hk' as ([k1 v1] & E1 & Hf). simpl in E1. subst k1.
    apply filter_In in Hf. destruct Hf as [Hin1 Hst]. simpl in Hst.
    pose proof (In_get_NoDup _ _ _ Hnd Hin) as G.
    pose proof (In_get_NoDup _ _ _ Hnd Hin1) as G1.
    rewrite G in G1. injection G1 as <-. congruence.
Qed.

(** What the sweep removes and what it keeps. *)
Lemma cleanup_inactive_peers_spec (db : DatabaseConfig) (now : Z) (s : State) :
  List.NoDup (Dict.keys (peers s)) ->
  let s' := _cleanup_inactive_peers db now s in
  peers s' = List.filter (fun kv => negb (stale db now (snd kv))) (peers s) /\
  token_counter s' = token_counter s /\
  (forall t r, In (t, r) (peers s) -> stale db now r = true ->
     Dict.get (peers s') t = None /\
     peer_index s' !! peer_id r = None /\ username_index s' !! username r = None) /\
  (forall k, (forall t r, In (t, r) (peers s) -> stale db now r = true -> peer_id r <> k) ->
     peer_index s' !! k = peer_index s !! k) /\
  (forall k, (forall t r, In (t, r) (peers s) -> stale db now r = true -> username r <> k) ->
     username_index s' !! k = username_index s !! k).
Proof.
  intros Hnd. cbv zeta. unfold _cleanup_inactive_peers.
  set (toks := inactive_tokens (now - peer_timeout db) (peers s)).
  assert (Htoks : forall t, In t toks <->
            exists r, In (t, r) (peers s) /\ stale db now r = true).
  { intros t. unfold toks. rewrite inactive_tokens_spec, in_map_iff. split.
    - intros ([k v] & <- & Hf). apply filter_In in Hf. now exists v.
    - intros (r & Hin & Hst). exists (t, r). split; [reflexivity|].
      apply filter_In. auto. }
  assert (Hndt : List.NoDup toks).
  { unfold toks. rewrite inactive_tokens_spec. now apply NoDup_keys_filter. }
  assert (Hpres : forall t, In t toks -> Dict.get (peers s) t <> None).
  { intros t Hin. apply Htoks in Hin. destruct Hin as (r & Hin & _).
    now rewrite (In_get_NoDup _ _ _ Hnd Hin). }
  destruct (cleanup_loop_spec toks s Hndt Hpres) as (Hp & Hc & Hgone & _ & _ & Hpk & Huk).
  assert (Hpeers : peers (cleanup_loop s toks)
                   = List.filter (fun kv => negb (stale db now (snd kv))) (peers s)).
  { rewrite Hp. apply filter_ext_in. intros kv Hin. unfold toks.
    now rewrite (stale_tokens db now (peers s) Hnd kv Hin). }
  split; [exact Hpeers|]. split; [exact Hc|]. split; [|split].
  - intros t r Hin Hst. split.
    + rewrite Hpeers. apply DictFacts.get_None_keys. intros Hk.
      unfold Dict.keys in Hk. apply in_map_iff in Hk. destruct Hk as ([k v] & E & Hf).
      simpl in E. subst k. apply filter_In in Hf. destruct Hf as [Hin' Hns]. simpl in Hns.
      pose proof (In_get_NoDup _ _ _ Hnd Hin) as G.
      pose proof (In_get_NoDup _ _ _ Hnd Hin') as G'.
      rewrite G in G'. injection G' as <-. rewrite Hst in Hns. discriminate.
    + apply (Hgone t r).
      * apply Htoks. now exists r.
      * now apply In_get_NoDup.
  - intros k Hk. apply Hpk. intros t r Hin Hr. apply Htoks in Hin.
    destruct Hin as (r' & Hin & Hst). rewrite (In_get_NoDup _ _ _ Hnd Hin) in Hr.
    injection Hr as <-. now apply (Hk t r').
  - intros k Hk. apply Huk. intros t r Hin Hr. apply Htoks in Hin.
    destruct Hin as (r' & Hin & Hst). rewrite (In_get_NoDup _ _ _ Hnd Hin) in Hr.
    injection Hr as <-. now apply (Hk t r').
Qed.

(** X6.  The sweep at time [now] removes exactly the records whose
    [last_seen] is older than [now - peer_timeout], online or not, and keeps
    the others in their order.  For each removed record the entries of
    [peer_index] and [username_index] under its peer id and user name are
    removed; index entries under other keys, and the token counter, are
    untouched. *)
Theorem sweep_exact (db : DatabaseConfig) (now : Z) (s : State) :
  List.NoDup (Dict.keys (peers s)) ->
  let s' := _cleanup_inactive_peers db now s in
  peers s' = List.filter (fun kv => negb (stale db now (snd kv))) (peers s) /\
  token_counter s' = token_counter s /\
  (forall t r, In (t, r) (peers s) -> stale db now r = true ->
     Dict.get (peers s') t = None /\
     peer_index s' !! peer_id r = None /\ username_index s' !! username r = None) /\
  (forall k, (forall t r, In (t, r) (peers s) -> stale db now r = true -> peer_id r <> k) ->
     peer_index s' !! k = peer_index s !! k) /\
  (forall k, (forall t r, In (t, r) (peers s) -> stale db now r = true -> username r <> k) ->
     username_index s' !! k = username_index s !! k).
Proof. exact (cleanup_inactive_peers_spec db now s). Qed.

Ltac distinct_keys :=
  vm_compute; repeat constructor; simpl; intros H; decompose [or] H;
  try discriminate; try contradiction.

Lemma sweep_exact_witness :
  Dict.keys (peers (_cleanup_inactive_peers default_database 150 bob_alive)) = [tokB].
Proof.
  rewrite (proj1 (sweep_exact default_database 150 bob_alive ltac:(distinct_keys))).
  reflexivity.
Defined.

(** X7.  Sweeping twice at the same time is the same as sweeping once. *)
Theorem sweep_idempotent (db : DatabaseConfig) (now : Z) (s : State) :
  List.NoDup (Dict.keys (peers s)) ->
  _cleanup_inactive_peers db now (_cleanup_inactive_peers db now s)
  = _cleanup_inactive_peers db now s.
Proof.
  assert (E : forall l : list (string * PeerData),
            List.filter
              (fun x => negb (stale db now (snd x))
                        && (last_seen (snd x) <? now - peer_timeout db)) l = []).
  { induction l as [|kv l IHl]; simpl; [reflexivity|].
    destruct (stale db now (snd kv)) eqn:E1; simpl; [exact IHl|].
    unfold stale in E1. rewrite E1. exact IHl. }
  intros Hnd. destruct (cleanup_inactive_peers_spec db now s Hnd) as (Hp & _).
  set (s' := _cleanup_inactive_peers db now s) in *.
  unfold _cleanup_inactive_peers at 1.
  now rewrite inactive_tokens_spec, Hp, filter_filter, E.
Qed.

Lemma sweep_idempotent_witness :
  _cleanup_inactive_peers default_database 150
    (_cleanup_inactive_peers default_database 150 bob_alive)
  = _cleanup_inactive_peers default_database 150 bob_alive.
Proof. apply (sweep_idempotent default_database 150 bob_alive). distinct_keys. Defined.

Lemma Login_unindexed (cfg : SecurityConfig) (now : Z) (minted : string)
    (req : LoginRequest) (s : State) :
  username_index s !! lr_username req = None ->
  Login cfg now minted req s = login_create now minted req s.
Proof. intros H. unfold Login, login_attempt. now rewrite H. Qed.

(** X8.  An identity the sweep removed is gone: the old token is refused,
    and the next [Login] under the removed record's user name, from any
    host, is a new registration that returns the newly minted token. *)
Theorem swept_identity_is_new (cfg : SecurityConfig) (db : DatabaseConfig)
    (now now' : Z) (minted : string) (req : LoginRequest) (s : State)
    (t : string) (r : PeerData) :
  List.NoDup (Dict.keys (peers s)) ->
  In (t, r) (peers s) ->
  stale db now r = true ->
  lr_username req = username r ->
  let s' := _cleanup_inactive_peers db now s in
  _validate_token now' t s' = None /\
  lresp_success (fst (Login cfg now' minted req s')) = true /\
  lresp_token (fst (Login cfg now' minted req s')) = minted /\
  lresp_message (fst (Login cfg now' minted req s')) = Login_exitoso /\
  Dict.get (peers (snd (Login cfg now' minted req s'))) minted
    = Some (new_peer now' minted req).
Proof.
  intros Hnd Hin Hst Hu. cbv zeta.
  destruct (cleanup_inactive_peers_spec db now s Hnd) as (_ & _ & Hgone & _).
  destruct (Hgone t r Hin Hst) as (Hget & _ & Hidx).
  split; [unfold _validate_token; now rewrite Hget|].
  rewrite Login_unindexed by (now rewrite Hu). simpl.
  repeat split. apply DictFacts.get_set_eq.
Qed.

Lemma swept_identity_is_new_witness :
  lresp_token (fst (Login default_security 160 tokC alice_h1
                      (_cleanup_inactive_peers default_database 150 bob_alive))) = tokC.
Proof.
  refine (proj1 (proj2 (proj2
    (swept_identity_is_new default_security default_database 150 160 tokC alice_h1
       bob_alive tokA _ ltac:(distinct_keys) _ _ _)))).
  - vm_compute. left. reflexivity.
  - reflexivity.
  - reflexivity.
Defined.

(** Stored tokens stay distinct, as the keys of a dictionary are. *)
Lemma NoDup_keys_cleanup_loop (toks : list string) (s : State) :
  List.NoDup (Dict.keys (peers s)) -> List.NoDup (Dict.keys (peers (cleanup_loop s toks))).
Proof.
  revert s. induction toks as [|tok toks IH]; intros s Hnd; simpl; [exact Hnd|].
  unfold cleanup_one. destruct (Dict.get (peers s) tok); [|exact Hnd].
  apply IH. simpl. now apply NoDup_keys_filter.
Qed.

Lemma NoDup_keys_step (sec : SecurityConfig) (db : DatabaseConfig) (s : State) (r : Request) :
  List.NoDup (Dict.keys (peers s)) -> List.NoDup (Dict.keys (peers (step sec db s r))).
Proof.
  intros Hnd.
  assert (Hval : forall now tok p s1,
            _validate_token now tok s = Some (p, s1) -> List.NoDup (Dict.keys (peers s1))).
  { intros now tok p s1 Hv. destruct (validate_Some _ _ _ _ _ Hv) as (r0 & _ & _ & _ & ->).
    simpl. now apply DictFacts.NoDup_keys_set. }
  destruct r; simpl.
  - unfold Login, login_attempt, login_create.
    repeat match goal with
           | |- context [match ?x with _ => _ end] => destruct x
           end; simpl; repeat apply DictFacts.NoDup_keys_set; exact Hnd.
  - unfold Logout. destruct (_validate_token now tok s) as [[p s1]|] eqn:Hv; [|exact Hnd].
    simpl. apply DictFacts.NoDup_keys_set. now apply (Hval now tok p).
  - unfold Index. destruct (_validate_token now tok s) as [[p s1]|] eqn:Hv; [|exact Hnd].
    destruct (index_loop fs). simpl. apply DictFacts.NoDup_keys_set. now apply (Hval now tok p).
  - unfold Search. destruct (_validate_token now (sr_token req) s) as [[p s1]|] eqn:Hv;
      [|exact Hnd]. simpl. now apply (Hval now (sr_token req) p).
  - unfold GetPeerInfo. destruct (_validate_token now tok s) as [[p s1]|] eqn:Hv; [|exact Hnd].
    simpl. now apply (Hval now tok p).
  - unfold Heartbeat. destruct (_validate_token now tok s) as [[p s1]|] eqn:Hv; [|exact Hnd].
    simpl. now apply (Hval now tok p).
  - unfold _cleanup_inactive_peers. now apply NoDup_keys_cleanup_loop.
Qed.

Lemma NoDup_keys_run (sec : SecurityConfig) (db : DatabaseConfig) (rs : list Request) (s : State) :
  List.NoDup (Dict.keys (peers s)) -> List.NoDup (Dict.keys (peers (run sec db s rs))).
Proof.
  revert s. induction rs as [|r rs IH]; intros s Hnd; simpl; [exact Hnd|].
  apply IH. now apply NoDup_keys_step.
Qed.

(** ** Peer lists and counts *)

Lemma values_In {V} (d : list (string * V)) k v : In (k, v) d -> In v (Dict.values d).
Proof. intros H. unfold Dict.values. apply in_map_iff. now exists (k, v). Qed.

(** X9.  For a valid token, [GetPeerInfo] lists exactly the online records,
    in registry order, the caller included with its refreshed [last_seen];
    [Heartbeat] at the same moment reports the length of that list as
    [active_peers], as does [get_stats]; the count is at least 1 and at most
    the number of stored records. *)
Theorem GetPeerInfo_Heartbeat_agree (now : Z) (tok : string) (s : State)
    (p : PeerData) (s1 : State) :
  _validate_token now tok s = Some (p, s1) ->
  let listed := presp_peers (fst (GetPeerInfo now tok s)) in
  let n := hresp_active_peers (fst (Heartbeat now tok s)) in
  listed = List.map peer_info_of (List.filter is_online (Dict.values (peers s1))) /\
  In (peer_info_of p) listed /\ last_seen p = now /\
  n = Z.of_nat (length listed) /\
  active_peers (get_stats s1) = n /\
  1 <= n <= total_peers (get_stats s).
Proof.
  intros Hval. cbv zeta. unfold GetPeerInfo, Heartbeat, get_stats. rewrite Hval. simpl.
  rewrite (fold_append_filter is_online peer_info_of), fold_count_filter. simpl.
  destruct (validate_Some _ _ _ _ _ Hval) as (r & Hget & Hon & -> & ->).
  rewrite length_map.
  assert (Hin : In (set_last_seen now r)
                   (List.filter is_online
                      (Dict.values (Dict.set (peers s) tok (set_last_seen now r))))).
  { apply filter_In. split; [|exact Hon].
    apply values_In with (k := tok). apply DictFacts.get_Some_In, DictFacts.get_set_eq. }
  split; [reflexivity|]. split; [now apply in_map|]. split; [reflexivity|].
  split; [reflexivity|]. split; [reflexivity|].
  simpl peers in *.
  pose proof (filter_length_le is_online
                (Dict.values (Dict.set (peers s) tok (set_last_seen now r)))) as Hle.
  unfold Dict.values in Hle at 2. rewrite length_map, length_set, Hget in Hle.
  split; [|lia].
  destruct (List.filter is_online _) as [|x l]; [destruct Hin | simpl; lia].
Qed.

Lemma GetPeerInfo_Heartbeat_agree_witness :
  hresp_active_peers (fst (Heartbeat 7 tokB two_peers))
  = Z.of_nat (length (presp_peers (fst (GetPeerInfo 7 tokB two_peers)))).
Proof.
  refine (proj1 (proj2 (proj2 (proj2
    (GetPeerInfo_Heartbeat_agree 7 tokB two_peers _ _ _))))).
  reflexivity.
Defined.

(** ** Publishing and finding *)

Lemma prefix_refl (s : string) : String.prefix s s = true.
Proof.
  induction s as [|c s IH]; [reflexivity|].
  change (String.prefix (String c s) (String c s))
    with (if ascii_dec c c then String.prefix s s else false).
  now destruct (ascii_dec c c).
Qed.

Lemma contains_unfold (needle hay : string) :
  contains needle hay =
    String.prefix needle hay
    || match hay with EmptyString => false | String _ hay' => contains needle hay' end.
Proof. destruct hay; reflexivity. Qed.

Lemma contains_refl (s : string) : contains s s = true.
Proof. rewrite contains_unfold. now rewrite prefix_refl. Qed.

Lemma lower_nonempty (s : string) : s <> "" -> nonempty (lower s) = true.
Proof. destruct s; [congruence | reflexivity]. Qed.

(** X10.  What one peer publishes another finds.  After peer A published a
    list containing a file with a non-empty name, a search for that name by
    any other logged-in peer returns a result that carries the entry stored
    for that name (the last one supplied under it), A's peer id, user name,
    host and port, and the URL [http://{A.url}:{A.port}/download/{name}]. *)
Theorem Index_then_Search_finds (nowA nowB : Z) (tokA' tokB' : string)
    (fs : list FileMetadata) (f : FileMetadata) (s : State)
    (pa : PeerData) (sa : State) (rb : PeerData) :
  _validate_token nowA tokA' s = Some (pa, sa) ->
  Dict.get (peers s) tokB' = Some rb -> is_online rb = true ->
  tokA' <> tokB' ->
  In f fs -> filename f <> "" ->
  let s1 := snd (Index nowA tokA' fs s) in
  let results := sresp_results (fst (Search nowB (search_by_name tokB' (filename f)) s1)) in
  exists stored r,
    last_write_wins fs (filename f) = Some stored /\
    In stored fs /\ filename stored = filename f /\
    In r results /\
    file_info r = stored /\
    pi_peer_id (peer_info r) = peer_id pa /\ pi_username (peer_info r) = username pa /\
    pi_url (peer_info r) = url pa /\ pi_port (peer_info r) = port pa /\
    download_url r = "http://" +:+ url pa +:+ ":" +:+ str_of_Z (port pa)
                     +:+ "/download/" +:+ filename f /\
    is_available r = true.
Proof.
  intros Hval Hb Hbon Hne Hf Hname. cbv zeta.
  destruct (last_write_wins fs (filename f)) as [stored|] eqn:Hlww.
  2:{ exfalso. apply last_write_wins_None in Hlww. apply Hlww. now apply in_map. }
  assert (Hstored : In stored fs /\ filename stored = filename f).
  { unfold last_write_wins in Hlww. apply find_some in Hlww. destruct Hlww as [Hin Heq].
    split; [now apply in_rev | now apply String.eqb_eq]. }
  destruct (validate_Some _ _ _ _ _ Hval) as (ra & Hgeta & Hona & -> & ->).
  unfold Index. rewrite Hval. unfold index_loop. rewrite index_loop_from. simpl snd.
  set (files' := fold_left store_file fs []).
  set (recA := set_files files' (set_last_seen nowA ra)).
  match goal with |- context [Search nowB _ ?st] => set (s1 := st) end.
  assert (HgetB : Dict.get (peers s1) tokB' = Some rb).
  { unfold s1. simpl. now rewrite !DictFacts.get_set_ne. }
  assert (HvalB : _validate_token nowB tokB' s1
                  = Some (set_last_seen nowB rb,
                          with_peers (Dict.set (peers s1) tokB' (set_last_seen nowB rb)) s1)).
  { unfold _validate_token. now rewrite HgetB, Hbon. }
  rewrite (Search_authenticated nowB (search_by_name tokB' (filename f)) s1 _ _ HvalB).
  simpl sresp_results. simpl sr_filename. simpl sr_file_pattern. simpl sr_token.
  exists stored, (location_of recA (filename f, stored)).
  split; [reflexivity|]. split; [tauto|]. split; [tauto|]. split.
  - apply in_search_spec. exists tokA', recA, (filename f), stored.
    split; [|split; [|split; [|split; [|split]]]].
    + unfold s1. simpl. apply DictFacts.get_Some_In, DictFacts.get_set_eq.
    + exact Hona.
    + exact Hne.
    + simpl. apply DictFacts.get_Some_In. unfold files'. rewrite get_stored. now rewrite Hlww.
    + unfold spec_match. rewrite lower_nonempty by exact Hname. now rewrite contains_refl.
    + reflexivity.
  - simpl. repeat split.
Qed.

Lemma Index_then_Search_finds_witness :
  exists stored r,
    last_write_wins [hello_txt; notes_md] "Notes.md" = Some stored /\
    In r (sresp_results
            (fst (Search 9 (search_by_name tokB "Notes.md")
                    (snd (Index 8 tokA [hello_txt; notes_md] two_peers))))) /\
    file_info r = stored.
Proof.
  destruct (Index_then_Search_finds 8 9 tokA tokB [hello_txt; notes_md] notes_md two_peers
              _ _ _ eq_refl eq_refl eq_refl ltac:(discriminate)
              ltac:(right; left; reflexivity) ltac:(discriminate))
    as (stored & r & H1 & _ & _ & H2 & H3 & _).
  exists stored, r. auto.
Defined.

(** ** Refused logins *)

Lemma set_login_attempts_twice (a b : Z) (r : PeerData) :
  set_login_attempts b (set_login_attempts a r) = set_login_attempts b r.
Proof. reflexivity. Qed.

Lemma set_login_attempts_same (r : PeerData) :
  set_login_attempts (login_attempts r + 0) r = r.
Proof. destruct r. unfold set_login_attempts. simpl. f_equal. lia. Qed.

Lemma login_run_refused (cfg : SecurityConfig) (attempts : list (Z * string * LoginRequest)) :
  forall (s : State) (t : string) (r : PeerData),
  username_index s !! username r = Some t ->
  t <> "" ->
  Dict.get (peers s) t = Some r ->
  max_login_attempts cfg <= login_attempts r ->
  Forall (fun a => lr_username (snd a) = username r /\ lr_peer_url (snd a) <> url r)
         attempts ->
  Forall (fun resp => lresp_success resp = false /\
                      lresp_message resp = Demasiados_intentos_de_login_fallidos)
         (fst (login_run cfg s attempts)) /\
  length (fst (login_run cfg s attempts)) = length attempts /\
  touches_only t s (snd (login_run cfg s attempts)) /\
  Dict.get (peers (snd (login_run cfg s attempts))) t
    = Some (set_login_attempts (login_attempts r + Z.of_nat (length attempts)) r).
Proof.
  induction attempts as [|[[now minted] req] rest IH]; intros s t r Hidx Ht Hget Hmax Hall.
  - simpl. split; [constructor|]. split; [reflexivity|]. split; [apply touches_only_refl|].
    now rewrite set_login_attempts_same.
  - inversion Hall as [|a l [Hu Hh] Hrest]; subst. simpl in Hu, Hh.
    simpl login_run.
    assert (Hidx' : username_index s !! lr_username req = Some t) by now rewrite Hu.
    assert (Hh' : url r <> lr_peer_url req) by congruence.
    rewrite (Login_other_host cfg now minted req s t r Hidx' Ht Hget Hh'). cbv zeta.
    assert (E : (login_attempts r + 1 >? max_login_attempts cfg) = true) by lia.
    rewrite E.
    set (r1 := set_login_attempts (login_attempts r + 1) r).
    set (s1 := with_peers (Dict.set (peers s) t r1) s).
    destruct (IH s1 t r1) as (Hf & Hl & Hto & Hg).
    + exact Hidx.
    + exact Ht.
    + simpl. apply DictFacts.get_set_eq.
    + simpl. lia.
    + exact Hrest.
    + destruct (login_run cfg s1 rest) as [resps s2]. simpl in *.
      split; [constructor; [now split | exact Hf]|]. split; [now rewrite Hl|].
      split.
      * eapply touches_only_trans; [|exact Hto].
        now apply touches_only_update with (r := r).
      * rewrite Hg. f_equal. unfold r1. rewrite set_login_attempts_twice.
        f_equal. lia.
Qed.

(** X11.  Once the record a user name is indexed to has reached
    [max_login_attempts], every further [Login] for that name from another
    host is refused; each refusal adds one to the record's counter and
    changes nothing else.  The lock does not bar the stored host: a [Login]
    from it afterwards succeeds and returns the stored token. *)
Theorem lockout_is_sticky (cfg : SecurityConfig)
    (attempts : list (Z * string * LoginRequest)) (now : Z) (minted : string)
    (owner : LoginRequest) (s : State) (t : string) (r : PeerData) :
  username_index s !! username r = Some t ->
  t <> "" ->
  Dict.get (peers s) t = Some r ->
  max_login_attempts cfg <= login_attempts r ->
  Forall (fun a => lr_username (snd a) = username r /\ lr_peer_url (snd a) <> url r)
         attempts ->
  lr_username owner = username r -> lr_peer_url owner = url r ->
  let resps := fst (login_run cfg s attempts) in
  let s' := snd (login_run cfg s attempts) in
  length resps = length attempts /\
  Forall (fun resp => lresp_success resp = false /\
                      lresp_message resp = Demasiados_intentos_de_login_fallidos) resps /\
  touches_only t s s' /\
  login_attempts <$> Dict.get (peers s') t
    = Some (login_attempts r + Z.of_nat (length attempts)) /\
  lresp_success (fst (Login cfg now minted owner s')) = true /\
  lresp_token (fst (Login cfg now minted owner s')) = t.
Proof.
  intros Hidx Ht Hget Hmax Hall Hou Hoh. cbv zeta.
  destruct (login_run_refused cfg attempts s t r Hidx Ht Hget Hmax Hall)
    as (Hf & Hl & Hto & Hg).
  split; [exact Hl|]. split; [exact Hf|]. split; [exact Hto|].
  split; [now rewrite Hg|].
  destruct Hto as (_ & _ & _ & Hui & _).
  rewrite (Login_relogin cfg now minted owner _ t _ ltac:(rewrite Hui, Hou; exact Hidx)
             Ht Hg ltac:(simpl; congruence) ltac:(simpl; congruence)).
  now simpl.
Qed.

Lemma lockout_is_sticky_witness :
  let s := snd (Login strict_security 1 tokB alice_h2 (alice_registered strict_security)) in
  lresp_success
    (fst (Login strict_security 9 tokC alice_h1
            (snd (login_run strict_security s [(2, tokB, alice_h2); (3, tokC, alice_h2)]))))
  = true.
Proof.
  refine (proj1 (proj2 (proj2 (proj2 (proj2
    (lockout_is_sticky strict_security [(2, tokB, alice_h2); (3, tokC, alice_h2)] 9 tokC
       alice_h1 _ tokA (set_login_attempts 1 (new_peer 0 tokA alice_h1))
       _ _ _ _ _ _ _)))))).
  - reflexivity.
  - discriminate.
  - reflexivity.
  - simpl. lia.
  - repeat constructor; simpl; discriminate.
  - reflexivity.
  - reflexivity.
Defined.

(** ** The peers reported at login *)

Lemma connected_peers_loop_spec (ps : list (string * PeerData)) (tok : string) :
  connected_peers_loop ps tok
  = List.map peer_info_of
      (List.filter (fun p => is_online p && negb (String.eqb (token p) tok))
                   (Dict.values ps)).
Proof.
  unfold connected_peers_loop.
  now rewrite (fold_append_filter
                 (fun p => is_online p && negb (String.eqb (token p) tok)) peer_info_of).
Qed.

Lemma Login_connected_peers (cfg : SecurityConfig) (now : Z) (minted : string)
    (req : LoginRequest) (s : State) :
  lresp_success (fst (Login cfg now minted req s)) = true ->
  lresp_connected_peers (fst (Login cfg now minted req s))
  = connected_peers_loop (peers (snd (Login cfg now minted req s)))
                         (lresp_token (fst (Login cfg now minted req s))).
Proof.
  assert (Hattempt :
    lresp_success (fst (login_attempt cfg now minted req s)) = true ->
    lresp_connected_peers (fst (login_attempt cfg now minted req s))
    = connected_peers_loop (peers (snd (login_attempt cfg now minted req s)))
                           (lresp_token (fst (login_attempt cfg now minted req s)))).
  { unfold login_attempt.
    destruct (truthy (username_index s !! lr_username req)); [|reflexivity].
    destruct (Dict.get (peers s) _) as [peer|]; [|discriminate].
    destruct (_ >? _); [discriminate | reflexivity]. }
  unfold Login.
  destruct (truthy (username_index s !! lr_username req)); [|exact Hattempt].
  destruct (Dict.get (peers s) _) as [peer|]; [|exact Hattempt].
  destruct (_ && _); [reflexivity | exact Hattempt].
Qed.

(** X12.  The [connected_peers] of a successful [Login] are the other online
    peers at that moment: in a registry whose indexes agree with its
    records, for a re-login or a new identity, every online record stored
    under another token is reported, every reported peer is online, and none
    carries the peer id of the caller's own record. *)
Theorem Login_reports_other_online_peers (cfg : SecurityConfig) (now : Z)
    (minted : string) (req : LoginRequest) (s : State) :
  consistent s ->
  is_relogin s req || brings_new_identity s req = true ->
  lresp_success (fst (Login cfg now minted req s)) = true ->
  let T := lresp_token (fst (Login cfg now minted req s)) in
  let s' := snd (Login cfg now minted req s) in
  let reported := lresp_connected_peers (fst (Login cfg now minted req s)) in
  (forall t p, In (t, p) (peers s') -> is_online p = true -> t <> T ->
     In (peer_info_of p) reported) /\
  (forall pi, In pi reported -> pi_is_online pi = true) /\
  (forall own pi, Dict.get (peers s') T = Some own -> In pi reported ->
     pi_peer_id pi <> peer_id own).
Proof.
  intros Hc Hadm Hok. cbv zeta.
  rewrite (Login_connected_peers cfg now minted req s Hok), connected_peers_loop_spec.
  pose proof (consistent_Login cfg now minted req s Hc Hadm) as [Hk Hi].
  set (T := lresp_token (fst (Login cfg now minted req s))) in *.
  set (s' := snd (Login cfg now minted req s)) in *.
  split; [|split].
  - intros t p Hin Hon Hne. apply in_map. apply filter_In.
    split; [now apply values_In with (k := t)|].
    rewrite Hon. simpl. rewrite (Hk t p Hin).
    now destruct (String.eqb_spec t T).
  - intros pi Hin. apply in_map_iff in Hin. destruct Hin as (p & <- & Hf).
    apply filter_In in Hf. destruct Hf as [_ Hf]. apply andb_true_iff in Hf. tauto.
  - intros own pi Hown Hin Heq. apply in_map_iff in Hin. destruct Hin as (p & <- & Hf).
    apply filter_In in Hf. destruct Hf as [Hv Hf]. apply andb_true_iff in Hf.
    destruct Hf as [_ Hf]. unfold Dict.values in Hv. apply in_map_iff in Hv.
    destruct Hv as ([t p'] & E & Hin). simpl in E. subst p'.
    apply DictFacts.get_Some_In in Hown.
    destruct (Hi _ _ Hin) as [Hp _]. destruct (Hi _ _ Hown) as [Hp' _].
    simpl in Heq. rewrite Heq, Hp' in Hp. injection Hp as Hp.
    rewrite (Hk _ _ Hown) in Hp.
    rewrite <- Hp, String.eqb_refl in Hf. discriminate.
Qed.

Lemma Login_reports_other_online_peers_witness :
  Forall (fun pi => pi_is_online pi = true)
    (lresp_connected_peers (fst (Login default_security 9 tokC alice_h1 two_peers))).
Proof.
  apply Stdlib.Lists.List.Forall_forall.
  apply (proj1 (proj2 (Login_reports_other_online_peers default_security 9 tokC alice_h1
                         two_peers ltac:(apply (consistent_run default_security
                           default_database [ReqLogin 0 tokA alice_h1;
                             ReqIndex 1 tokA [hello_txt; notes_md];
                             ReqLogin 2 tokB bob_h2] init_state consistent_init eq_refl))
                         eq_refl eq_refl))).
Defined.

(** * Further properties of the peer's HTTP service *)

(** ** Sessions and the bearer header *)

Lemma prefix_app (a b : string) : String.prefix a (a +:+ b) = true.
Proof.
  induction a as [|c a IH]; [now destruct b|].
  change (String.prefix (String c a) (String c a +:+ b))
    with (if ascii_dec c c then String.prefix a (a +:+ b) else false).
  now destruct (ascii_dec c c).
Qed.

Lemma replace_skip_cons (old new : string) (c : ascii) (s : string) :
  replace_skip old new 0 (String c s) =
    if String.prefix old (String c s)
    then new +:+ replace_skip old new (String.length old - 1) s
    else String c (replace_skip old new 0 s).
Proof. reflexivity. Qed.

Lemma replace_skip_passes (old new pre rest : string) :
  replace_skip old new (String.length pre) (pre +:+ rest) = replace_skip old new 0 rest.
Proof.
  induction pre as [|c pre IH]; simpl; [|exact IH].
  destruct rest; reflexivity.
Qed.

Lemma replace_skip_absent (old new s : string) :
  contains old s = false -> replace_skip old new 0 s = s.
Proof.
  induction s as [|c s IH]; [reflexivity|].
  rewrite contains_unfold. intros H. apply orb_false_iff in H. destruct H as [Hp Hc].
  rewrite replace_skip_cons, Hp. now rewrite IH.
Qed.

(** Removing a leading occurrence of [old] from [old ++ rest]. *)
Lemma str_replace_leading (c : ascii) (old' rest : string) :
  contains (String c old') rest = false ->
  str_replace (String c old') "" (String c old' +:+ rest) = rest.
Proof.
  intros H. unfold str_replace.
  change (String c old' +:+ rest) with (String c (old' +:+ rest)).
  rewrite replace_skip_cons.
  change (String c (old' +:+ rest)) with (String c old' +:+ rest).
  rewrite prefix_app.
  replace (String.length (String c old') - 1)%nat with (String.length old') by (simpl; lia).
  rewrite replace_skip_passes. simpl. now apply replace_skip_absent.
Qed.

(** X13.  The bearer header.  A request without an [Authorization] header,
    with an empty one, or with one that does not start with [Bearer ] is
    answered 401.  A header [Bearer <token>], for a token that does not
    itself contain [Bearer ], is accepted exactly when a session is open and
    its token is this one; otherwise the answer is 401. *)
Theorem verify_auth_header (am : AuthManager) :
  _verify_auth am None = Raise (HTTPException 401) /\
  _verify_auth am (Some "") = Raise (HTTPException 401) /\
  (forall h, String.prefix "Bearer " h = false ->
     _verify_auth am (Some h) = Raise (HTTPException 401)) /\
  (forall tok, contains "Bearer " tok = false ->
     _verify_auth am (Some ("Bearer " +:+ tok)) =
       if logged_in am && bool_decide (session_token am = Some tok)
       then Return true else Raise (HTTPException 401)).
Proof.
  split; [reflexivity|]. split; [reflexivity|]. split.
  - intros h Hp. unfold _verify_auth. rewrite Hp. simpl. now destruct (negb (nonempty h)).
  - intros tok Hc. unfold _verify_auth.
    assert (Hne : nonempty ("Bearer " +:+ tok) = true) by reflexivity.
    rewrite Hne, prefix_app. simpl negb. cbv zeta.
    rewrite (str_replace_leading "B" "earer " tok Hc).
    unfold verify_token. destruct (logged_in am); [|reflexivity].
    rewrite !andb_true_l.
    destruct (bool_decide_reflect (session_token am = Some tok)) as [E|E].
    + rewrite E, String.eqb_refl. reflexivity.
    + destruct (session_token am) as [t|]; [|reflexivity].
      destruct (String.eqb_spec t tok) as [->|]; [congruence | reflexivity].
Qed.

Lemma verify_auth_header_witness :
  _verify_auth (snd (authenticate demo_auth demo_uuid 5 "peer-001" "alice" "secret"))
               (Some ("Bearer " +:+ demo_uuid))
  = Return true.
Proof.
  rewrite (proj2 (proj2 (proj2 (verify_auth_header
             (snd (authenticate demo_auth demo_uuid 5 "peer-001" "alice" "secret")))))
             demo_uuid eq_refl).
  reflexivity.
Defined.

(** X14.  [authenticate] opens a session exactly when the peer id, the user
    name and the password are all the configured ones.  A refused attempt
    changes nothing: a session already open stays valid.  An accepted one
    replaces the session token: the new token verifies and the previous one,
    if different, no longer does. *)
Theorem authenticate_session (am : AuthManager) (uuid : string) (now : Z)
    (pid user pw : string) :
  let ok := fst (fst (fst (authenticate am uuid now pid user pw))) in
  let am' := snd (authenticate am uuid now pid user pw) in
  (ok = true <->
     pid = cfg_peer_id (am_peer_config am) /\ user = cfg_username (am_peer_config am) /\
     pw = cfg_password (am_peer_config am)) /\
  (ok = false -> am' = am /\ snd (fst (authenticate am uuid now pid user pw)) = None) /\
  (ok = true ->
     snd (fst (authenticate am uuid now pid user pw)) = Some uuid /\
     verify_token am' uuid = true /\
     forall old, old <> uuid -> verify_token am' old = false).
Proof.
  cbv zeta. unfold authenticate.
  destruct (String.eqb_spec pid (cfg_peer_id (am_peer_config am))) as [Hp|Hp];
  destruct (String.eqb_spec user (cfg_username (am_peer_config am))) as [Hu|Hu];
  destruct (String.eqb_spec pw (cfg_password (am_peer_config am))) as [Hw|Hw];
  simpl; (split; [split; [intros H; try discriminate; auto | intros (? & ? & ?); congruence]|]);
  (split; [intros H; try discriminate; auto|]); intros H; try discriminate.
  split; [reflexivity|]. unfold verify_token. simpl. rewrite String.eqb_refl.
  split; [reflexivity|]. intros old Hne.
  destruct (String.eqb_spec uuid old); congruence.
Qed.

(** X15.  After [AuthManager.logout] no header is accepted, whatever it
    carries and whatever session was open before. *)
Theorem auth_logout_closes_session (am : AuthManager) (authorization : option string) :
  _verify_auth (auth_logout am) authorization = Raise (HTTPException 401).
Proof.
  unfold _verify_auth. destruct authorization as [a|]; [|reflexivity].
  destruct (negb (nonempty a)); [reflexivity|].
  destruct (negb (String.prefix "Bearer " a)); reflexivity.
Qed.

Lemma authenticate_session_witness :
  verify_token (snd (authenticate demo_auth demo_uuid 5 "peer-001" "alice" "secret"))
               demo_uuid = true.
Proof.
  apply (proj2 (proj2 (authenticate_session demo_auth demo_uuid 5
                         "peer-001" "alice" "secret")) eq_refl).
Defined.

(** ** The client against the directory *)

Lemma validate_refused_any_time (now now' : Z) (tok : string) (s : State) :
  _validate_token now tok s = None -> _validate_token now' tok s = None.
Proof.
  unfold _validate_token. destruct (Dict.get (peers s) tok) as [p|]; [|reflexivity].
  destruct (is_online p); [discriminate | reflexivity].
Qed.

Lemma validate_online (now : Z) (tok : string) (s : State) (p : PeerData) :
  Dict.get (peers s) tok = Some p -> is_online p = true ->
  _validate_token now tok s =
    Some (set_last_seen now p, with_peers (Dict.set (peers s) tok (set_last_seen now p)) s).
Proof. intros Hget Hon. unfold _validate_token. now rewrite Hget, Hon. Qed.

(** [connect_to_server] over a working channel, as an equation. *)
Lemma connect_to_server_linked (sec : SecurityConfig) (k : Call) (c : PClient) (dir : State) :
  link k = true ->
  connect_to_server sec k c dir =
    let res := Login sec (clock k) (mint k) (client_login_request c) dir in
    if lresp_success (fst res)
    then (true,
          with_session (Some (lresp_token (fst res))) true
                       (cache_peers (known_peers c) (lresp_connected_peers (fst res))) c,
          snd res)
    else (false, c, snd res).
Proof.
  intros Hl. unfold connect_to_server, client_login. rewrite Hl.
  destruct (Login sec (clock k) (mint k) (client_login_request c) dir) as [resp dir'].
  simpl. now destruct (lresp_success resp).
Qed.

Lemma connect_to_server_unlinked (sec : SecurityConfig) (k : Call) (c : PClient)
    (dir : State) :
  link k = false -> connect_to_server sec k c dir = (false, c, dir).
Proof. intros Hl. unfold connect_to_server, client_login. now rewrite Hl. Qed.

(** [disconnect] when the directory acknowledges the logout. *)
Lemma disconnect_acknowledged (k : Call) (c : PClient) (dir : State) (tok : string)
    (p : PeerData) :
  is_connected c = true -> pc_token c = Some tok -> tok <> "" -> link k = true ->
  Dict.get (peers dir) tok = Some p -> is_online p = true ->
  disconnect k c dir =
    (with_session None false [] c,
     with_peers (Dict.set (peers dir) tok (set_is_online false (set_last_seen (clock k) p)))
                dir).
Proof.
  intros Hc Ht Hne Hl Hget Hon. unfold disconnect, client_logout.
  rewrite Hc, Ht, (truthy_Some _ Hne), Hl. simpl default. unfold Logout.
  rewrite (validate_online _ _ _ _ Hget Hon). simpl.
  now rewrite DictFacts.set_set.
Qed.

(** [disconnect] when the logout is not acknowledged: the call is lost, or
    the directory refuses the token. *)
Lemma disconnect_unacknowledged (k : Call) (c : PClient) (dir : State) (tok : string) :
  is_connected c = true -> pc_token c = Some tok -> tok <> "" ->
  link k = false \/ _validate_token (clock k) tok dir = None ->
  disconnect k c dir = (with_session (Some tok) true [] c, dir).
Proof.
  intros Hc Ht Hne H. unfold disconnect, client_logout.
  rewrite Hc, Ht, (truthy_Some _ Hne). simpl default.
  destruct (link k).
  - destruct H as [H|H]; [discriminate|]. unfold Logout. rewrite H. simpl.
    now rewrite Ht, Hc.
  - simpl. now rewrite Ht, Hc.
Qed.

(** X20.  A client session, end to end.  When [connect_to_server] succeeds
    it holds a non-empty token [T] under which the directory has an online
    record; a following [disconnect] that reaches the directory clears the
    token, the connected flag and the cache of known peers, and leaves the
    record under [T] offline; connecting again then succeeds and yields the
    same token [T]. *)
Theorem client_session_round_trip (sec : SecurityConfig) (k1 k2 k3 : Call)
    (c : PClient) (dir : State) :
  link k1 = true -> link k2 = true -> link k3 = true ->
  mint k1 <> "" ->
  fst (fst (connect_to_server sec k1 c dir)) = true ->
  let c1 := snd (fst (connect_to_server sec k1 c dir)) in
  let dir1 := snd (connect_to_server sec k1 c dir) in
  let c2 := fst (disconnect k2 c1 dir1) in
  let dir2 := snd (disconnect k2 c1 dir1) in
  let res3 := connect_to_server sec k3 c2 dir2 in
  exists T,
    T <> "" /\ pc_token c1 = Some T /\ is_connected c1 = true /\
    is_online <$> Dict.get (peers dir1) T = Some true /\
    pc_token c2 = None /\ is_connected c2 = false /\ known_peers c2 = [] /\
    is_online <$> Dict.get (peers dir2) T = Some false /\
    fst (fst res3) = true /\
    pc_token (snd (fst res3)) = Some T /\ is_connected (snd (fst res3)) = true.
Proof.
  intros Hl1 Hl2 Hl3 Hm Hok. cbv zeta.
  rewrite (connect_to_server_linked sec k1 c dir Hl1) in *. cbv zeta in *.
  destruct (lresp_success (fst (Login sec (clock k1) (mint k1) (client_login_request c) dir)))
    eqn:Es; [|discriminate Hok].
  destruct (Login_success_post sec (clock k1) (mint k1) (client_login_request c) dir Hm Es)
    as (HT & Hidx & rec & Hget & Hru & Hrh & Hon).
  set (T := lresp_token (fst (Login sec (clock k1) (mint k1) (client_login_request c) dir)))
    in *.
  set (dir1 := snd (Login sec (clock k1) (mint k1) (client_login_request c) dir)) in *.
  exists T. cbn [fst snd].
  set (c1 := with_session (Some T) true _ c).
  rewrite (disconnect_acknowledged k2 c1 dir1 T rec eq_refl eq_refl HT Hl2 Hget Hon).
  cbn [fst snd].
  rewrite (connect_to_server_linked sec k3 _ _ Hl3). cbv zeta.
  rewrite (Login_relogin sec (clock k3) (mint k3) _ _ T
             (set_is_online false (set_last_seen (clock k2) rec))).
  - cbn. rewrite Hget, DictFacts.get_set_eq. cbn. rewrite Hon. repeat split; auto.
  - exact Hidx.
  - exact HT.
  - apply DictFacts.get_set_eq.
  - exact Hru.
  - exact Hrh.
Qed.

Lemma client_session_round_trip_witness :
  exists T,
    pc_token (snd (fst (connect_to_server default_security (delivered 0 tokA)
                          alice_client init_state))) = Some T /\
    pc_token
      (snd (fst (connect_to_server default_security (delivered 9 tokC)
         (fst (disconnect (delivered 4 tokB)
                 (snd (fst (connect_to_server default_security (delivered 0 tokA)
                              alice_client init_state)))
                 (snd (connect_to_server default_security (delivered 0 tokA)
                         alice_client init_state))))
         (snd (disconnect (delivered 4 tokB)
                 (snd (fst (connect_to_server default_security (delivered 0 tokA)
                              alice_client init_state)))
                 (snd (connect_to_server default_security (delivered 0 tokA)
                         alice_client init_state))))))) = Some T.
Proof.
  destruct (client_session_round_trip default_security
              (delivered 0 tokA) (delivered 4 tokB) (delivered 9 tokC)
              alice_client init_state eq_refl eq_refl eq_refl
              ltac:(discriminate) eq_refl)
    as (T & _ & H1 & _ & _ & _ & _ & _ & _ & _ & H3 & _).
  exists T. split; [exact H1 | exact H3].
Defined.

(** X21.  A logout that is not acknowledged leaves the peer stuck.  For a
    connected client holding token [tok], when the logout call is lost or
    the directory refuses the token (the record is offline, or was removed
    by the sweep), [manual_logout] empties the cache of known peers and
    changes nothing else: the client still counts as connected and keeps
    the token, and the directory is as before.  From then on [manual_login]
    answers [True] without calling the directory; and as long as the
    directory refuses the token, heartbeats fail and [manual_logout]
    changes nothing. *)
Theorem unacknowledged_logout_sticks (sec : SecurityConfig) (k : Call) (c : PClient)
    (dir : State) (tok : string) :
  is_connected c = true -> pc_token c = Some tok -> tok <> "" ->
  link k = false \/ _validate_token (clock k) tok dir = None ->
  let c' := with_session (Some tok) true [] c in
  manual_logout k c dir = (c', dir) /\
  (forall k', manual_login sec k' c' dir = (Returns true, c', dir)) /\
  (_validate_token (clock k) tok dir = None ->
   forall k', send_heartbeat k' c' dir = (false, dir) /\
              manual_logout k' c' dir = (c', dir)).
Proof.
  intros Hc Ht Hne H. cbv zeta. split; [|split].
  - unfold manual_logout. rewrite Hc. simpl negb. cbv iota.
    now apply disconnect_unacknowledged.
  - intros k'. reflexivity.
  - intros Hv k'. pose proof (validate_refused_any_time _ (clock k') _ _ Hv) as Hv'. split.
    + unfold send_heartbeat. cbn [pc_token with_session]. rewrite (truthy_Some _ Hne).
      simpl default. destruct (link k'); [|reflexivity].
      unfold Heartbeat. now rewrite Hv'.
    + unfold manual_logout. cbn [is_connected with_session negb].
      now rewrite (disconnect_unacknowledged k' (with_session (Some tok) true [] c) dir tok
                     eq_refl eq_refl Hne (or_intror Hv')).
Qed.

Lemma unacknowledged_logout_sticks_witness :
  manual_login default_security (delivered 2000 tokB)
    (with_session (Some tokA) true [] (with_session (Some tokA) true [] alice_client))
    (_cleanup_inactive_peers default_database 1000 (alice_registered default_security))
  = (Returns true,
     with_session (Some tokA) true [] (with_session (Some tokA) true [] alice_client),
     _cleanup_inactive_peers default_database 1000 (alice_registered default_security)).
Proof.
  apply (proj1 (proj2
    (unacknowledged_logout_sticks default_security (delivered 1500 tokB)
       (with_session (Some tokA) true [] alice_client)
       (_cleanup_inactive_peers default_database 1000 (alice_registered default_security))
       tokA eq_refl eq_refl ltac:(discriminate) (or_intror eq_refl)))).
Defined.

(** ** The handlers that reach the directory *)

Lemma set_absent {V} (d : list (string * V)) (k : string) (v : V) :
  Dict.get d k = None -> Dict.set d k v = (d ++ [(k, v)])%list.
Proof.
  induction d as [|[k' v'] d IH]; simpl; [reflexivity|].
  destruct (String.eqb k' k); [discriminate|]. intros H. now rewrite IH.
Qed.

(** Publishing the values of a dictionary keyed by file name rebuilds it. *)
Lemma stored_values (d acc : list (string * FileMetadata)) :
  List.NoDup (Dict.keys acc ++ Dict.keys d) ->
  (forall k v, In (k, v) d -> filename v = k) ->
  fold_left store_file (Dict.values d) acc = (acc ++ d)%list.
Proof.
  revert acc. induction d as [|[k v] d IH]; intros acc Hnd Hkey; simpl.
  - now rewrite app_nil_r.
  - assert (Hk : filename v = k) by (apply Hkey; now left).
    assert (Hnone : Dict.get acc k = None).
    { apply DictFacts.get_None_keys. intros Hin.
      apply List.NoDup_remove_2 in Hnd. apply Hnd. apply in_or_app. now left. }
    unfold store_file at 2. rewrite Hk, (set_absent _ _ _ Hnone).
    rewrite IH.
    + now rewrite <- app_assoc.
    + unfold Dict.keys in *. rewrite map_app, <- app_assoc. exact Hnd.
    + intros k' v' Hin. apply Hkey. now right.
Qed.

(** [files_index] after a scan: distinct keys, each the name of its entry. *)
Lemma scan_index_keyed (attrs : Attributes) (fm : FileManager) (os : OS) :
  let index := fst (scan_files attrs fm os) in
  List.NoDup (Dict.keys index) /\ (forall k v, In (k, v) index -> filename v = k).
Proof.
  assert (Hloop : forall paths acc,
    (List.NoDup (Dict.keys (fst acc)) /\ (forall k v, In (k, v) (fst acc) -> filename v = k)) ->
    let acc' := scan_loop attrs os paths acc in
    List.NoDup (Dict.keys (fst acc')) /\ (forall k v, In (k, v) (fst acc') -> filename v = k)).
  { induction paths as [|fp paths IH]; intros acc Hacc; [exact Hacc|].
    cbn [scan_loop].
    destruct (path_is_file os fp) as [[|]|e]; [|now apply IH|exact Hacc].
    destruct (_get_file_metadata attrs os fp) as [info|e]; [|exact Hacc].
    apply IH. cbn [fst snd]. destruct Hacc as [Hnd Hkey]. split.
    - now apply DictFacts.NoDup_keys_set.
    - intros k v Hin. apply DictFacts.In_set in Hin. destruct Hin as [E|Hin].
      + now inversion E.
      + now apply Hkey. }
  assert (Hnil : List.NoDup (Dict.keys (@nil (string * FileMetadata))) /\
                 (forall k v, In (k, v) (@nil (string * FileMetadata)) -> filename v = k)).
  { split; [constructor | intros k v []]. }
  cbv zeta. unfold scan_files.
  destruct (iterdir os (shared_directory fm)) as [paths|e]; [|exact Hnil].
  apply (Hloop paths ([], [])). exact Hnil.
Qed.

Lemma authenticate_accepts (am : AuthManager) (uuid : string) (now : Z) :
  authenticate am uuid now (cfg_peer_id (am_peer_config am))
               (cfg_username (am_peer_config am)) (cfg_password (am_peer_config am))
  = ((true, Auth_login_exitoso, Some uuid),
     {| am_peer_config := am_peer_config am; logged_in := true;
        session_token := Some uuid; login_time := Some now |}).
Proof. unfold authenticate. now rewrite !String.eqb_refl. Qed.

Lemma authenticate_rejects (am : AuthManager) (uuid : string) (now : Z)
    (pid user pw : string) :
  ~ (pid = cfg_peer_id (am_peer_config am) /\ user = cfg_username (am_peer_config am)
     /\ pw = cfg_password (am_peer_config am)) ->
  authenticate am uuid now pid user pw = ((false, Credenciales_invalidas, None), am).
Proof.
  intros H. unfold authenticate.
  destruct (String.eqb_spec pid (cfg_peer_id (am_peer_config am))); [|reflexivity].
  destruct (String.eqb_spec user (cfg_username (am_peer_config am))); [|reflexivity].
  destruct (String.eqb_spec pw (cfg_password (am_peer_config am))); [|reflexivity].
  exfalso. apply H. auto.
Qed.

(** X22.  [POST /login] with the configured credentials, when both calls
    reach the directory and the directory accepts the login: the answer is
    a success carrying the new session token and the number of indexed
    files; the session is open under that token; [files_index] is the
    result of the scan; the node keeps a connected client whose token [T]
    names an online record of the directory for this user and host; and if
    the scan found a file, that record's catalogue is exactly
    [files_index].  If the scan found none, [Index] is not called: the
    directory is as the login left it. *)
Theorem login_handler_publishes (attrs : Attributes) (sec : SecurityConfig)
    (k1 k2 : Call) (uuid : string) (now : Z) (n : PeerNode) (os : OS) (dir : State) :
  let pc := peer_config (pn_server n) in
  let c0 := new_PClient pc (pn_host n) (pn_rest_port n) in
  let logged := Login sec (clock k1) (mint k1) (client_login_request c0) dir in
  am_peer_config (auth_manager n) = pc ->
  link k1 = true -> link k2 = true -> mint k1 <> "" ->
  lresp_success (fst logged) = true ->
  let out := login_handler attrs sec k1 k2 uuid now
               (cfg_peer_id pc) (cfg_username pc) (cfg_password pc) n os dir in
  let n' := snd (fst out) in
  let dir' := snd out in
  let index := fst (scan_files attrs (file_manager (pn_server n)) os) in
  (exists reply, fst (fst out) = Return reply /\ lrep_success reply = true /\
                 lrep_token reply = Some uuid /\
                 lrep_files_available reply = length index) /\
  verify_token (auth_manager n') uuid = true /\
  files_index n' = index /\
  (exists T c r,
     pclient n' = Some c /\ pc_token c = Some T /\ is_connected c = true /\
     Dict.get (peers dir') T = Some r /\ is_online r = true /\
     username r = cfg_username pc /\ url r = pn_host n /\
     (index <> [] -> files r = index)) /\
  (index = [] -> dir' = snd logged).
Proof.
  cbv zeta. intros Ham Hl1 Hl2 Hm Hok.
  unfold login_handler.
  pose proof (authenticate_accepts (auth_manager n) uuid now) as Hauth.
  rewrite Ham in Hauth. rewrite Hauth. clear Hauth.
  rewrite (connect_to_server_linked sec k1 _ _ Hl1). cbv zeta. rewrite Hok.
  destruct (Login_success_post sec (clock k1) (mint k1) _ dir Hm Hok)
    as (HT & Hidx & rec & Hget & Hru & Hrh & Hon).
  set (req := client_login_request _) in *.
  set (T := lresp_token (fst (Login sec (clock k1) (mint k1) req dir))) in *.
  set (dir1 := snd (Login sec (clock k1) (mint k1) req dir)) in *.
  set (index := fst (scan_files attrs (file_manager (pn_server n)) os)).
  destruct (scan_index_keyed attrs (file_manager (pn_server n)) os) as [Hnd Hkey].
  fold index in Hnd, Hkey.
  destruct (Dict.values index) as [|f fs] eqn:Evals.
  - assert (Hnil : index = []).
    { destruct index; [reflexivity | discriminate Evals]. }
    cbn [fst snd]. split; [|split; [|split; [|split]]].
    + eexists. split; [reflexivity|]. cbn. auto.
    + cbn. now rewrite String.eqb_refl.
    + reflexivity.
    + exists T, (with_session (Some T) true
                   (cache_peers [] (lresp_connected_peers (fst (Login sec (clock k1) (mint k1) req dir))))
                   (new_PClient (peer_config (pn_server n)) (pn_host n) (pn_rest_port n))),
             rec.
      cbn. repeat split; auto. intros Hne. contradiction.
    + reflexivity.
  - rewrite <- Evals.
    assert (Hne : index <> []).
    { intros E. rewrite E in Evals. discriminate Evals. }
    unfold client_index_files. cbn [pc_token with_session].
    rewrite (truthy_Some _ HT), Hl2. simpl default. cbn [negb].
    unfold Index. rewrite (validate_online _ _ _ _ Hget Hon).
    unfold index_loop. rewrite index_loop_from.
    rewrite (stored_values index []) by (simpl; auto).
    cbn [app fst snd]. split; [|split; [|split; [|split]]].
    + eexists. split; [reflexivity|]. cbn. auto.
    + cbn. now rewrite String.eqb_refl.
    + reflexivity.
    + exists T, (with_session (Some T) true
                   (cache_peers [] (lresp_connected_peers (fst (Login sec (clock k1) (mint k1) req dir))))
                   (new_PClient (peer_config (pn_server n)) (pn_host n) (pn_rest_port n))),
             (set_files index (set_last_seen (clock k2) rec)).
      cbn. rewrite DictFacts.get_set_eq. repeat split; auto.
    + intros E. contradiction.
Qed.

Lemma login_handler_publishes_witness :
  exists T r,
    Dict.get (peers (snd (login_handler demo_attrs default_security
                            (delivered 0 tokA) (delivered 1 tokB) demo_uuid 0
                            "peer-001" "alice" "secret" alice_node demo_os init_state)))
             T = Some r /\
    files r = fst (scan_files demo_attrs (file_manager demo_server) demo_os).
Proof.
  destruct (login_handler_publishes demo_attrs default_security
              (delivered 0 tokA) (delivered 1 tokB) demo_uuid 0 alice_node demo_os
              init_state eq_refl eq_refl eq_refl ltac:(discriminate) eq_refl)
    as (_ & _ & _ & (T & c & r & _ & _ & _ & Hget & _ & _ & _ & Hfiles) & _).
  exists T, r. split; [exact Hget|]. apply Hfiles. vm_compute. discriminate.
Defined.

(** X23.  [POST /login] answers with a success exactly when the three
    credentials of the request equal the configured ones, whatever the
    directory does; otherwise it raises 401 and nothing changes: the node
    (an open session included) and the directory are as before, and the
    shared directory is not scanned. *)
Theorem login_handler_credentials (attrs : Attributes) (sec : SecurityConfig)
    (k1 k2 : Call) (uuid : string) (now : Z) (pid user pw : string)
    (n : PeerNode) (os : OS) (dir : State) :
  let pc := am_peer_config (auth_manager n) in
  let out := login_handler attrs sec k1 k2 uuid now pid user pw n os dir in
  ((exists reply, fst (fst out) = Return reply) <->
   (pid = cfg_peer_id pc /\ user = cfg_username pc /\ pw = cfg_password pc)) /\
  (~ (pid = cfg_peer_id pc /\ user = cfg_username pc /\ pw = cfg_password pc) ->
   out = (Raise (HTTPException 401), n, dir)).
Proof.
  cbv zeta.
  assert (Hrej : ~ (pid = cfg_peer_id (am_peer_config (auth_manager n)) /\
                    user = cfg_username (am_peer_config (auth_manager n)) /\
                    pw = cfg_password (am_peer_config (auth_manager n))) ->
                 login_handler attrs sec k1 k2 uuid now pid user pw n os dir
                 = (Raise (HTTPException 401), n, dir)).
  { intros H. unfold login_handler. now rewrite (authenticate_rejects _ _ _ _ _ _ H). }
  split; [|exact Hrej]. split.
  - intros [reply Hr].
    destruct (decide (pid = cfg_peer_id (am_peer_config (auth_manager n)) /\
                      user = cfg_username (am_peer_config (auth_manager n)) /\
                      pw = cfg_password (am_peer_config (auth_manager n)))) as [H|H];
      [exact H|].
    rewrite (Hrej H) in Hr. discriminate Hr.
  - intros (-> & -> & ->). unfold login_handler. rewrite authenticate_accepts.
    destruct (connect_to_server sec k1 _ dir) as [[connected c1] dir1].
    destruct connected; [destruct (Dict.values _)|]; eexists; reflexivity.
Qed.

Lemma login_handler_credentials_witness :
  login_handler demo_attrs default_security (delivered 0 tokA) (delivered 1 tokB)
                demo_uuid 0 "peer-001" "alice" "guess" alice_node demo_os init_state
  = (Raise (HTTPException 401), alice_node, init_state).
Proof.
  apply (proj2 (login_handler_credentials demo_attrs default_security
                  (delivered 0 tokA) (delivered 1 tokB) demo_uuid 0
                  "peer-001" "alice" "guess" alice_node demo_os init_state)).
  intros (_ & _ & H). discriminate H.
Defined.

(** A header [Bearer <token>] with the token of the open session. *)
Lemma verify_auth_bearer (am : AuthManager) (tok : string) :
  contains "Bearer " tok = false ->
  logged_in am = true -> session_token am = Some tok ->
  _verify_auth am (Some ("Bearer " +:+ tok)) = Return true.
Proof.
  intros Hc Hlog Hs. unfold _verify_auth.
  assert (Hne : nonempty ("Bearer " +:+ tok) = true) by reflexivity.
  rewrite Hne, prefix_app. simpl negb. cbv zeta.
  rewrite (str_replace_leading "B" "earer " tok Hc).
  unfold verify_token. now rewrite Hlog, Hs, String.eqb_refl.
Qed.

Lemma verify_auth_closed (am : AuthManager) (authorization : option string) :
  logged_in am = false -> _verify_auth am authorization = Raise (HTTPException 401).
Proof.
  intros Hlog. unfold _verify_auth, verify_token. rewrite Hlog.
  destruct authorization as [a|]; [|reflexivity].
  destruct (negb (nonempty a)); [reflexivity|].
  destruct (negb (String.prefix "Bearer " a)); reflexivity.
Qed.

(** X24.  A local session without the directory.  When the configured
    credentials are presented but the client cannot connect (the call is
    lost, or the directory refuses the login), [POST /login] still answers
    with a success and a session token, notes the missing connection and
    keeps no client; the directory is as the attempt left it.  With that
    session, [POST /search] then answers 500: the 503 it raises for the
    missing client is caught by its own handler. *)
Theorem login_without_directory (attrs : Attributes) (sec : SecurityConfig)
    (k1 k2 k : Call) (uuid : string) (now : Z) (query : string)
    (n : PeerNode) (os : OS) (dir : State) :
  let pc := peer_config (pn_server n) in
  let c0 := new_PClient pc (pn_host n) (pn_rest_port n) in
  am_peer_config (auth_manager n) = pc ->
  fst (fst (connect_to_server sec k1 c0 dir)) = false ->
  contains "Bearer " uuid = false ->
  let out := login_handler attrs sec k1 k2 uuid now
               (cfg_peer_id pc) (cfg_username pc) (cfg_password pc) n os dir in
  let n' := snd (fst out) in
  let dir' := snd out in
  (exists reply, fst (fst out) = Return reply /\ lrep_success reply = true /\
                 lrep_token reply = Some uuid /\
                 lrep_note reply = sin_conexion_a_servidor) /\
  pclient n' = None /\
  dir' = snd (connect_to_server sec k1 c0 dir) /\
  search_handler k (Some ("Bearer " +:+ uuid)) query n' dir'
    = (Raise (HTTPException 500), dir').
Proof.
  cbv zeta. intros Ham Hconn Huuid. unfold login_handler.
  pose proof (authenticate_accepts (auth_manager n) uuid now) as Hauth.
  rewrite Ham in Hauth. rewrite Hauth. clear Hauth.
  destruct (connect_to_server sec k1 _ dir) as [[connected c1] dir1].
  cbn [fst snd] in *. subst connected. cbn [fst snd].
  split; [|split; [|split]].
  - eexists. split; [reflexivity|]. cbn. auto.
  - reflexivity.
  - reflexivity.
  - unfold search_handler. cbn [auth_manager pclient].
    rewrite (verify_auth_bearer
               {| am_peer_config := peer_config (pn_server n); logged_in := true;
                  session_token := Some uuid; login_time := Some now |}
               uuid Huuid eq_refl eq_refl).
    reflexivity.
Qed.

Lemma login_without_directory_witness :
  search_handler (delivered 3 tokB) (Some ("Bearer " +:+ demo_uuid)) "hello"
    (snd (fst (login_handler demo_attrs default_security
                 {| link := false; clock := 0; mint := tokA |} (delivered 1 tokB)
                 demo_uuid 0 "peer-001" "alice" "secret" alice_node demo_os init_state)))
    (snd (login_handler demo_attrs default_security
            {| link := false; clock := 0; mint := tokA |} (delivered 1 tokB)
            demo_uuid 0 "peer-001" "alice" "secret" alice_node demo_os init_state))
  = (Raise (HTTPException 500),
     snd (login_handler demo_attrs default_security
            {| link := false; clock := 0; mint := tokA |} (delivered 1 tokB)
            demo_uuid 0 "peer-001" "alice" "secret" alice_node demo_os init_state)).
Proof.
  apply (proj2 (proj2 (proj2
    (login_without_directory demo_attrs default_security
       {| link := false; clock := 0; mint := tokA |} (delivered 1 tokB) (delivered 3 tokB)
       demo_uuid 0 "hello" alice_node demo_os init_state eq_refl eq_refl eq_refl)))).
Defined.

(** X25.  [POST /search] with an open session and a client whose token the
    directory accepts: the answer is a success whose count is the length of
    its list; the list holds exactly one entry for each file, of each
    online peer other than the caller, whose lower-cased name contains the
    lower-cased query, and none when the query is empty; each entry's
    download address is rebuilt from the owner's [peer_id] and port.  The
    directory only refreshes the caller's [last_seen]. *)
Theorem search_handler_results (k : Call) (authorization : option string)
    (query : string) (n : PeerNode) (dir : State) (c : PClient) (T : string)
    (p : PeerData) :
  _verify_auth (auth_manager n) authorization = Return true ->
  pclient n = Some c -> pc_token c = Some T -> T <> "" -> link k = true ->
  Dict.get (peers dir) T = Some p -> is_online p = true ->
  exists reply,
    search_handler k authorization query n dir
      = (Return reply,
         with_peers (Dict.set (peers dir) T (set_last_seen (clock k) p)) dir) /\
    srep_success reply = true /\
    srep_results_count reply = length (srep_results reply) /\
    forall h, In h (srep_results reply) <->
      exists tok o fname fd,
        In (tok, o) (peers dir) /\ is_online o = true /\ tok <> T /\
        In (fname, fd) (files o) /\
        query <> "" /\ contains (lower query) (lower fname) = true /\
        h = {| hit_filename := filename fd; hit_file_size := file_size fd;
               hit_file_hash := file_hash fd;
               hit_peer_id := peer_id o; hit_username := username o;
               hit_url := url o; hit_port := port o;
               hit_download_url :=
                 "http://" +:+ peer_id o +:+ ":" +:+ str_of_Z (port o)
                 +:+ "/download/" +:+ filename fd |}.
Proof.
  intros Hauth Hpc Htok HT Hl Hget Hon.
  unfold search_handler. rewrite Hauth, Hpc.
  unfold client_search_files. rewrite Htok, (truthy_Some _ HT), Hl. simpl default.
  cbn [negb].
  rewrite (Search_authenticated (clock k)
             {| sr_token := T; sr_peer_id := cfg_peer_id (pc_peer_config c);
                sr_filename := query; sr_file_pattern := "" |}
             dir _ _ (validate_online (clock k) T dir p Hget Hon)).
  cbn [sresp_success sresp_results sr_filename sr_file_pattern sr_token try_except].
  eexists. split; [reflexivity|]. cbn [srep_success srep_results_count srep_results].
  split; [reflexivity|]. split; [reflexivity|].
  intros h. rewrite in_map_iff. split.
  - intros (r & <- & Hr). apply in_map_iff in Hr. destruct Hr as (loc & <- & Hloc).
    apply in_search_spec in Hloc.
    destruct Hloc as (tok & o & fname & fd & Hin & Ho & Hne & Hf & Hm & ->).
    exists tok, o, fname, fd. unfold spec_match in Hm.
    change (nonempty (lower "")) with false in Hm. rewrite orb_false_r in Hm.
    apply andb_prop in Hm. destruct Hm as [Hq Hc].
    repeat split; auto.
    intros ->. discriminate Hq.
  - intros (tok & o & fname & fd & Hin & Ho & Hne & Hf & Hq & Hc & ->).
    exists (client_location (location_of o (fname, fd))). split; [reflexivity|].
    apply in_map. apply in_search_spec. exists tok, o, fname, fd.
    repeat split; auto. unfold spec_match. now rewrite (lower_nonempty _ Hq), Hc.
Qed.

Lemma search_handler_results_witness :
  exists reply,
    fst (search_handler (delivered 7 tokC) (Some ("Bearer " +:+ demo_uuid)) "HELLO"
           {| pn_server := demo_server; pn_host := "10.0.0.2"; pn_rest_port := 8082;
              auth_manager := snd (authenticate demo_auth demo_uuid 5
                                     "peer-001" "alice" "secret");
              files_index := [];
              pclient := Some (with_session (Some tokB) true [] alice_client) |}
           two_peers)
    = Return reply /\ srep_success reply = true.
Proof.
  destruct (search_handler_results (delivered 7 tokC) (Some ("Bearer " +:+ demo_uuid))
              "HELLO"
              {| pn_server := demo_server; pn_host := "10.0.0.2"; pn_rest_port := 8082;
                 auth_manager := snd (authenticate demo_auth demo_uuid 5
                                        "peer-001" "alice" "secret");
                 files_index := [];
                 pclient := Some (with_session (Some tokB) true [] alice_client) |}
              two_peers (with_session (Some tokB) true [] alice_client) tokB
              (default (new_peer 0 tokB bob_h2) (Dict.get (peers two_peers) tokB))
              eq_refl eq_refl eq_refl ltac:(discriminate) eq_refl eq_refl eq_refl)
    as (reply & Heq & Hs & _).
  exists reply. split; [now rewrite Heq | exact Hs].
Defined.

(** X26.  [POST /logout] with an open session: it answers with a success,
    drops the client and closes the session, so that afterwards every
    header is refused with 401, by [POST /search] as well.  If the node
    held a connected client whose token [T] the directory accepts and the
    call reaches the directory, the record under [T] is left offline;
    without a client the directory is not touched. *)
Theorem logout_handler_closes (k : Call) (authorization : option string)
    (n : PeerNode) (dir : State) :
  _verify_auth (auth_manager n) authorization = Return true ->
  let out := logout_handler k authorization n dir in
  let n' := snd (fst out) in
  let dir' := snd out in
  fst (fst out) = Return true /\ pclient n' = None /\
  (forall h, _verify_auth (auth_manager n') h = Raise (HTTPException 401)) /\
  (forall k' h query,
     search_handler k' h query n' dir' = (Raise (HTTPException 401), dir')) /\
  (forall c T p,
     pclient n = Some c -> is_connected c = true -> pc_token c = Some T -> T <> "" ->
     link k = true -> Dict.get (peers dir) T = Some p -> is_online p = true ->
     dir' = with_peers (Dict.set (peers dir) T
                          (set_is_online false (set_last_seen (clock k) p))) dir) /\
  (pclient n = None -> dir' = dir).
Proof.
  intros Hauth. cbv zeta. unfold logout_handler. rewrite Hauth. cbn [fst snd].
  split; [reflexivity|]. split; [reflexivity|]. split; [|split; [|split]].
  - intros h. now apply verify_auth_closed.
  - intros k' h query. unfold search_handler. cbn [auth_manager].
    now rewrite verify_auth_closed.
  - intros c T p Hpc Hc Ht HT Hl Hget Hon. rewrite Hpc.
    now rewrite (disconnect_acknowledged k c dir T p Hc Ht HT Hl Hget Hon).
  - intros Hpc. now rewrite Hpc.
Qed.

Lemma logout_handler_closes_witness :
  pclient (snd (fst (logout_handler (delivered 9 tokC) (Some ("Bearer " +:+ demo_uuid))
     {| pn_server := demo_server; pn_host := "10.0.0.2"; pn_rest_port := 8082;
        auth_manager := snd (authenticate demo_auth demo_uuid 5
                               "peer-001" "alice" "secret");
        files_index := [];
        pclient := Some (with_session (Some tokB) true [] alice_client) |}
     two_peers))) = None.
Proof.
  apply (proj1 (proj2
    (logout_handler_closes (delivered 9 tokC) (Some ("Bearer " +:+ demo_uuid))
       {| pn_server := demo_server; pn_host := "10.0.0.2"; pn_rest_port := 8082;
          auth_manager := snd (authenticate demo_auth demo_uuid 5
                                 "peer-001" "alice" "secret");
          files_index := [];
          pclient := Some (with_session (Some tokB) true [] alice_client) |}
       two_peers eq_refl))).
Defined.

(** ** A token after its logout *)

Lemma retired_refused (tok u h : string) (s : State) (now : Z) :
  retired tok u h s -> _validate_token now tok s = None.
Proof.
  unfold retired, _validate_token. destruct (Dict.get (peers s) tok) as [r|]; [|reflexivity].
  now intros [-> _].
Qed.

(** A call whose token is refused changes nothing. *)
Lemma refused_step (sec : SecurityConfig) (db : DatabaseConfig) (s : State)
    (r : Request) (tok : string) :
  request_token r = Some tok ->
  (forall now, _validate_token now tok s = None) ->
  step sec db s r = s.
Proof.
  intros Hr Hv.
  destruct r; simpl in Hr; try discriminate; injection Hr as Hr; subst tok; simpl;
    unfold Logout, Index, Search, GetPeerInfo, Heartbeat; now rewrite Hv.
Qed.

(** The sweep removes records and changes none. *)
Lemma cleanup_loop_get (toks : list string) (s : State) (t : string) :
  Dict.get (peers (cleanup_loop s toks)) t = None \/
  Dict.get (peers (cleanup_loop s toks)) t = Dict.get (peers s) t.
Proof.
  revert s. induction toks as [|tok toks IH]; intros s; simpl; [now right|].
  unfold cleanup_one. destruct (Dict.get (peers s) tok) as [peer|]; [|now right].
  match goal with |- context [cleanup_loop ?st toks] => destruct (IH st) as [H|H] end.
  - now left.
  - rewrite H. simpl. destruct (String.eqb_spec tok t) as [->|Hne].
    + left. apply DictFacts.get_del_eq.
    + right. now apply DictFacts.get_del_ne.
Qed.

Lemma sweep_get (db : DatabaseConfig) (now : Z) (s : State) (t : string) :
  Dict.get (peers (_cleanup_inactive_peers db now s)) t = None \/
  Dict.get (peers (_cleanup_inactive_peers db now s)) t = Dict.get (peers s) t.
Proof. apply cleanup_loop_get. Qed.

Lemma retired_create (tok u h : string) (now : Z) (minted : string) (req : LoginRequest)
    (s : State) :
  minted <> tok -> retired tok u h s ->
  retired tok u h (snd (login_create now minted req s)).
Proof.
  intros Hm H. unfold retired in *. simpl. now rewrite DictFacts.get_set_ne.
Qed.

Lemma retired_attempt (cfg : SecurityConfig) (tok u h : string) (now : Z)
    (minted : string) (req : LoginRequest) (s : State) :
  minted <> tok -> retired tok u h s ->
  retired tok u h (snd (login_attempt cfg now minted req s)).
Proof.
  intros Hm H. unfold login_attempt.
  destruct (truthy (username_index s !! lr_username req)); [|now apply retired_create].
  set (et := default "" (username_index s !! lr_username req)).
  destruct (Dict.get (peers s) et) as [peer|] eqn:Eget; [|exact H].
  assert (H1 : retired tok u h
                 (with_peers (Dict.set (peers s) et
                                (set_login_attempts (login_attempts peer + 1) peer)) s)).
  { unfold retired in *. simpl. rewrite DictFacts.get_set.
    destruct (String.eqb_spec et tok) as [E|E]; [|exact H].
    rewrite E in Eget. rewrite Eget in H. exact H. }
  destruct (_ >? _); [exact H1 | now apply retired_create].
Qed.

Lemma retired_step (sec : SecurityConfig) (db : DatabaseConfig) (tok : string)
    (rec : PeerData) (s : State) (r : Request) :
  revives tok rec r = false ->
  retired tok (username rec) (url rec) s ->
  retired tok (username rec) (url rec) (step sec db s r).
Proof.
  intros Hr H.
  assert (Hcall : forall t, request_token r = Some t ->
            retired tok (username rec) (url rec) (step sec db s r)).
  { intros t Ht. destruct (String.eqb_spec t tok) as [->|Hne].
    - rewrite (refused_step sec db s r tok Ht); [exact H|].
      intros now. now apply retired_refused with (u := username rec) (h := url rec).
    - destruct (touches_only_step sec db s r t Ht) as (_ & Hsame & _).
      unfold retired in *. rewrite Hsame; [exact H | congruence]. }
  destruct r as [now minted req|now t|now t fs|now req|now t|now t|now];
    try (now apply (Hcall _ eq_refl)).
  - simpl in Hr. apply orb_false_elim in Hr. destruct Hr as [Hm Hu].
    assert (Hmint : minted <> tok) by (now destruct (String.eqb_spec minted tok)).
    simpl. unfold Login.
    destruct (truthy (username_index s !! lr_username req)) eqn:Etr;
      [|now apply retired_attempt].
    set (et := default "" (username_index s !! lr_username req)).
    destruct (Dict.get (peers s) et) as [peer|] eqn:Eget; [|now apply retired_attempt].
    destruct (String.eqb_spec (username peer) (lr_username req)) as [Eu|_];
      [|now apply retired_attempt].
    destruct (String.eqb_spec (url peer) (lr_peer_url req)) as [Eh|_];
      [|now apply retired_attempt].
    simpl. unfold retired in *. simpl. rewrite DictFacts.get_set.
    destruct (String.eqb_spec et tok) as [E|E]; [|exact H].
    exfalso. rewrite E in Eget. rewrite Eget in H. destruct H as (_ & Hu' & Hh').
    rewrite <- Eu, <- Eh, Hu', Hh', !String.eqb_refl in Hu. discriminate Hu.
  - simpl. unfold retired in *. destruct (sweep_get db now s tok) as [E|E]; rewrite E; auto.
Qed.

Lemma retired_run (sec : SecurityConfig) (db : DatabaseConfig) (tok : string)
    (rec : PeerData) (rs : list Request) (s : State) :
  Forall (fun r => revives tok rec r = false) rs ->
  retired tok (username rec) (url rec) s ->
  retired tok (username rec) (url rec) (run sec db s rs).
Proof.
  revert s. induction rs as [|r rs IH]; intros s Hrs H; [exact H|].
  inversion Hrs as [|r' rs' Hr Hrest]; subst. simpl. apply IH; [exact Hrest|].
  now apply retired_step.
Qed.

(** X4.  After a successful [Logout], and after any further requests among
    which no [Login] carries the record's user name and host or mints the
    same token again, the token is refused by every operation that
    validates it, at any time, and the refused call leaves the registry
    exactly as it was.  (A [Login] with that user name and host is what
    makes the token valid again.) *)
Theorem Logout_invalidates_token (sec : SecurityConfig) (db : DatabaseConfig)
    (now : Z) (tok : string) (s : State) (rec : PeerData) (rs : list Request) :
  Dict.get (peers s) tok = Some rec ->
  loresp_success (fst (Logout now tok s)) = true ->
  Forall (fun r => revives tok rec r = false) rs ->
  let s' := run sec db (snd (Logout now tok s)) rs in
  forall now' fs req, sr_token req = tok ->
    Logout now' tok s' =
      ({| loresp_success := false; loresp_message := Logout_token_invalido |}, s') /\
    Index now' tok fs s' =
      ({| iresp_success := false; iresp_message := Index_token_invalido;
          iresp_files_indexed := 0 |}, s') /\
    Search now' req s' = ({| sresp_success := false; sresp_results := [] |}, s') /\
    GetPeerInfo now' tok s' = ({| presp_success := false; presp_peers := [] |}, s') /\
    Heartbeat now' tok s' =
      ({| hresp_success := false; hresp_server_timestamp := now';
          hresp_active_peers := 0 |}, s').
Proof.
  intros Hget Hok Hrs s' now' fs req Hreq.
  assert (Hret : retired tok (username rec) (url rec) (snd (Logout now tok s))).
  { unfold Logout, _validate_token in *. rewrite Hget in *.
    destruct (is_online rec); [|discriminate Hok].
    unfold retired. simpl. rewrite DictFacts.get_set_eq. simpl. auto. }
  assert (Hval : _validate_token now' tok s' = None).
  { apply retired_refused with (u := username rec) (h := url rec).
    subst s'. now apply retired_run. }
  unfold Logout, Index, Search, GetPeerInfo, Heartbeat. rewrite Hreq, Hval.
  repeat split.
Qed.

Lemma Logout_invalidates_token_witness :
  Heartbeat 30 tokA
    (run default_security default_database (snd (Logout 8 tokA two_peers))
         [ReqHeartbeat 9 tokB; ReqLogin 10 tokC alice_h2; ReqSweep 20]) =
    ({| hresp_success := false; hresp_server_timestamp := 30; hresp_active_peers := 0 |},
     run default_security default_database (snd (Logout 8 tokA two_peers))
         [ReqHeartbeat 9 tokB; ReqLogin 10 tokC alice_h2; ReqSweep 20]).
Proof.
  refine (proj2 (proj2 (proj2 (proj2
    (Logout_invalidates_token default_security default_database 8 tokA two_peers
       (default (new_peer 0 tokA alice_h1) (Dict.get (peers two_peers) tokA))
       [ReqHeartbeat 9 tokB; ReqLogin 10 tokC alice_h2; ReqSweep 20]
       _ _ _ 30 [] (search_by_name tokA "x") _))))).
  - reflexivity.
  - reflexivity.
  - repeat constructor.
  - reflexivity.
Defined.

(** ** Login, logout, login again, with the sweep in between *)

Lemma sweeps_get (db : DatabaseConfig) (ts : list Z) (s : State) (t : string) :
  Dict.get (peers (sweeps db ts s)) t = None \/
  Dict.get (peers (sweeps db ts s)) t = Dict.get (peers s) t.
Proof.
  revert s. induction ts as [|t0 ts IH]; intros s; [now right|].
  change (sweeps db (t0 :: ts) s) with (sweeps db ts (_cleanup_inactive_peers db t0 s)).
  destruct (IH (_cleanup_inactive_peers db t0 s)) as [H|H]; [now left|].
  rewrite H. apply sweep_get.
Qed.

(** Sweeps that remove no record carrying user name [u] keep the index entry
    of [u] and the record it names. *)
Lemma sweeps_keep (db : DatabaseConfig) (u T : string) (rec : PeerData) (ts : list Z) :
  forall s,
    List.NoDup (Dict.keys (peers s)) ->
    username_index s !! u = Some T ->
    Dict.get (peers s) T = Some rec ->
    username rec = u ->
    (forall t r, In (t, r) (peers s) -> username r = u ->
       Dict.get (peers (sweeps db ts s)) t <> None) ->
    List.NoDup (Dict.keys (peers (sweeps db ts s))) /\
    username_index (sweeps db ts s) !! u = Some T /\
    Dict.get (peers (sweeps db ts s)) T = Some rec.
Proof.
  induction ts as [|t0 ts IH]; intros s Hnd Hidx Hget Hu Hkept; [auto|].
  change (sweeps db (t0 :: ts) s) with (sweeps db ts (_cleanup_inactive_peers db t0 s)) in *.
  set (s' := _cleanup_inactive_peers db t0 s) in *.
  destruct (cleanup_inactive_peers_spec db t0 s Hnd) as (Hpeers & _ & Hgone & _ & Huidx).
  fold s' in Hpeers, Hgone, Huidx.
  assert (Hfresh : forall t r, In (t, r) (peers s) -> username r = u ->
                     stale db t0 r = false).
  { intros t r Hin Hr. destruct (stale db t0 r) eqn:Est; [|reflexivity].
    exfalso. apply (Hkept t r Hin Hr).
    destruct (sweeps_get db ts s' t) as [E|E]; [exact E|].
    rewrite E. now apply (Hgone t r Hin Est). }
  assert (Hnd' : List.NoDup (Dict.keys (peers s'))).
  { unfold s', _cleanup_inactive_peers. now apply NoDup_keys_cleanup_loop. }
  assert (Hidx' : username_index s' !! u = Some T).
  { rewrite Huidx; [exact Hidx|]. intros t r Hin Hst E.
    rewrite (Hfresh t r Hin E) in Hst. discriminate. }
  assert (Hget' : Dict.get (peers s') T = Some rec).
  { apply In_get_NoDup; [exact Hnd'|]. rewrite Hpeers. apply filter_In.
    split; [now apply DictFacts.get_Some_In|]. simpl.
    now rewrite (Hfresh T rec (DictFacts.get_Some_In _ _ _ Hget) Hu). }
  assert (Hkept' : forall t r, In (t, r) (peers s') -> username r = u ->
                     Dict.get (peers (sweeps db ts s')) t <> None).
  { intros t r Hin Hr. apply (Hkept t r); [|exact Hr].
    rewrite Hpeers in Hin. now apply filter_In in Hin. }
  exact (IH s' Hnd' Hidx' Hget' Hu Hkept').
Qed.

(** C8 (as amended).  After a successful [Login] that returned token [T],
    with the sweep running any number of times before and after the
    [Logout]: as long as the sweeps removed no record that carries the
    user name (the record under [T] is one of them), [Logout(T)] succeeds,
    leaves the record under [T] with [is_online] false and [last_seen] the
    time of the call, and changes no other record, no key and no index; a
    following [Login] with the same user name and host succeeds and returns
    [T] again.  The registry is taken with distinct tokens, as a dictionary
    has them. *)
Theorem Login_Logout_Login_same_token (cfg : SecurityConfig) (db : DatabaseConfig)
    (now1 now2 now3 : Z) (ts1 ts2 : list Z) (minted minted' : string)
    (req req' : LoginRequest) (s : State) :
  List.NoDup (Dict.keys (peers s)) ->
  minted <> "" ->
  lresp_success (fst (Login cfg now1 minted req s)) = true ->
  lr_username req' = lr_username req ->
  lr_peer_url req' = lr_peer_url req ->
  let T := lresp_token (fst (Login cfg now1 minted req s)) in
  let s1 := snd (Login cfg now1 minted req s) in
  let s1' := sweeps db ts1 s1 in
  let s2 := snd (Logout now2 T s1') in
  let s2' := sweeps db ts2 s2 in
  let res := fst (Login cfg now3 minted' req' s2') in
  (forall t r, In (t, r) (peers s1) -> username r = lr_username req ->
     Dict.get (peers s1') t <> None) ->
  (forall t r, In (t, r) (peers s2) -> username r = lr_username req ->
     Dict.get (peers s2') t <> None) ->
  loresp_success (fst (Logout now2 T s1')) = true /\
  (exists rec, Dict.get (peers s1) T = Some rec /\
     peers s2 = Dict.set (peers s1') T (set_is_online false (set_last_seen now2 rec)) /\
     Dict.get (peers s2') T = Some (set_is_online false (set_last_seen now2 rec))) /\
  Dict.keys (peers s2) = Dict.keys (peers s1') /\
  peer_index s2 = peer_index s1' /\ username_index s2 = username_index s1' /\
  lresp_success res = true /\ lresp_token res = T.
Proof.
  intros Hnd Hm Hok Hu Hh.
  destruct (Login_success_post cfg now1 minted req s Hm Hok)
    as (HT & Hidx & rec & Hget & Hru & Hrh & Hon).
  cbv zeta.
  set (T := lresp_token (fst (Login cfg now1 minted req s))) in *.
  set (s1 := snd (Login cfg now1 minted req s)) in *.
  intros Hkept1 Hkept2.
  assert (Hnd1 : List.NoDup (Dict.keys (peers s1))).
  { exact (NoDup_keys_step cfg db s (ReqLogin now1 minted req) Hnd). }
  destruct (sweeps_keep db (lr_username req) T rec ts1 s1 Hnd1 Hidx Hget Hru Hkept1)
    as (Hnd1' & Hidx1' & Hget1').
  set (s1' := sweeps db ts1 s1) in *.
  set (off := set_is_online false (set_last_seen now2 rec)).
  assert (Hlo : Logout now2 T s1' =
    ({| loresp_success := true; loresp_message := Logout_exitoso |},
     with_peers (Dict.set (peers s1') T off) s1')).
  { unfold Logout, _validate_token. rewrite Hget1', Hon. simpl.
    now rewrite DictFacts.set_set. }
  rewrite Hlo in *. cbn [fst snd] in *.
  set (s2 := with_peers (Dict.set (peers s1') T off) s1') in *.
  assert (Hkeys : Dict.keys (peers s2) = Dict.keys (peers s1')).
  { now apply DictFacts.keys_set_present with (v0 := rec). }
  assert (Hnd2 : List.NoDup (Dict.keys (peers s2))) by (now rewrite Hkeys).
  assert (Hget2 : Dict.get (peers s2) T = Some off) by apply DictFacts.get_set_eq.
  destruct (sweeps_keep db (lr_username req) T off ts2 s2 Hnd2 Hidx1' Hget2 Hru Hkept2)
    as (_ & Hidx2' & Hget2').
  split; [reflexivity|]. split; [exists rec; auto|].
  split; [exact Hkeys|]. split; [reflexivity|]. split; [reflexivity|].
  rewrite (Login_relogin cfg now3 minted' req' _ T off).
  - now simpl.
  - now rewrite Hu.
  - exact HT.
  - exact Hget2'.
  - simpl. now rewrite Hu.
  - simpl. now rewrite Hh.
Qed.

Lemma Login_Logout_Login_same_token_witness :
  lresp_token (fst (Login default_security 9 tokB alice_h1
     (sweeps default_database [60; 100]
        (snd (Logout 4 (lresp_token (fst (Login default_security 0 tokA alice_h1 init_state)))
                (sweeps default_database [50]
                   (snd (Login default_security 0 tokA alice_h1 init_state))))))))
  = lresp_token (fst (Login default_security 0 tokA alice_h1 init_state)).
Proof.
  refine (proj2 (proj2 (proj2 (proj2 (proj2 (proj2
    (Login_Logout_Login_same_token default_security default_database 0 4 9 [50] [60; 100]
       tokA tokB alice_h1 alice_h1 init_state _ _ _ _ _ _ _))))))).
  - constructor.
  - discriminate.
  - reflexivity.
  - reflexivity.
  - reflexivity.
  - intros t r Hin _. vm_compute in Hin. destruct Hin as [E|[]].
    injection E as <- _. vm_compute. discriminate.
  - intros t r Hin _. vm_compute in Hin. destruct Hin as [E|[]].
    injection E as <- _. vm_compute. discriminate.
Defined.

(** C8, the claim as stated fails.  Alice is registered from one host and
    logs in from another, which gives her token [T]; the sweep then removes
    her first record, and with it the index entry of her user name.  The
    record under [T] is still stored and she logs out; her next [Login]
    from the same host, within [peer_timeout] of the first, succeeds but
    returns a newly minted token. *)
Lemma relogin_after_sweep_mints_new_token :
  lresp_success (fst second_host_login) = true /\
  lresp_token (fst second_host_login) = tokB /\
  loresp_success (fst (Logout 140 tokB
                         (sweeps default_database [130] (snd second_host_login)))) = true /\
  (is_online <$> Dict.get (peers second_host_logged_out) tokB) = Some false /\
  150 - 100 < peer_timeout default_database /\
  lresp_success (fst (Login default_security 150 tokC alice_h2 second_host_logged_out))
    = true /\
  lresp_token (fst (Login default_security 150 tokC alice_h2 second_host_logged_out))
    = tokC /\
  tokC <> tokB.
Proof. vm_compute. repeat split; congruence. Qed.

(** * The file system under writes *)

Section KindFacts.

(** One step of a walk reads the kinds of two locations and nothing else. *)
Lemma walk_unfold os cur c rest :
  walk os cur (c :: rest) =
    match shape (kind (fs_node os cur)) with
    | KDir =>
        if String.eqb c "." then walk os cur rest
        else if String.eqb c ".." then walk os (removelast cur) rest
        else if (NAME_MAX <? String.length c)%nat then Done (Failed ENAMETOOLONG)
        else match shape (kind (fs_node os (cur ++ [c]))) with
             | KLink target => AtLink cur target rest
             | KNone =>
                 match rest with
                 | [] => Done (Absent cur c)
                 | _ :: _ => Done (Failed ENOENT)
                 end
             | _ => walk os (cur ++ [c]) rest
             end
    | KNone => Done (Failed ENOENT)
    | _ => Done (Failed ENOTDIR)
    end.
Proof.
  cbn [walk]. destruct (fs_node os cur) as [[i sz|ch|t]|]; try reflexivity.
  cbn [kind shape]. destruct (String.eqb c "."); [reflexivity|].
  destruct (String.eqb c ".."); [reflexivity|].
  destruct (NAME_MAX <? String.length c)%nat; [reflexivity|].
  now destruct (fs_node os (cur ++ [c])) as [[i sz|ch'|t]|].
Qed.

(** Two file systems that hold the same shapes at every location give the
    same lookups. *)
Lemma walk_ext os os' :
  (forall loc, shape (kind (fs_node os' loc)) = shape (kind (fs_node os loc))) ->
  forall comps cur, walk os' cur comps = walk os cur comps.
Proof.
  intros Hk. induction comps as [|c rest IH]; intros cur; [reflexivity|].
  rewrite !walk_unfold, !Hk, !IH. reflexivity.
Qed.

Lemma namei_ext os os' :
  (forall loc, shape (kind (fs_node os' loc)) = shape (kind (fs_node os loc))) ->
  forall fuel cur comps, namei fuel os' cur comps = namei fuel os cur comps.
Proof.
  intros Hk. induction fuel as [|fuel IH]; intros cur comps;
    rewrite !namei_unfold, (walk_ext _ _ Hk); [reflexivity|].
  destruct (walk os cur comps) as [l|d t rest]; [reflexivity|].
  now rewrite IH.
Qed.

Lemma resolve_ext os os' :
  cwd os' = cwd os ->
  (forall loc, shape (kind (fs_node os' loc)) = shape (kind (fs_node os loc))) ->
  forall p, resolve os' p = resolve os p.
Proof.
  intros Hcwd Hk p. unfold resolve. now rewrite Hcwd, (namei_ext _ _ Hk).
Qed.

(** A missing last component is missing from an existing directory. *)
Lemma walk_Absent os d n :
  forall comps cur,
    walk os cur comps = Done (Absent d n) ->
    kind (fs_node os d) = KDir /\ fs_node os (d ++ [n]) = None.
Proof.
  induction comps as [|c rest IH]; intros cur; [discriminate|].
  cbn [walk]. destruct (fs_node os cur) as [[i sz|ch|t]|] eqn:Ecur; try discriminate.
  destruct (String.eqb c "."); [apply IH|].
  destruct (String.eqb c ".."); [apply IH|].
  destruct (NAME_MAX <? String.length c)%nat; [discriminate|].
  destruct (fs_node os (cur ++ [c])) as [[i sz|ch'|t]|] eqn:Ec; try apply IH; try discriminate.
  destruct rest; [|discriminate]. intros [= <- <-]. now rewrite Ecur.
Qed.

Lemma namei_Absent os d n :
  forall fuel cur comps,
    namei fuel os cur comps = Absent d n ->
    kind (fs_node os d) = KDir /\ fs_node os (d ++ [n]) = None.
Proof.
  induction fuel as [|fuel IH]; intros cur comps; rewrite namei_unfold;
    destruct (walk os cur comps) as [l|dl t rest] eqn:Ew;
    try (intros ->; now apply (walk_Absent _ _ _ _ _ Ew)); try discriminate.
  destruct (String.eqb t ""); [discriminate|]. apply IH.
Qed.
End KindFacts.

Section TreeFacts.

Lemma get_map_set_size i sz (ch : list (string * node)) c :
  Dict.get (List.map (fun kv => match kv with (k, v) => (k, set_size i sz v) end) ch) c
  = option_map (set_size i sz) (Dict.get ch c).
Proof.
  induction ch as [|[k v] ch IH]; simpl; [reflexivity|].
  destruct (String.eqb k c); [reflexivity | exact IH].
Qed.

Lemma keys_map_set_size i sz (ch : list (string * node)) :
  Dict.keys (List.map (fun kv => match kv with (k, v) => (k, set_size i sz v) end) ch)
  = Dict.keys ch.
Proof.
  unfold Dict.keys. rewrite map_map. apply map_ext. now intros [k v].
Qed.

Lemma node_at_set_size i sz :
  forall p n, node_at (set_size i sz n) p = option_map (set_size i sz) (node_at n p).
Proof.
  induction p as [|c p IH]; intros n; [reflexivity|].
  destruct n as [j s|ch|t].
  - simpl. now destruct (Nat.eqb j i).
  - cbn [set_size node_at]. rewrite get_map_set_size.
    destruct (Dict.get ch c) as [n1|]; [apply IH | reflexivity].
  - reflexivity.
Qed.

Lemma kind_set_size i sz o :
  kind (option_map (set_size i sz) o) =
    match kind o with
    | KFile j s => if Nat.eqb j i then KFile j sz else KFile j s
    | k => k
    end.
Proof.
  destruct o as [[j s|ch|t]|]; try reflexivity. simpl. now destruct (Nat.eqb j i).
Qed.

Lemma shape_set_size i sz o :
  shape (kind (option_map (set_size i sz) o)) = shape (kind o).
Proof.
  rewrite kind_set_size. destruct (kind o) as [|j s| |t]; try reflexivity.
  now destruct (Nat.eqb j i).
Qed.

Lemma put_target new :
  forall L n n', put n L new = Some n' -> node_at n' L = Some new.
Proof.
  induction L as [|c L IH]; intros n n'; [now intros [= ->]|].
  cbn [put]. destruct n as [j s|ch|t]; try discriminate.
  destruct L as [|c' L'].
  - intros [= <-]. simpl. now rewrite DictFacts.get_set_eq.
  - destruct (Dict.get ch c) as [n1|]; [|discriminate].
    destruct (put n1 (c' :: L') new) as [n1'|] eqn:E; [|discriminate].
    intros [= <-]. cbn [node_at]. rewrite DictFacts.get_set_eq. now apply (IH n1).
Qed.

(** A new regular file changes what no other location holds. *)
Lemma put_kind i sz :
  forall L n n',
    L <> [] ->
    put n L (RegularFile i sz) = Some n' ->
    node_at n L = None ->
    forall loc, loc <> L -> kind (node_at n' loc) = kind (node_at n loc).
Proof.
  induction L as [|c L IH]; intros n n' Hne Hput Hnone loc Hloc; [contradiction|].
  cbn [put] in Hput. destruct n as [j s|ch|t]; try discriminate.
  destruct L as [|c' L'].
  - injection Hput as <-. cbn [node_at] in Hnone.
    destruct (Dict.get ch c) as [n1|] eqn:Eg; [discriminate|].
    destruct loc as [|c0 loc']; [reflexivity|]. cbn [node_at].
    rewrite DictFacts.get_set. destruct (String.eqb_spec c c0) as [<-|Hc]; [|reflexivity].
    rewrite Eg. destruct loc' as [|c1 loc'']; [contradiction|]. reflexivity.
  - cbn [node_at] in Hnone.
    destruct (Dict.get ch c) as [n1|] eqn:Eg; [|discriminate].
    destruct (put n1 (c' :: L') (RegularFile i sz)) as [n1'|] eqn:E; [|discriminate].
    injection Hput as <-.
    destruct loc as [|c0 loc']; [reflexivity|]. cbn [node_at].
    rewrite DictFacts.get_set. destruct (String.eqb_spec c c0) as [<-|Hc]; [|reflexivity].
    rewrite Eg. apply (IH n1 n1'); try assumption; [discriminate | congruence].
Qed.

Lemma put_parent new c :
  forall d n n' ch,
    put n (d ++ [c]) new = Some n' ->
    node_at n d = Some (Directory ch) ->
    node_at n' d = Some (Directory (Dict.set ch c new)).
Proof.
  induction d as [|c0 d IH]; intros n n' ch.
  - simpl. intros Hput [= ->]. now injection Hput as <-.
  - cbn [app put node_at]. destruct n as [j s|ch0|t]; try discriminate.
    destruct (d ++ [c])%list as [|x l] eqn:El; [now destruct d|]. rewrite <- El.
    destruct (Dict.get ch0 c0) as [n1|] eqn:Eg; [|discriminate].
    destruct (put n1 (d ++ [c])%list new) as [n1'|] eqn:E; [|discriminate].
    intros [= <-] Hd. rewrite DictFacts.get_set_eq. rewrite El in E. now apply (IH n1).
Qed.
End TreeFacts.

Section Created.
Variables (os os' : OS) (dir : list string) (name : string) (ino : nat) (size : Z).
Hypothesis Hnone : fs_node os (dir ++ [name]) = None.
Hypothesis Hput :
  put (root os) (dir ++ [name]) (RegularFile ino size) = Some (root os').
Hypothesis Hcwd : cwd os' = cwd os.

Lemma created_target : fs_node os' (dir ++ [name]) = Some (RegularFile ino size).
Proof. unfold fs_node. exact (put_target _ _ _ _ Hput). Qed.

Lemma created_kind loc :
  loc <> (dir ++ [name])%list -> kind (fs_node os' loc) = kind (fs_node os loc).
Proof.
  intros Hloc. unfold fs_node.
  apply (put_kind ino size (dir ++ [name]) (root os) (root os')); try assumption.
  now destruct dir.
Qed.

Lemma walk_created :
  forall comps cur,
    match walk os cur comps with
    | Done l => exists l', walk os' cur comps = Done l' /\ after_create (dir ++ [name]) l l'
    | AtLink d t rest => walk os' cur comps = AtLink d t rest
    end.
Proof.
  induction comps as [|c rest IH]; intros cur; [simpl; eauto|].
  rewrite !walk_unfold.
  destruct (decide (cur = (dir ++ [name])%list)) as [->|Hcur].
  { rewrite Hnone, created_target. simpl. eauto. }
  rewrite (created_kind cur Hcur).
  destruct (shape (kind (fs_node os cur))); simpl; eauto.
  destruct (String.eqb c "."); [apply IH|].
  destruct (String.eqb c ".."); [apply IH|].
  destruct (NAME_MAX <? String.length c)%nat; [simpl; eauto|].
  destruct (decide ((cur ++ [c])%list = (dir ++ [name])%list)) as [E|E].
  - rewrite E, Hnone, created_target. simpl.
    destruct rest as [|c' rest'].
    + simpl. eexists. split; [reflexivity|]. simpl. split; [reflexivity | contradiction].
    + rewrite walk_unfold, created_target. simpl. eauto.
  - rewrite (created_kind _ E).
    destruct (shape (kind (fs_node os (cur ++ [c])))); try apply IH; [|reflexivity].
    destruct rest; simpl; eauto.
    eexists. split; [reflexivity|]. simpl. split; [contradiction | reflexivity].
Qed.

Lemma namei_created :
  forall fuel cur comps,
    after_create (dir ++ [name]) (namei fuel os cur comps) (namei fuel os' cur comps).
Proof.
  induction fuel as [|fuel IH]; intros cur comps; rewrite !namei_unfold;
    pose proof (walk_created comps cur) as Hw;
    destruct (walk os cur comps) as [l|d t rest].
  - destruct Hw as (l' & -> & H). exact H.
  - rewrite Hw. reflexivity.
  - destruct Hw as (l' & -> & H). exact H.
  - rewrite Hw. destruct (String.eqb t ""); [simpl; auto | apply IH].
Qed.

Lemma resolve_created p :
  after_create (dir ++ [name]) (resolve os p) (resolve os' p).
Proof.
  unfold resolve. rewrite Hcwd. destruct (has_nul p); [reflexivity|].
  destruct (PATH_MAX <=? path_length p)%nat; [reflexivity|].
  apply namei_created.
Qed.
End Created.

(** ** What a write leaves behind *)

Lemma resolve_Absent os p d n :
  resolve os p = Absent d n ->
  kind (fs_node os d) = KDir /\ fs_node os (d ++ [n]) = None.
Proof.
  unfold resolve. destruct (has_nul p); [discriminate|].
  destruct (PATH_MAX <=? path_length p)%nat; [discriminate|]. apply namei_Absent.
Qed.

(** The two ways [write_file] succeeds: it rewrites the regular file the
    path leads to, or it creates the missing last component. *)
Lemma write_file_cases os p size os' :
  write_file os p size = Some os' ->
  cwd os' = cwd os /\
  ((exists loc i s,
      resolve os p = Found loc /\ fs_node os loc = Some (RegularFile i s) /\
      root os' = set_size i size (root os)) \/
   (exists d n,
      resolve os p = Absent d n /\ fs_node os (d ++ [n]) = None /\
      put (root os) (d ++ [n]) (RegularFile (S (max_ino (root os))) size)
        = Some (root os'))).
Proof.
  unfold write_file. destruct (resolve os p) as [loc|d n|e] eqn:Er; [| |discriminate].
  - destruct (fs_node os loc) as [[i s|ch|t]|] eqn:En; try discriminate.
    intros [= <-]. split; [reflexivity|]. left. now exists loc, i, s.
  - destruct (put (root os) (d ++ [n]) _) as [r'|] eqn:Ep; [|discriminate].
    intros [= <-]. split; [reflexivity|]. right. exists d, n.
    destruct (resolve_Absent _ _ _ _ Er) as [_ Hnone]. auto.
Qed.

Lemma fs_node_rewritten os os' i size loc :
  root os' = set_size i size (root os) ->
  fs_node os' loc = option_map (set_size i size) (fs_node os loc).
Proof. intros Hr. unfold fs_node. rewrite Hr. apply node_at_set_size. Qed.

Lemma resolve_rewritten os os' i size p :
  cwd os' = cwd os -> root os' = set_size i size (root os) ->
  resolve os' p = resolve os p.
Proof.
  intros Hcwd Hr. apply resolve_ext; [exact Hcwd|].
  intros loc. rewrite (fs_node_rewritten _ _ _ _ _ Hr). apply shape_set_size.
Qed.


Lemma served_kind o :
  served (Return o) =
    match kind o with
    | KFile _ size => Return (Some size)
    | _ => Return None
    end.
Proof. now destruct o as [[i s|ch|t]|]. Qed.

(** A successful write through [p] changes what a probe of [q] tells
    [download_file] only when [q] names the file written. *)
Lemma write_file_served os p q size os' :
  write_file os p size = Some os' ->
  same_file os p q = false ->
  served (probe os' q) = served (probe os q).
Proof.
  intros Hw Hsame. destruct (write_file_cases _ _ _ _ Hw)
    as (Hcwd & [(loc & i & s & Hres & Hnode & Hroot)|(d & n & Hres & Hnone & Hput)]).
  - unfold probe. rewrite (resolve_rewritten _ _ _ _ _ Hcwd Hroot).
    destruct (resolve os q) as [lq|dq nq|e] eqn:Eq; try reflexivity.
    rewrite !served_kind, (fs_node_rewritten _ _ _ _ _ Hroot), kind_set_size.
    destruct (fs_node os lq) as [[j sj|ch|t]|] eqn:Enq; try reflexivity. simpl.
    destruct (Nat.eqb_spec j i) as [->|Hji]; [|reflexivity].
    exfalso. unfold same_file, target_of in Hsame. rewrite Hres, Eq, Hnode, Enq in Hsame.
    rewrite Nat.eqb_refl, orb_true_r in Hsame. discriminate.
  - pose proof (resolve_created os os' d n _ _ Hnone Hput Hcwd q) as H.
    unfold same_file, target_of in Hsame. rewrite Hres in Hsame.
    unfold probe. destruct (resolve os q) as [lq|dq nq|e] eqn:Eq; simpl in H.
    + rewrite H. rewrite !served_kind.
      rewrite (created_kind os os' d n _ _ Hnone Hput); [reflexivity|].
      intros ->. rewrite bool_decide_eq_true_2 in Hsame by reflexivity. discriminate.
    + destruct H as [_ H]. rewrite H; [reflexivity|].
      intros E. rewrite E, bool_decide_eq_true_2 in Hsame by reflexivity. discriminate.
    + destruct e; try (rewrite H; reflexivity).
      destruct H as [-> | ->]; reflexivity.
Qed.

Lemma create_files_accepted (srv : PServer) (os os' : OS) (file : UploadFile)
    (resp : CreateResponse) :
  create_files srv os file = Return (resp, os') ->
  write_file os (joinpath (shared_directory (file_manager srv)) (uf_filename file))
             (uf_size file) = Some os'.
Proof.
  unfold create_files. rewrite create_files_try_cases.
  destruct (uf_size file =? 0); [discriminate|].
  destruct (uf_size file >? 52428800); [discriminate|]. cbv zeta.
  destruct (path_exists os _) as [b|e]; [|discriminate].
  destruct (write_file os _ (uf_size file)) as [os1|]; [|discriminate].
  now intros [= _ ->].
Qed.

Lemma download_file_served (srv : PServer) (os1 os2 : OS) (fname : string) :
  served (probe os1 (joinpath (shared_directory (file_manager srv)) fname))
  = served (probe os2 (joinpath (shared_directory (file_manager srv)) fname)) ->
  download_file srv os1 fname = download_file srv os2 fname.
Proof.
  rewrite !download_file_cases. cbv zeta.
  destruct (probe os1 _) as [[[i1 s1|c1|t1]|]|e1]; destruct (probe os2 _) as [[[i2 s2|c2|t2]|]|e2];
    simpl; intros H; try discriminate H; try reflexivity; injection H as <-; reflexivity.
Qed.



(** X17.  An upload changes what is served under another name only when
    that name is one more name of the file written.  After [POST /create]
    accepted a file, [GET /download] answers for every name whose path does
    not name the file written (it is neither the same entry, nor a hard
    link of it, nor a symbolic link that leads to it) exactly as it did
    before the upload. *)
Theorem upload_keeps_other_downloads (srv : PServer) (os os' : OS) (file : UploadFile)
    (resp : CreateResponse) (other : string) :
  create_files srv os file = Return (resp, os') ->
  same_file os (joinpath (shared_directory (file_manager srv)) (uf_filename file))
               (joinpath (shared_directory (file_manager srv)) other) = false ->
  download_file srv os' other = download_file srv os other.
Proof.
  intros Hc Hsame. apply download_file_served.
  exact (write_file_served _ _ _ _ _ (create_files_accepted _ _ _ _ _ Hc) Hsame).
Qed.

Lemma upload_keeps_other_downloads_witness :
  download_file demo_server
    (os_after linked_os (create_files demo_server linked_os (upload "hello.txt" 12)))
    "link.txt"
  = download_file demo_server linked_os "link.txt".
Proof.
  apply (upload_keeps_other_downloads demo_server linked_os _ (upload "hello.txt" 12)
           {| cr_filename := "hello.txt"; cr_size := 12; cr_peer_id := "peer-001" |}
           "link.txt" eq_refl eq_refl).
Defined.

(** ** Scanning *)

Section ScanFacts.
Variable attrs : Attributes.

Lemma fold_length_app (cs : list string) (name : string) :
  fold_right (fun x n => 1 + String.length x + n)%nat 0%nat (cs ++ [name])
  = (fold_right (fun x n => 1 + String.length x + n)%nat 0%nat cs
     + (1 + String.length name))%nat.
Proof.
  induction cs as [|c cs IH]; [simpl; lia|].
  cbn [app fold_right]. rewrite IH. lia.
Qed.

Lemma path_length_child p name :
  (path_length (child p name) <= path_length p + 1 + String.length name)%nat.
Proof.
  unfold path_length, child. cbn [parts absolute].
  destruct (parts p) as [|c cs]; cbn [app].
  - simpl. destruct (absolute p); lia.
  - rewrite fold_length_app. lia.
Qed.

Lemma has_nul_child p name :
  has_nul (child p name) = has_nul p || has_ascii Ascii.zero name.
Proof.
  unfold has_nul, child. cbn [parts]. rewrite existsb_app. simpl.
  now rewrite orb_false_r.
Qed.

Lemma path_name_child p name : path_name (child p name) = name.
Proof. unfold path_name, child. cbn [parts]. now rewrite last_snoc. Qed.

(** The lookup of an entry of a directory that is no symbolic link. *)
Lemma resolve_child os p loc ch name :
  resolve os p = Found loc ->
  fs_node os loc = Some (Directory ch) ->
  name <> "." -> name <> ".." ->
  (is_link <$> Dict.get ch name) <> Some true ->
  resolve os (child p name) =
    if has_ascii Ascii.zero name then Failed EmbeddedNull
    else if (PATH_MAX <=? path_length (child p name))%nat then Failed ENAMETOOLONG
    else if (NAME_MAX <? String.length name)%nat then Failed ENAMETOOLONG
    else match Dict.get ch name with
         | Some _ => Found (loc ++ [name])
         | None => Absent loc name
         end.
Proof.
  intros Hres Hdir Hd Hdd Hlink.
  destruct (resolve_Found _ _ _ Hres) as (Hnul & _ & Hn).
  unfold resolve. rewrite has_nul_child, Hnul. simpl orb.
  destruct (has_ascii Ascii.zero name); [reflexivity|].
  destruct (PATH_MAX <=? path_length (child p name))%nat; [reflexivity|].
  cbn [child absolute parts].
  destruct (namei_app_found os [name] loc _ _ _ Hn) as [fuel' E]. rewrite E.
  now apply namei_entry.
Qed.

Lemma valid_name_inv name :
  valid_name name = true ->
  name <> "" /\ name <> "." /\ name <> ".." /\ has_ascii "/" name = false /\
  has_ascii Ascii.zero name = false /\ (String.length name <= NAME_MAX)%nat.
Proof.
  unfold valid_name. rewrite !andb_true_iff, !negb_true_iff.
  intros (((((H1 & H2) & H3) & H4) & H5) & H6).
  apply Nat.leb_le in H6.
  repeat split; auto; intros ->; discriminate.
Qed.

(** Probing an entry that is no symbolic link finds that entry. *)
Lemma probe_child os p loc ch name nd :
  resolve os p = Found loc ->
  fs_node os loc = Some (Directory ch) ->
  Dict.get ch name = Some nd ->
  is_link nd = false ->
  valid_name name = true ->
  (path_length p + NAME_MAX + 1 < PATH_MAX)%nat ->
  probe os (child p name) = Return (Some nd).
Proof.
  intros Hres Hdir Hget Hlink Hvalid Hlen.
  destruct (valid_name_inv _ Hvalid) as (_ & Hd & Hdd & _ & Hnul & Hn).
  unfold probe. rewrite (resolve_child os p loc ch name Hres Hdir Hd Hdd).
  - rewrite Hnul.
    assert (H1 : (PATH_MAX <=? path_length (child p name))%nat = false).
    { apply Nat.leb_gt. pose proof (path_length_child p name). lia. }
    assert (H2 : (NAME_MAX <? String.length name)%nat = false).
    { apply Nat.ltb_ge. exact Hn. }
    rewrite H1, H2, Hget. now rewrite fs_node_snoc, Hdir, Hget.
  - rewrite Hget. simpl. rewrite Hlink. discriminate.
Qed.

Lemma get_file_metadata_regular os dir name i s :
  probe os (child dir name) = Return (Some (RegularFile i s)) ->
  _get_file_metadata attrs os (child dir name) = Return (metadata_of attrs dir name i s).
Proof.
  intros H. unfold _get_file_metadata. rewrite (probe_stat _ _ _ H). simpl.
  now rewrite path_name_child.
Qed.

(** Every listed entry is a name of the directory whose path leads, links
    followed, to a regular file. *)
Lemma scan_loop_sound os dir :
  forall names acc fm,
    In fm (snd (scan_loop attrs os (List.map (child dir) names) acc)) ->
    In fm (snd acc) \/
    exists name i s,
      In name names /\ probe os (child dir name) = Return (Some (RegularFile i s)) /\
      fm = metadata_of attrs dir name i s.
Proof.
  induction names as [|name names IH]; intros acc fm; [now left|].
  cbn [List.map scan_loop].
  destruct (path_is_file os (child dir name)) as [[|]|e] eqn:Ef.
  - apply path_is_file_true in Ef. destruct Ef as (i & s & Hp).
    rewrite (get_file_metadata_regular _ _ _ _ _ Hp). intros H.
    destruct (IH _ _ H) as [Hin|(n' & i' & s' & Hin & Hp' & ->)].
    + cbn [snd] in Hin. apply in_app_or in Hin. destruct Hin as [Hin|[<-|[]]]; [now left|].
      right. exists name, i, s. split; [now left | auto].
    + right. exists n', i', s'. split; [now right | auto].
  - intros H. destruct (IH _ _ H) as [Hin|(n' & i' & s' & Hin & Hp' & ->)]; [now left|].
    right. exists n', i', s'. split; [now right | auto].
  - now left.
Qed.

(** When probing each entry finds that entry, the scan records the regular
    files among them, in order. *)
Lemma scan_loop_plain os dir :
  forall l acc,
    (forall name nd, In (name, nd) l -> probe os (child dir name) = Return (Some nd)) ->
    scan_loop attrs os (List.map (child dir) (Dict.keys l)) acc
    = (fold_left store_file (regular_metadata attrs dir l) (fst acc),
       (snd acc ++ regular_metadata attrs dir l)%list).
Proof.
  induction l as [|[name nd] l IH]; intros acc Hp.
  - simpl. rewrite app_nil_r. now destruct acc.
  - cbn [Dict.keys List.map fst scan_loop].
    assert (Hhere : probe os (child dir name) = Return (Some nd)) by (apply Hp; now left).
    assert (Hrest : forall name nd, In (name, nd) l ->
                      probe os (child dir name) = Return (Some nd)).
    { intros n' nd' Hin. apply Hp. now right. }
    change (List.map fst l) with (Dict.keys l).
    unfold path_is_file. rewrite Hhere. simpl bind.
    destruct nd as [i s|ch|t]; cbn [regular_metadata flat_map snd fst app].
    + rewrite (get_file_metadata_regular _ _ _ _ _ Hhere).
      rewrite (IH _ Hrest). cbn [fst snd fold_left]. unfold store_file at 2.
      now rewrite <- app_assoc.
    + exact (IH _ Hrest).
    + exact (IH _ Hrest).
Qed.

Lemma stored_regular dir :
  forall l d name,
    List.NoDup (Dict.keys l) ->
    Dict.get (fold_left store_file (regular_metadata attrs dir l) d) name =
      match Dict.get l name with
      | Some (RegularFile i s) => Some (metadata_of attrs dir name i s)
      | _ => Dict.get d name
      end.
Proof.
  induction l as [|[n nd] l IH]; intros d name Hnd; [reflexivity|].
  inversion Hnd as [|x xs Hnotin Hnd']; subst.
  change (Dict.get ((n, nd) :: l) name)
    with (if String.eqb n name then Some nd else Dict.get l name).
  assert (Hl : n = name -> Dict.get l name = None).
  { intros <-. now apply DictFacts.get_None_keys. }
  destruct nd as [i s|ch|t]; cbn [regular_metadata flat_map snd fst app fold_left];
    fold (regular_metadata attrs dir l); rewrite (IH _ _ Hnd');
    destruct (String.eqb_spec n name) as [E|E]; try (rewrite (Hl E)); try reflexivity.
  - subst name. unfold store_file. simpl filename. now rewrite DictFacts.get_set_eq.
  - destruct (Dict.get l name) as [[i' s'|ch'|t']|]; try reflexivity;
      unfold store_file; simpl filename; now rewrite DictFacts.get_set_ne.
Qed.

Lemma iterdir_listed os p loc ch :
  resolve os p = Found loc -> fs_node os loc = Some (Directory ch) ->
  iterdir os p = Return (List.map (child p) (Dict.keys ch)).
Proof. intros Hr Hn. unfold iterdir. now rewrite Hr, Hn. Qed.

Lemma iterdir_inv os p paths :
  iterdir os p = Return paths ->
  exists loc ch, resolve os p = Found loc /\ fs_node os loc = Some (Directory ch) /\
                 paths = List.map (child p) (Dict.keys ch).
Proof.
  unfold iterdir. destruct (resolve os p) as [loc|d n|e]; try discriminate.
  destruct (fs_node os loc) as [[i s|ch|t]|] eqn:En; try discriminate.
  intros [= <-]. now exists loc, ch.
Qed.

Lemma scan_files_plain (fm : FileManager) os loc children :
  resolve os (shared_directory fm) = Found loc ->
  fs_node os loc = Some (Directory children) ->
  plain_directory (shared_directory fm) children ->
  scan_files attrs fm os
  = (fold_left store_file (regular_metadata attrs (shared_directory fm) children) [],
     regular_metadata attrs (shared_directory fm) children).
Proof.
  intros Hres Hdir (Hnd & Hvalid & Hlinks & Hlen).
  unfold scan_files. rewrite (iterdir_listed _ _ _ _ Hres Hdir).
  rewrite scan_loop_plain; [reflexivity|].
  intros name nd Hin. apply (probe_child os _ loc children); try assumption.
  - now apply In_get_NoDup.
  - rewrite forallb_forall in Hlinks. specialize (Hlinks _ Hin). simpl in Hlinks.
    now apply negb_true_iff in Hlinks.
  - rewrite forallb_forall in Hvalid. apply Hvalid. apply in_map_iff. now exists (name, nd).
Qed.
End ScanFacts.

Lemma path_is_dir_listed os p loc ch :
  resolve os p = Found loc -> fs_node os loc = Some (Directory ch) ->
  path_is_dir os p = Return true.
Proof. intros Hr Hn. unfold path_is_dir, probe. now rewrite Hr, Hn. Qed.

(** X18.  [scan_files] and the shared directory.  When the shared directory
    is not an existing directory, [files_index] and the returned list are
    empty.  Every listed entry carries the name of an entry of the shared
    directory whose path leads, symbolic links followed, to a regular file,
    and the size and inode attributes of the file reached; sub-directories
    are not listed and not descended into.  When no entry is a symbolic
    link (the names being those of a listing, and the paths short enough),
    the list holds exactly the regular files of the directory, in the order
    of the listing, and [files_index] holds under each name exactly that
    file's entry. *)
Theorem scan_files_exact (attrs : Attributes) (fm : FileManager) (os : OS) :
  let index := fst (scan_files attrs fm os) in
  let listed := snd (scan_files attrs fm os) in
  (path_is_dir os (shared_directory fm) <> Return true -> index = [] /\ listed = []) /\
  (forall fmeta, In fmeta listed ->
     exists loc children name ino size,
       resolve os (shared_directory fm) = Found loc /\
       fs_node os loc = Some (Directory children) /\
       In name (Dict.keys children) /\
       probe os (child (shared_directory fm) name) = Return (Some (RegularFile ino size)) /\
       fmeta = metadata_of attrs (shared_directory fm) name ino size) /\
  (forall loc children,
     resolve os (shared_directory fm) = Found loc ->
     fs_node os loc = Some (Directory children) ->
     plain_directory (shared_directory fm) children ->
     listed = regular_metadata attrs (shared_directory fm) children /\
     forall name,
       Dict.get index name =
         match Dict.get children name with
         | Some (RegularFile ino size) =>
             Some (metadata_of attrs (shared_directory fm) name ino size)
         | _ => None
         end).
Proof.
  cbv zeta. split; [|split].
  - intros Hnot. unfold scan_files.
    destruct (iterdir os (shared_directory fm)) as [paths|e] eqn:Ei; [|auto].
    destruct (iterdir_inv _ _ _ Ei) as (loc & ch & Hr & Hn & _).
    exfalso. apply Hnot. now apply (path_is_dir_listed _ _ loc ch).
  - intros fmeta. unfold scan_files.
    destruct (iterdir os (shared_directory fm)) as [paths|e] eqn:Ei; [|intros []].
    destruct (iterdir_inv _ _ _ Ei) as (loc & ch & Hr & Hn & ->).
    intros Hin. destruct (scan_loop_sound attrs os _ _ _ _ Hin)
      as [[]|(name & i & s & Hname & Hp & ->)].
    now exists loc, ch, name, i, s.
  - intros loc children Hres Hdir Hplain.
    rewrite (scan_files_plain attrs fm os loc children Hres Hdir Hplain). cbn [fst snd].
    split; [reflexivity|]. intros name.
    rewrite stored_regular by apply Hplain. reflexivity.
Qed.

Lemma scan_files_exact_witness :
  snd (scan_files demo_attrs (file_manager demo_server) demo_os)
  = regular_metadata demo_attrs (shared_directory (file_manager demo_server))
                     [("hello.txt", RegularFile 1 7)].
Proof.
  apply (proj2 (proj2 (scan_files_exact demo_attrs (file_manager demo_server) demo_os))
           ["srv"; "shared_files"] [("hello.txt", RegularFile 1 7)] eq_refl eq_refl).
  split; [|split; [|split]].
  - repeat constructor. intros [].
  - reflexivity.
  - reflexivity.
  - apply Nat.ltb_lt. vm_compute. reflexivity.
Defined.

(** A scan follows links too: [link.txt] is listed with the size of the
    file outside the shared directory, and the hard link [copy.txt] with
    the size of [hello.txt]. *)
Example scan_files_follows_links :
  List.map (fun fmeta => (filename fmeta, file_size fmeta))
           (snd (scan_files demo_attrs (file_manager demo_server) linked_os))
  = [("hello.txt", 7); ("link.txt", 99); ("copy.txt", 7)].
Proof. vm_compute. reflexivity. Qed.

(** An upload reaches every name of the file written: through the symbolic
    link [link.txt] it rewrites the file outside the shared directory, and
    under [hello.txt] it changes what [copy.txt] serves. *)
Example upload_reaches_other_names :
  fr_x_file_size <$>
    match download_file demo_server
            (os_after linked_os (create_files demo_server linked_os (upload "hello.txt" 12)))
            "copy.txt" with
    | Return r => Some r
    | Raise _ => None
    end = Some 12 /\
  kind (fs_node (os_after linked_os (create_files demo_server linked_os (upload "link.txt" 12)))
                ["srv"; "secret.txt"]) = KFile 2 12.
Proof. vm_compute. split; reflexivity. Qed.

(** ** Scanning after an upload *)

Lemma has_slash_ascii s : has_ascii "/" s = has_slash s.
Proof. induction s as [|c s IH]; simpl; [reflexivity | now rewrite IH]. Qed.

Lemma is_link_set_size i sz nd : is_link (set_size i sz nd) = is_link nd.
Proof. destruct nd as [j s|ch|t]; try reflexivity. simpl. now destruct (Nat.eqb j i). Qed.

Lemma in_regular_metadata (attrs : Attributes) dir l name i s :
  In (name, RegularFile i s) l ->
  In (metadata_of attrs dir name i s) (regular_metadata attrs dir l).
Proof.
  intros Hin. unfold regular_metadata. apply in_flat_map.
  exists (name, RegularFile i s). split; [exact Hin | now left].
Qed.

(** [..] below a directory is its parent, a directory. *)
Lemma resolve_parent os p loc ch :
  resolve os p = Found loc -> fs_node os loc = Some (Directory ch) ->
  (exists e, resolve os (child p "..") = Failed e) \/
  resolve os (child p "..") = Found (removelast loc).
Proof.
  intros Hres Hdir. destruct (resolve_Found _ _ _ Hres) as (Hnul & _ & Hn).
  unfold resolve. rewrite has_nul_child, Hnul. simpl orb.
  destruct (PATH_MAX <=? path_length (child p ".."))%nat; [left; eauto|].
  cbn [child absolute parts].
  destruct (namei_app_found os [".."] loc _ _ _ Hn) as [fuel' E]. rewrite E.
  right. rewrite namei_unfold. cbn [walk]. now rewrite Hdir.
Qed.

Lemma plain_not_link p children name :
  plain_directory p children -> (is_link <$> Dict.get children name) <> Some true.
Proof.
  intros (_ & _ & Hlinks & _). destruct (Dict.get children name) as [nd|] eqn:Eg; [|discriminate].
  rewrite forallb_forall in Hlinks.
  specialize (Hlinks _ (DictFacts.get_Some_In _ _ _ Eg)). simpl in Hlinks.
  apply negb_true_iff in Hlinks. simpl. now rewrite Hlinks.
Qed.

(** An accepted upload under a name without separator into a directory
    without symbolic links: the name is one a listing can hold, and the
    shared directory afterwards holds the same entries with the sizes of
    the hard links of the file written replaced, or one more entry. *)
Lemma upload_plain (srv : PServer) (os os' : OS) (file : UploadFile) loc children :
  has_slash (uf_filename file) = false ->
  resolve os (shared_directory (file_manager srv)) = Found loc ->
  fs_node os loc = Some (Directory children) ->
  plain_directory (shared_directory (file_manager srv)) children ->
  write_file os (joinpath (shared_directory (file_manager srv)) (uf_filename file))
             (uf_size file) = Some os' ->
  valid_name (uf_filename file) = true /\
  resolve os' (shared_directory (file_manager srv)) = Found loc /\
  ((exists i s,
      Dict.get children (uf_filename file) = Some (RegularFile i s) /\
      fs_node os' loc =
        Some (Directory
                (List.map (fun kv => match kv with
                                     | (k, v) => (k, set_size i (uf_size file) v)
                                     end) children))) \/
   (exists i,
      Dict.get children (uf_filename file) = None /\
      fs_node os' loc =
        Some (Directory (Dict.set children (uf_filename file)
                                  (RegularFile i (uf_size file)))))).
Proof.
  intros Hplain Hres Hdir Hpd Hw.
  set (name := uf_filename file) in *. set (shared := shared_directory (file_manager srv)) in *.
  rewrite (joinpath_plain _ _ Hplain) in Hw.
  destruct (is_name name) eqn:Ename.
  2:{ exfalso. revert Hw. unfold write_file.
      assert (E : resolve os {| absolute := absolute shared; parts := parts shared ++ [] |}
                  = resolve os shared).
      { unfold resolve, has_nul, path_length. cbn [absolute parts]. now rewrite app_nil_r. }
      rewrite E, Hres, Hdir. discriminate. }
  change {| absolute := absolute shared; parts := parts shared ++ [name] |}
    with (child shared name) in Hw.
  unfold is_name in Ename. apply andb_prop in Ename. destruct Ename as [Hne Hdot].
  assert (Hdd : name <> "..").
  { intros E. revert Hw. unfold write_file. rewrite E.
    destruct (resolve_parent _ _ _ _ Hres Hdir) as [[e ->] | ->]; [discriminate|].
    destruct (parent_is_directory _ _ _ Hdir) as [ch' ->]. discriminate. }
  pose proof (plain_not_link _ _ name Hpd) as Hlink.
  assert (Hd : name <> ".").
  { intros E. rewrite E in Hdot. discriminate Hdot. }
  pose proof (resolve_child os shared loc children name Hres Hdir Hd Hdd Hlink) as Hr.
  destruct (write_file_cases _ _ _ _ Hw)
    as (Hcwd & [(loc' & i & s & Hres' & Hnode & Hroot)|(d & n & Hres' & Hnone & Hput)]);
    rewrite Hres' in Hr;
    destruct (has_ascii Ascii.zero name) eqn:Hnul; try discriminate;
    destruct (PATH_MAX <=? path_length (child shared name))%nat; try discriminate;
    destruct (NAME_MAX <? String.length name)%nat eqn:Hlen; try discriminate;
    destruct (Dict.get children name) as [nd|] eqn:Eg; try discriminate.
  - injection Hr as ->. rewrite fs_node_snoc, Hdir, Eg in Hnode. injection Hnode as ->.
    split; [|split].
    + unfold valid_name. rewrite Hne, Hdot, Hnul, has_slash_ascii, Hplain. simpl.
      destruct (String.eqb_spec name ".."); [contradiction|]. simpl.
      apply Nat.leb_le. now apply Nat.ltb_ge in Hlen.
    + now rewrite (resolve_rewritten _ _ _ _ _ Hcwd Hroot).
    + left. exists i, s. split; [reflexivity|].
      now rewrite (fs_node_rewritten _ _ _ _ _ Hroot), Hdir.
  - injection Hr as E1 E2. subst d n. split; [|split].
    + unfold valid_name. rewrite Hne, Hdot, Hnul, has_slash_ascii, Hplain. simpl.
      destruct (String.eqb_spec name ".."); [contradiction|]. simpl.
      apply Nat.leb_le. now apply Nat.ltb_ge in Hlen.
    + pose proof (resolve_created os os' loc name _ _ Hnone Hput Hcwd shared) as H.
      rewrite Hres in H. exact H.
    + right. eexists. split; [reflexivity|].
      unfold fs_node in *. exact (put_parent _ _ _ _ _ _ Hput Hdir).
Qed.

(** X19.  A rescan after an upload.  The shared directory holds no symbolic
    link (its names being those of a listing, and the paths short enough).
    After [POST /create] accepted a file under a name without [/], a rescan
    records the uploaded file under its name, with the uploaded size, and
    lists it; under every other name that is not a hard link of the file
    written it records what a scan before the upload recorded. *)
Theorem upload_then_scan (attrs : Attributes) (srv : PServer) (os os' : OS)
    (file : UploadFile) (resp : CreateResponse)
    (loc : list string) (children : list (string * node)) :
  has_slash (uf_filename file) = false ->
  resolve os (shared_directory (file_manager srv)) = Found loc ->
  fs_node os loc = Some (Directory children) ->
  plain_directory (shared_directory (file_manager srv)) children ->
  create_files srv os file = Return (resp, os') ->
  let before := fst (scan_files attrs (file_manager srv) os) in
  let after := fst (scan_files attrs (file_manager srv) os') in
  (exists fmeta, Dict.get after (uf_filename file) = Some fmeta /\
                 filename fmeta = uf_filename file /\ file_size fmeta = uf_size file) /\
  In (uf_filename file)
     (List.map filename (snd (scan_files attrs (file_manager srv) os'))) /\
  (forall other, other <> uf_filename file ->
     (forall i s j s',
        Dict.get children (uf_filename file) = Some (RegularFile i s) ->
        Dict.get children other = Some (RegularFile j s') -> i <> j) ->
     Dict.get after other = Dict.get before other).
Proof.
  intros Hplain Hres Hdir Hpd Hc. cbv zeta.
  pose proof (create_files_accepted _ _ _ _ _ Hc) as Hw.
  destruct (upload_plain srv os os' file loc children Hplain Hres Hdir Hpd Hw)
    as (Hvalid & Hres' & Hafter).
  set (name := uf_filename file) in *. set (shared := shared_directory (file_manager srv)) in *.
  rewrite (scan_files_plain attrs _ os loc children Hres Hdir Hpd).
  destruct Hpd as (Hnd & Hnames & Hlinks & Hlen).
  destruct Hafter as [(i & s & Hentry & Hdir')|(i & Hentry & Hdir')].
  - set (children' := List.map (fun kv => match kv with
                                          | (k, v) => (k, set_size i (uf_size file) v)
                                          end) children) in *.
    assert (Hpd' : plain_directory shared children').
    { split; [|split; [|split]]; unfold children'.
      - now rewrite keys_map_set_size.
      - now rewrite keys_map_set_size.
      - rewrite forallb_forall in *. intros [k v] Hin. apply in_map_iff in Hin.
        destruct Hin as ([k0 v0] & [= <- <-] & Hin). simpl. rewrite is_link_set_size.
        exact (Hlinks _ Hin).
      - exact Hlen. }
    rewrite (scan_files_plain attrs _ os' loc children' Hres' Hdir' Hpd'). cbn [fst snd].
    assert (Hget' : forall x, Dict.get children' x =
                      option_map (set_size i (uf_size file)) (Dict.get children x)).
    { intros x. apply get_map_set_size. }
    assert (Hname : Dict.get children' name = Some (RegularFile i (uf_size file))).
    { rewrite Hget', Hentry. simpl. now rewrite Nat.eqb_refl. }
    split; [|split].
    + rewrite stored_regular by apply Hpd'. rewrite Hname. eexists. split; [reflexivity|].
      simpl. auto.
    + apply in_map_iff. eexists. split; [|apply in_regular_metadata;
        exact (DictFacts.get_Some_In _ _ _ Hname)]. reflexivity.
    + intros other Hother Hnolink.
      rewrite !stored_regular by (apply Hpd' || exact Hnd). rewrite Hget'.
      destruct (Dict.get children other) as [[j s'|ch|t]|] eqn:Eo; try reflexivity.
      simpl. destruct (Nat.eqb_spec j i) as [->|Hji]; [|reflexivity].
      exfalso. exact (Hnolink i s i s' Hentry eq_refl eq_refl).
  - set (new := RegularFile i (uf_size file)) in *.
    set (children' := Dict.set children name new) in *.
    assert (Hpd' : plain_directory shared children').
    { split; [|split; [|split]]; unfold children'.
      - now apply DictFacts.NoDup_keys_set.
      - rewrite (DictFacts.keys_set_absent _ _ _ Hentry), forallb_app, Hnames. simpl.
        now rewrite Hvalid.
      - rewrite (set_absent _ _ _ Hentry), forallb_app, Hlinks. reflexivity.
      - exact Hlen. }
    rewrite (scan_files_plain attrs _ os' loc children' Hres' Hdir' Hpd'). cbn [fst snd].
    assert (Hname : Dict.get children' name = Some new) by apply DictFacts.get_set_eq.
    split; [|split].
    + rewrite stored_regular by apply Hpd'. rewrite Hname. eexists. split; [reflexivity|].
      simpl. auto.
    + apply in_map_iff. eexists. split; [|apply in_regular_metadata;
        exact (DictFacts.get_Some_In _ _ _ Hname)]. reflexivity.
    + intros other Hother _.
      rewrite !stored_regular by (apply Hpd' || exact Hnd).
      unfold children'. rewrite DictFacts.get_set_ne by congruence. reflexivity.
Qed.

Lemma demo_shared_plain :
  plain_directory (shared_directory (file_manager demo_server))
                  [("hello.txt", RegularFile 1 7)].
Proof.
  split; [|split; [|split]].
  - repeat constructor. intros [].
  - reflexivity.
  - reflexivity.
  - apply Nat.ltb_lt. vm_compute. reflexivity.
Qed.

Lemma upload_then_scan_witness :
  In "new.bin"
     (List.map filename
        (snd (scan_files demo_attrs (file_manager demo_server)
                (os_after demo_os (create_files demo_server demo_os (upload "new.bin" 12)))))).
Proof.
  apply (proj1 (proj2
    (upload_then_scan demo_attrs demo_server demo_os
       (os_after demo_os (create_files demo_server demo_os (upload "new.bin" 12)))
       (upload "new.bin" 12)
       {| cr_filename := "new.bin"; cr_size := 12; cr_peer_id := "peer-001" |}
       ["srv"; "shared_files"] [("hello.txt", RegularFile 1 7)]
       eq_refl eq_refl eq_refl demo_shared_plain eq_refl))).
Defined.
